(** * UnrealScript language service: symbol resolution, tree building and
      diagnostics

    A shallow embedding of the symbol model of the language server
    ([UCSymbol], [UCStructSymbol], the class symbols), of the parts of the
    tree builder ([DocumentASTWalker]) that declare classes and enums, of the
    index pass and of the diagnostics pass ([DocumentAnalyzer]), followed by
    the properties established about them.

    Part I holds the definitions, one module per source file; Part II holds
    the lemmas and theorems. *)

From Stdlib Require Import ZArith Lia Ascii String.
From stdpp Require Import base option strings list gmap.

Local Open Scope string_scope.

(* ===================================================================== *)
(** * Part I: definitions                                                 *)
(* ===================================================================== *)

(** ** Names

    Identifiers are compared after [toLowerCase()].  UnrealScript identifiers
    are ASCII, and the lowering below acts on the ASCII letters only. *)
Module Names.

Definition lower_ascii (c : ascii) : ascii :=
  let n := Ascii.nat_of_ascii c in
  if (65 <=? n)%nat && (n <=? 90)%nat
  then Ascii.ascii_of_nat (n + 32)
  else c.

Fixpoint toLowerCase (s : string) : string :=
  match s with
  | EmptyString => EmptyString
  | String c s' => String (lower_ascii c) (toLowerCase s')
  end.

(** [a === b] on JS strings. *)
Definition str_eq (a b : string) : bool := bool_decide (a = b).

Definition NAME_ENUMCOUNT : string := "EnumCount".

(** [\s] of a JS regular expression, on the characters below 256: tab to
    carriage return, space and the no-break space. *)
Definition is_space (c : ascii) : bool :=
  let n := Ascii.nat_of_ascii c in
  ((9 <=? n)%nat && (n <=? 13)%nat) || (n =? 32)%nat || (n =? 160)%nat.

(** [s.replace(/'|\s/g, "")]: the text without quotes and white space. *)
Fixpoint strip_quotes_and_space (s : string) : string :=
  match s with
  | EmptyString => EmptyString
  | String c s' =>
      if bool_decide (c = "'"%char) || is_space c
      then strip_quotes_and_space s'
      else String c (strip_quotes_and_space s')
  end.

(** [s.split(sep)] for a separator of one character: the parts between
    the separators, one part for a text without separator (the empty text
    included). *)
Fixpoint split (sep : ascii) (s : string) : list string :=
  match s with
  | EmptyString => [EmptyString]
  | String c s' =>
      if bool_decide (c = sep)
      then EmptyString :: split sep s'
      else match split sep s' with
           | part :: parts => String c part :: parts
           | [] => [String c EmptyString]
           end
  end.

End Names.

(** ** JS values *)
Module JS.
(** [!x] on a JS number or [undefined]: true for [undefined] and for 0
    ([NaN] does not arise from the integer tokens read here). *)
Definition falsy (x : option Z) : bool :=
  match x with
  | None => true
  | Some n => (n =? 0)%Z
  end.
End JS.

(** ** Source positions (vscode-languageserver-types) *)
Record Position := mkPosition { line : nat; character : nat }.
Record Range := mkRange { range_start : Position; range_end : Position }.

Record Identifier := mkIdentifier { name : string; range : Range }.

Definition DEFAULT_POSITION : Position := mkPosition 0 0.
Definition DEFAULT_RANGE : Range := mkRange DEFAULT_POSITION DEFAULT_POSITION.

(** ** Symbol.ts: the base class [UCSymbol] *)
Module Symbol.

(** The operands of the JS expression [a && b || c]: a boolean, [undefined],
    or a symbol object (always truthy). *)
Inductive JSValue (Sym : Type) :=
| JSBool (b : bool)
| JSUndefined
| JSObject (s : Sym).
Arguments JSBool {Sym} b.
Arguments JSUndefined {Sym}.
Arguments JSObject {Sym} s.

Definition truthy {Sym} (v : JSValue Sym) : bool :=
  match v with
  | JSBool b => b
  | JSUndefined => false
  | JSObject _ => true
  end.

Definition js_and {Sym} (a b : JSValue Sym) : JSValue Sym :=
  if truthy a then b else a.

Definition js_or {Sym} (a b : JSValue Sym) : JSValue Sym :=
  if truthy a then a else b.

Definition of_optional {Sym} (o : option Sym) : JSValue Sym :=
  match o with
  | Some s => JSObject s
  | None => JSUndefined
  end.

Section GetSymbolAtPos.
Context {Sym : Type}.
(** [getRange()], virtual. *)
Variable getRange : Sym -> Range.
(** helpers.intersectsWithRange. *)
Variable intersectsWithRange : Position -> Range -> bool.
(** [getContainedSymbolAtPos], virtual: the base class returns
    [undefined], subclasses look into their type references, children
    and script block. *)
Variable getContainedSymbolAtPos : Sym -> Position -> option Sym.

(** [return intersectsWithRange(position, this.getRange())
           && this.getContainedSymbolAtPos(position) || this;] *)
Definition getSymbolAtPos (this : Sym) (position : Position) : JSValue Sym :=
  js_or
    (js_and (JSBool (intersectsWithRange position (getRange this)))
            (of_optional (getContainedSymbolAtPos this position)))
    (JSObject this).

(** The base class's own [getContainedSymbolAtPos]. *)
Definition base_getContainedSymbolAtPos (_ : Sym) (_ : Position) : option Sym :=
  None.
End GetSymbolAtPos.

End Symbol.

(** ** The symbol graph

    Symbols are JS objects that point at one another ([outer], [super],
    the child list, the type references).  They live in a store and are named
    by references; a reference always denotes an object, so lookup in the
    store is total ([st !!! r]). *)
Module Symbols.

Definition Ref := nat.

(** The classes of the symbol hierarchy that the modelled code creates or
    tests with [instanceof].  [UCMethodSymbol] stands for the method classes
    (functions, events, operators, delegates), which the modelled lookups do
    not tell apart. *)
Inductive SymbolClass :=
| UCPackage
| UCClassSymbol
| UCDocumentClassSymbol
| UCScriptStructSymbol
| UCEnumSymbol
| UCStateSymbol
| UCMethodSymbol
| UCReplicationBlock
| UCDefaultPropertiesBlock
| UCPropertySymbol
| UCParamSymbol
| UCLocalSymbol
| UCConstSymbol
| UCEnumMemberSymbol
| UCObjectTypeSymbol
| UCQualifiedTypeSymbol
| UCSymbolReference
| UCScriptBlock.

(** [UCTypeKind], as far as the tree builder names it. *)
Inductive UCTypeKind :=
| KindObject | KindClass | KindStruct | KindState | KindEnum
| KindDelegate | KindPackage | KindType.

#[global] Instance SymbolClass_eq_dec : EqDecision SymbolClass.
Proof. solve_decision. Defined.

(** [x instanceof UCStructSymbol]: the classes that extend it. *)
Definition instanceof_UCStructSymbol (c : SymbolClass) : bool :=
  match c with
  | UCClassSymbol | UCDocumentClassSymbol | UCScriptStructSymbol
  | UCEnumSymbol | UCStateSymbol | UCMethodSymbol
  | UCReplicationBlock | UCDefaultPropertiesBlock => true
  | _ => false
  end.

Definition instanceof_UCMethodSymbol (c : SymbolClass) : bool :=
  bool_decide (c = UCMethodSymbol).
Definition instanceof_UCStateSymbol (c : SymbolClass) : bool :=
  bool_decide (c = UCStateSymbol).
Definition instanceof_UCEnumSymbol (c : SymbolClass) : bool :=
  bool_decide (c = UCEnumSymbol).
Definition instanceof_UCScriptStructSymbol (c : SymbolClass) : bool :=
  bool_decide (c = UCScriptStructSymbol).

(** One record for every symbol object; a field that a class does not
    declare stays at its initial value ([None], [[]]).

    [children] is the intrusive list [children -> next -> next ...] of
    [UCStructSymbol], written as the list of its nodes from the head on;
    [types] is the [Map<string, UCFieldSymbol>] of nested types in
    insertion order; [reference] is the target of a type symbol or symbol
    reference; [document] is [UCDocumentClassSymbol.document] (a document
    is named by its URI); [span] is the range a field symbol or type
    symbol is constructed with; [type] and [left] are the two parts of a
    [UCQualifiedTypeSymbol]. *)
Record UCSymbol := mkSymbol {
  id : Identifier;
  cls : SymbolClass;
  span : option Range;
  outer : option Ref;
  containingStruct : option Ref;
  description : option (list string);
  super : option Ref;
  extendsType : option Ref;
  children : list Ref;
  types : list (string * Ref);
  scriptBlock : option Ref;
  withinType : option Ref;
  dependsOnTypes : option (list Ref);
  implementsTypes : option (list Ref);
  document : option string;
  value : option Z;
  reference : option Ref;
  validTypeKind : option UCTypeKind;
  type : option Ref;
  left : option Ref;
}.

(** [new C(identifier, range)]: every optional field is [undefined]. *)
Definition new (c : SymbolClass) (i : Identifier) (r : option Range) : UCSymbol :=
  {| id := i; cls := c; span := r; outer := None; containingStruct := None;
     description := None; super := None; extendsType := None;
     children := []; types := []; scriptBlock := None; withinType := None;
     dependsOnTypes := None; implementsTypes := None; document := None;
     value := None; reference := None; validTypeKind := None; type := None;
     left := None |}.

(** Field assignments [o.f = v]. *)
Definition set_outer (v : option Ref) (s : UCSymbol) : UCSymbol :=
  {| id := id s; cls := cls s; span := span s; outer := v;
     containingStruct := containingStruct s; description := description s;
     super := super s; extendsType := extendsType s;
     children := children s; types := types s;
     scriptBlock := scriptBlock s; withinType := withinType s;
     dependsOnTypes := dependsOnTypes s;
     implementsTypes := implementsTypes s; document := document s;
     value := value s; reference := reference s;
     validTypeKind := validTypeKind s; type := type s; left := left s |}.

Definition set_containingStruct (v : option Ref) (s : UCSymbol) : UCSymbol :=
  {| id := id s; cls := cls s; span := span s; outer := outer s;
     containingStruct := v; description := description s; super := super s;
     extendsType := extendsType s; children := children s;
     types := types s; scriptBlock := scriptBlock s;
     withinType := withinType s; dependsOnTypes := dependsOnTypes s;
     implementsTypes := implementsTypes s; document := document s;
     value := value s; reference := reference s;
     validTypeKind := validTypeKind s; type := type s; left := left s |}.

Definition set_description (v : option (list string)) (s : UCSymbol) : UCSymbol :=
  {| id := id s; cls := cls s; span := span s; outer := outer s;
     containingStruct := containingStruct s; description := v;
     super := super s; extendsType := extendsType s;
     children := children s; types := types s;
     scriptBlock := scriptBlock s; withinType := withinType s;
     dependsOnTypes := dependsOnTypes s;
     implementsTypes := implementsTypes s; document := document s;
     value := value s; reference := reference s;
     validTypeKind := validTypeKind s; type := type s; left := left s |}.

Definition set_super (v : option Ref) (s : UCSymbol) : UCSymbol :=
  {| id := id s; cls := cls s; span := span s; outer := outer s;
     containingStruct := containingStruct s; description := description s;
     super := v; extendsType := extendsType s; children := children s;
     types := types s; scriptBlock := scriptBlock s;
     withinType := withinType s; dependsOnTypes := dependsOnTypes s;
     implementsTypes := implementsTypes s; document := document s;
     value := value s; reference := reference s;
     validTypeKind := validTypeKind s; type := type s; left := left s |}.

Definition set_extendsType (v : option Ref) (s : UCSymbol) : UCSymbol :=
  {| id := id s; cls := cls s; span := span s; outer := outer s;
     containingStruct := containingStruct s; description := description s;
     super := super s; extendsType := v; children := children s;
     types := types s; scriptBlock := scriptBlock s;
     withinType := withinType s; dependsOnTypes := dependsOnTypes s;
     implementsTypes := implementsTypes s; document := document s;
     value := value s; reference := reference s;
     validTypeKind := validTypeKind s; type := type s; left := left s |}.

Definition set_children (v : list Ref) (s : UCSymbol) : UCSymbol :=
  {| id := id s; cls := cls s; span := span s; outer := outer s;
     containingStruct := containingStruct s; description := description s;
     super := super s; extendsType := extendsType s; children := v;
     types := types s; scriptBlock := scriptBlock s;
     withinType := withinType s; dependsOnTypes := dependsOnTypes s;
     implementsTypes := implementsTypes s; document := document s;
     value := value s; reference := reference s;
     validTypeKind := validTypeKind s; type := type s; left := left s |}.

Definition set_types (v : list (string * Ref)) (s : UCSymbol) : UCSymbol :=
  {| id := id s; cls := cls s; span := span s; outer := outer s;
     containingStruct := containingStruct s; description := description s;
     super := super s; extendsType := extendsType s;
     children := children s; types := v; scriptBlock := scriptBlock s;
     withinType := withinType s; dependsOnTypes := dependsOnTypes s;
     implementsTypes := implementsTypes s; document := document s;
     value := value s; reference := reference s;
     validTypeKind := validTypeKind s; type := type s; left := left s |}.

Definition set_scriptBlock (v : option Ref) (s : UCSymbol) : UCSymbol :=
  {| id := id s; cls := cls s; span := span s; outer := outer s;
     containingStruct := containingStruct s; description := description s;
     super := super s; extendsType := extendsType s;
     children := children s; types := types s; scriptBlock := v;
     withinType := withinType s; dependsOnTypes := dependsOnTypes s;
     implementsTypes := implementsTypes s; document := document s;
     value := value s; reference := reference s;
     validTypeKind := validTypeKind s; type := type s; left := left s |}.

Definition set_withinType (v : option Ref) (s : UCSymbol) : UCSymbol :=
  {| id := id s; cls := cls s; span := span s; outer := outer s;
     containingStruct := containingStruct s; description := description s;
     super := super s; extendsType := extendsType s;
     children := children s; types := types s;
     scriptBlock := scriptBlock s; withinType := v;
     dependsOnTypes := dependsOnTypes s;
     implementsTypes := implementsTypes s; document := document s;
     value := value s; reference := reference s;
     validTypeKind := validTypeKind s; type := type s; left := left s |}.

Definition set_dependsOnTypes (v : option (list Ref)) (s : UCSymbol) : UCSymbol :=
  {| id := id s; cls := cls s; span := span s; outer := outer s;
     containingStruct := containingStruct s; description := description s;
     super := super s; extendsType := extendsType s;
     children := children s; types := types s;
     scriptBlock := scriptBlock s; withinType := withinType s;
     dependsOnTypes := v; implementsTypes := implementsTypes s;
     document := document s; value := value s; reference := reference s;
     validTypeKind := validTypeKind s; type := type s; left := left s |}.

Definition set_implementsTypes (v : option (list Ref)) (s : UCSymbol) : UCSymbol :=
  {| id := id s; cls := cls s; span := span s; outer := outer s;
     containingStruct := containingStruct s; description := description s;
     super := super s; extendsType := extendsType s;
     children := children s; types := types s;
     scriptBlock := scriptBlock s; withinType := withinType s;
     dependsOnTypes := dependsOnTypes s; implementsTypes := v;
     document := document s; value := value s; reference := reference s;
     validTypeKind := validTypeKind s; type := type s; left := left s |}.

Definition set_document (v : option string) (s : UCSymbol) : UCSymbol :=
  {| id := id s; cls := cls s; span := span s; outer := outer s;
     containingStruct := containingStruct s; description := description s;
     super := super s; extendsType := extendsType s;
     children := children s; types := types s;
     scriptBlock := scriptBlock s; withinType := withinType s;
     dependsOnTypes := dependsOnTypes s;
     implementsTypes := implementsTypes s; document := v; value := value s;
     reference := reference s; validTypeKind := validTypeKind s;
     type := type s; left := left s |}.

Definition set_value (v : option Z) (s : UCSymbol) : UCSymbol :=
  {| id := id s; cls := cls s; span := span s; outer := outer s;
     containingStruct := containingStruct s; description := description s;
     super := super s; extendsType := extendsType s;
     children := children s; types := types s;
     scriptBlock := scriptBlock s; withinType := withinType s;
     dependsOnTypes := dependsOnTypes s;
     implementsTypes := implementsTypes s; document := document s;
     value := v; reference := reference s;
     validTypeKind := validTypeKind s; type := type s; left := left s |}.

Definition set_reference (v : option Ref) (s : UCSymbol) : UCSymbol :=
  {| id := id s; cls := cls s; span := span s; outer := outer s;
     containingStruct := containingStruct s; description := description s;
     super := super s; extendsType := extendsType s;
     children := children s; types := types s;
     scriptBlock := scriptBlock s; withinType := withinType s;
     dependsOnTypes := dependsOnTypes s;
     implementsTypes := implementsTypes s; document := document s;
     value := value s; reference := v; validTypeKind := validTypeKind s;
     type := type s; left := left s |}.

Definition set_validTypeKind (v : option UCTypeKind) (s : UCSymbol) : UCSymbol :=
  {| id := id s; cls := cls s; span := span s; outer := outer s;
     containingStruct := containingStruct s; description := description s;
     super := super s; extendsType := extendsType s;
     children := children s; types := types s;
     scriptBlock := scriptBlock s; withinType := withinType s;
     dependsOnTypes := dependsOnTypes s;
     implementsTypes := implementsTypes s; document := document s;
     value := value s; reference := reference s; validTypeKind := v;
     type := type s; left := left s |}.

Definition set_type (v : option Ref) (s : UCSymbol) : UCSymbol :=
  {| id := id s; cls := cls s; span := span s; outer := outer s;
     containingStruct := containingStruct s; description := description s;
     super := super s; extendsType := extendsType s;
     children := children s; types := types s;
     scriptBlock := scriptBlock s; withinType := withinType s;
     dependsOnTypes := dependsOnTypes s;
     implementsTypes := implementsTypes s; document := document s;
     value := value s; reference := reference s;
     validTypeKind := validTypeKind s; type := v; left := left s |}.

Definition set_left (v : option Ref) (s : UCSymbol) : UCSymbol :=
  {| id := id s; cls := cls s; span := span s; outer := outer s;
     containingStruct := containingStruct s; description := description s;
     super := super s; extendsType := extendsType s;
     children := children s; types := types s;
     scriptBlock := scriptBlock s; withinType := withinType s;
     dependsOnTypes := dependsOnTypes s;
     implementsTypes := implementsTypes s; document := document s;
     value := value s; reference := reference s;
     validTypeKind := validTypeKind s; type := type s; left := v |}.

#[global] Instance UCSymbol_inhabited : Inhabited UCSymbol :=
  populate (new UCPropertySymbol (mkIdentifier "" DEFAULT_RANGE) None).

Abbreviation Store := (gmap Ref UCSymbol).

(** [o.field = v] on the object behind [r]. *)
Definition assign (r : Ref) (f : UCSymbol -> UCSymbol) (st : Store) : Store :=
  <[r := f (st !!! r)]> st.

(** [getName()] / [getId()]. *)
Definition getName (s : UCSymbol) : string := name (id s).
(** [getRange()].  The base class answers with the range of the
    identifier; [UCFieldSymbol], which is not in src, is constructed with
    the range of the whole declaration and is taken to answer with it. *)
Definition getRange (s : UCSymbol) : Range := default (range (id s)) (span s).

(** [Map.prototype.set]: an existing key keeps its place in the iteration
    order and takes the new value; a new key goes to the end. *)
Fixpoint map_set {V} (k : string) (v : V) (m : list (string * V)) : list (string * V) :=
  match m with
  | [] => [(k, v)]
  | (k', v') :: m' =>
      if Names.str_eq k' k then (k', v) :: m' else (k', v') :: map_set k v m'
  end.

(** [Map.prototype.values()]. *)
Definition map_values {V} (m : list (string * V)) : list V := m.*2.

(** [Map.prototype.get]: the value of the entry with this key, or
    [undefined]. *)
Fixpoint map_get {V} (k : string) (m : list (string * V)) : option V :=
  match m with
  | [] => None
  | (k', v') :: m' => if Names.str_eq k' k then Some v' else map_get k m'
  end.

End Symbols.

(** ** UCStructSymbol.ts *)
Module UCStructSymbol.
Import Symbols.

(** [addSymbol(symbol)]: the symbol becomes the head of the child list
    ([symbol.next = this.children; this.children = symbol]); structs and
    enums are also entered in the [types] map under their lower-case
    name.  An absent [types] map and an empty one behave alike in the
    modelled code, so [undefined] is the empty list. *)
Definition addSymbol (this symbol : Ref) (st : Store) : Store :=
  let st1 := assign symbol (set_outer (Some this)) st in
  let st2 := assign symbol (set_containingStruct (Some this)) st1 in
  let st3 := assign this (fun s => set_children (symbol :: children s) s) st2 in
  let c := cls (st3 !!! symbol) in
  if instanceof_UCScriptStructSymbol c || instanceof_UCEnumSymbol c
  then assign this
         (fun s => set_types
                     (map_set (Names.toLowerCase (getName (st3 !!! symbol)))
                              symbol (types s)) s)
         st3
  else st3.

(** The result of a lookup that recurses through the symbol graph: [None]
    when the recursion budget is used up (the JS call does not return on a
    cyclic [super]/[outer] chain), [Some None] for [undefined],
    [Some (Some r)] for a symbol. *)
Definition Lookup := option (option Ref).

(** [findSymbol(id)]: the first child whose lower-case name is [id]; a
    child enum that does not match by name is searched for a member. *)
Fixpoint findSymbol (fuel : nat) (st : Store) (this : Ref) (i : string) : Lookup :=
  match fuel with
  | O => None
  | S fuel' =>
      (fix loop (cs : list Ref) : Lookup :=
         match cs with
         | [] => Some None
         | child :: cs' =>
             let c := st !!! child in
             if Names.str_eq (Names.toLowerCase (getName c)) i
             then Some (Some child)
             else if instanceof_UCEnumSymbol (cls c)
             then match findSymbol fuel' st child i with
                  | None => None
                  | Some (Some symbol) => Some (Some symbol)
                  | Some None => loop cs'
                  end
             else loop cs'
         end) (children (st !!! this))
  end.

(** [findSuperSymbol(id)]. *)
Fixpoint findSuperSymbol (fuel : nat) (st : Store) (this : Ref) (i : string) : Lookup :=
  match fuel with
  | O => None
  | S fuel' =>
      let s := st !!! this in
      if Names.str_eq i (Names.toLowerCase (getName s))
      then Some (Some this)
      else
        match findSymbol fuel' st this i with
        | None => None
        | Some (Some symbol) => Some (Some symbol)
        | Some None =>
            let in_super : Lookup :=
              match super s with
              | Some sup =>
                  if negb (instanceof_UCMethodSymbol (cls s))
                  then findSuperSymbol fuel' st sup i
                  else Some None
              | None => Some None
              end in
            match in_super with
            | None => None
            | Some (Some symbol) => Some (Some symbol)
            | Some None =>
                (* Check for symbols in the outer of a function or state. *)
                if instanceof_UCMethodSymbol (cls s) || instanceof_UCStateSymbol (cls s)
                then match outer s with
                     | Some o =>
                         if instanceof_UCStructSymbol (cls (st !!! o))
                         then findSuperSymbol fuel' st o i
                         else Some None
                     | None => Some None
                     end
                else Some None
            end
        end
  end.

(** *** [findTypeSymbol] and its cache *)

(** How a call ends: with a value, with a [TypeError] (a method called on
    [undefined]), or not at all (the recursion budget is used up). *)
Inductive Completion (A : Type) :=
| Returned (a : A)
| Threw
| OutOfFuel.
Arguments Returned {A} a.
Arguments Threw {A}.
Arguments OutOfFuel {A}.

(** The private [cachedTypeResolves] map of every struct; a struct
    without an entry has the empty map it is constructed with. *)
Abbreviation Caches := (gmap Ref (gmap string Ref)).

(** [this.cachedTypeResolves.get(qualifiedId)]. *)
Definition cache_get (caches : Caches) (this : Ref) (qualifiedId : string)
    : option Ref :=
  match caches !! this with
  | Some m => m !! qualifiedId
  | None => None
  end.

(** [this.cachedTypeResolves.set(qualifiedId, symbol)]. *)
Definition cache_set (caches : Caches) (this : Ref) (qualifiedId : string)
    (symbol : Ref) : Caches :=
  <[this := <[qualifiedId := symbol]> (default ∅ (caches !! this))]> caches.

(** [findTypeSymbol(qualifiedId, deepSearch)], dispatched on the class of
    [this]: [UCMethodSymbol] (MethodSymbol.ts) redirects to its outer,
    every other struct runs [UCStructSymbol.findTypeSymbol].  [super] and
    the outer of a method are called as the structs the code declares and
    casts them to. *)
Fixpoint findTypeSymbol (fuel : nat) (st : Store) (caches : Caches) (this : Ref)
    (qualifiedId : string) (deepSearch : bool) : Completion (option Ref * Caches) :=
  match fuel with
  | O => OutOfFuel
  | S fuel' =>
      let s := st !!! this in
      if instanceof_UCMethodSymbol (cls s)
      then
        (* Redirect to outer, because Methods are never supposed to have
           any type members! *)
        match outer s with
        | Some o => findTypeSymbol fuel' st caches o qualifiedId deepSearch
        | None => Threw
        end
      else
        match cache_get caches this qualifiedId with
        | Some symbol => Returned (Some symbol, caches)
        | None =>
            if Names.str_eq qualifiedId (Names.toLowerCase (getName s))
            then Returned (Some this, caches)
            else
              match map_get qualifiedId (types s) with
              | Some symbol => Returned (Some symbol, caches)
              | None =>
                  let inherited : Completion (option Ref * Caches) :=
                    if deepSearch
                    then match super s with
                         | Some sup =>
                             findTypeSymbol fuel' st caches sup qualifiedId deepSearch
                         | None =>
                             match outer s with
                             | Some o =>
                                 if instanceof_UCStructSymbol (cls (st !!! o))
                                 then findTypeSymbol fuel' st caches o
                                        qualifiedId deepSearch
                                 else Returned (None, caches)
                             | None => Returned (None, caches)
                             end
                         end
                    else Returned (None, caches) in
                  match inherited with
                  | Returned (Some symbol, caches') =>
                      Returned (Some symbol, cache_set caches' this qualifiedId symbol)
                  | Returned (None, caches') => Returned (None, caches')
                  | Threw => Threw
                  | OutOfFuel => OutOfFuel
                  end
              end
        end
  end.

End UCStructSymbol.

(** ** Symbol.ts: the walks along the [outer] chain *)
Module OuterChain.
Import Symbols.

(** The loop of [getQualifiedName()] ([getPath()] in the later
    sources): [for (outer = this.outer; outer; outer = outer.outer)
    text = outer.getId() + '.' + text;].  [None] when the chain does not
    end within the budget. *)
Fixpoint qualify (fuel : nat) (st : Store) (outer_ : option Ref) (text : string)
    : option string :=
  match outer_ with
  | None => Some text
  | Some o =>
      match fuel with
      | O => None
      | S fuel' =>
          qualify fuel' st (outer (st !!! o)) (getName (st !!! o) ++ "." ++ text)
      end
  end.

(** [getQualifiedName()]. *)
Definition getQualifiedName (fuel : nat) (st : Store) (this : Ref) : option string :=
  qualify fuel st (outer (st !!! this)) (getName (st !!! this)).

(** The symbols from [this] outwards, [this] first. *)
Fixpoint outers (fuel : nat) (st : Store) (this : Ref) : option (list Ref) :=
  match outer (st !!! this) with
  | None => Some [this]
  | Some o =>
      match fuel with
      | O => None
      | S fuel' => (this ::.) <$> outers fuel' st o
      end
  end.

End OuterChain.


(** ** diagnostics/diagnostics.ts: the diagnostic nodes of a document *)
Module Diagnostics.
Import Symbols.

(** The text of a node.  A text that embeds the qualified name of a symbol
    is kept as the template with the symbol it is expanded from. *)
Inductive ErrorText :=
| Text (s : string)
(** ['${context.getQualifiedName()}' is an inaccessible type!] *)
| InaccessibleType (context : Ref).

Inductive DiagnosticNode :=
| SyntaxErrorNode (range : Range) (error : string)
| SemanticErrorNode (symbol : Ref) (error : ErrorText)
| UnrecognizedTypeNode (symbol : Ref)
| UnrecognizedFieldNode (symbol : Ref) (context : option Ref).

(** [getRange()]: a syntax error carries its range, the other nodes answer
    with [this.symbol.id.range]. *)
Definition getRange (st : Store) (n : DiagnosticNode) : Range :=
  match n with
  | SyntaxErrorNode r _ => r
  | SemanticErrorNode symbol _ => range (id (st !!! symbol))
  | UnrecognizedTypeNode symbol => range (id (st !!! symbol))
  | UnrecognizedFieldNode symbol _ => range (id (st !!! symbol))
  end.

Definition isUnrecognizedFieldNode (n : DiagnosticNode) : bool :=
  match n with UnrecognizedFieldNode _ _ => true | _ => false end.

Definition isSyntaxErrorNode (n : DiagnosticNode) : bool :=
  match n with SyntaxErrorNode _ _ => true | _ => false end.

End Diagnostics.

(** ** The document, as the tree builder and the passes use it *)
Module Document.
Import Symbols Diagnostics.

(** A recorded use of a symbol ([document.indexReference]). *)
Record SymbolUsage := mkUsage {
  usage_symbol : Ref;
  usage_reference : Ref;
  inAssignment : bool;
}.

Record UCDocument := mkDocument {
  fileName : string;
  classPackage : Ref;
  class : option Ref;
  nodes : list DiagnosticNode;
  symbols : list Ref;
  usages : list SymbolUsage;
}.

Definition set_class (c : option Ref) (d : UCDocument) : UCDocument :=
  {| fileName := fileName d; classPackage := classPackage d; class := c;
     nodes := nodes d; symbols := symbols d; usages := usages d |}.

(** [document.nodes.push(node)]. *)
Definition push_node (n : DiagnosticNode) (d : UCDocument) : UCDocument :=
  {| fileName := fileName d; classPackage := classPackage d; class := class d;
     nodes := nodes d ++ [n]; symbols := symbols d; usages := usages d |}.

(** Modelled from the spec: [UCDocument.addSymbol] is not in src; the
    document holds a flat symbol table for top-level declarations with an
    [addSymbol] operation. *)
Definition addSymbol (symbol : Ref) (d : UCDocument) : UCDocument :=
  {| fileName := fileName d; classPackage := classPackage d; class := class d;
     nodes := nodes d; symbols := symbols d ++ [symbol]; usages := usages d |}.

Definition push_usage (u : SymbolUsage) (d : UCDocument) : UCDocument :=
  {| fileName := fileName d; classPackage := classPackage d; class := class d;
     nodes := nodes d; symbols := symbols d; usages := usages d ++ [u] |}.

End Document.

(** ** documentASTWalker.ts: the tree builder *)
Module DocumentASTWalker.
Import Symbols Diagnostics Document.

(** What the walker reads from a parse-tree node: the ranges the helpers
    [rangeFromCtx] / [rangeFromBounds(ctx.start, ctx.stop)] compute from it
    and the comment tokens next to it in the token stream
    ([fetchSurroundingComments]). *)
Record ParserRuleContext := mkCtx {
  rangeFromCtx : Range;
  rangeFromBounds : Range;
  fetchSurroundingComments : option (list string);
}.

(** [_left] and [_right] of a qualified identifier, each with
    [idFromCtx] and [rangeFromCtx] of the part. *)
Record QualifiedIdentifierContext := mkQualified {
  q_left : Identifier * Range;
  q_right : option (Identifier * Range);
}.

(** A class modifier: the text of its identifier and the identifiers of
    its argument values, when it has arguments. *)
Record ClassModifierContext := mkModifier {
  modifier_text : string;
  modifierArguments : option (list Identifier);
}.

Record ClassDeclContext := mkClassDecl {
  class_ctx : ParserRuleContext;
  class_identifier : Identifier;
  extendsClause : option QualifiedIdentifierContext;
  withinClause : option QualifiedIdentifierContext;
  classModifier : list ClassModifierContext;
}.

Record EnumMemberContext := mkEnumMember { member_identifier : Identifier }.

Record EnumDeclContext := mkEnumDecl {
  enum_ctx : ParserRuleContext;
  enum_identifier : Identifier;
  enumMember : list EnumMemberContext;
}.

(** The walker with the heap it allocates symbols in and the process-wide
    tables it registers them in.  [scopes] is the JS array used as a stack:
    [push] appends, [pop] drops the last element, [scope()] is the last
    element. *)
Record State := mkState {
  heap : Store;
  nextRef : Ref;
  scopes : list Ref;
  document : UCDocument;
  ObjectsTable : gmap string Ref;
  EnumMembers : gmap string Ref;
}.

Definition upd_heap (f : Store -> Store) (w : State) : State :=
  {| heap := f (heap w); nextRef := nextRef w; scopes := scopes w;
     document := document w; ObjectsTable := ObjectsTable w;
     EnumMembers := EnumMembers w |}.

Definition set_scopes (v : list Ref) (w : State) : State :=
  {| heap := heap w; nextRef := nextRef w; scopes := v;
     document := document w; ObjectsTable := ObjectsTable w;
     EnumMembers := EnumMembers w |}.

Definition upd_document (f : UCDocument -> UCDocument) (w : State) : State :=
  {| heap := heap w; nextRef := nextRef w; scopes := scopes w;
     document := f (document w); ObjectsTable := ObjectsTable w;
     EnumMembers := EnumMembers w |}.

Definition set_ObjectsTable (v : gmap string Ref) (w : State) : State :=
  {| heap := heap w; nextRef := nextRef w; scopes := scopes w;
     document := document w; ObjectsTable := v;
     EnumMembers := EnumMembers w |}.

Definition set_EnumMembers (v : gmap string Ref) (w : State) : State :=
  {| heap := heap w; nextRef := nextRef w; scopes := scopes w;
     document := document w; ObjectsTable := ObjectsTable w;
     EnumMembers := v |}.

(** [new C(...)]: the object gets the next free reference. *)
Definition alloc (o : UCSymbol) (w : State) : Ref * State :=
  (nextRef w,
   {| heap := <[nextRef w := o]> (heap w); nextRef := S (nextRef w);
      scopes := scopes w; document := document w;
      ObjectsTable := ObjectsTable w; EnumMembers := EnumMembers w |}).

Definition push (newContext : Ref) (w : State) : State :=
  set_scopes (scopes w ++ [newContext]) w.

Definition pop (w : State) : State :=
  set_scopes (removelast (scopes w)) w.

(** [this.scopes[this.scopes.length - 1]], [undefined] on an empty stack. *)
Definition scope (w : State) : option Ref := last (scopes w).

(** Modelled from the spec: [ObjectsTable.addSymbol] is not in src; a
    symbol is registered under its case-insensitive name and the last
    writer for a key wins. *)
Definition ObjectsTable_addSymbol (symbol : Ref) (w : State) : State :=
  set_ObjectsTable
    (<[Names.toLowerCase (getName (heap w !!! symbol)) := symbol]> (ObjectsTable w)) w.

(** Modelled from the spec: [indexer.setEnumMember] is not in src; it
    enters an enum member in the global enum-member table under its
    case-insensitive name. *)
Definition setEnumMember (symbol : Ref) (w : State) : State :=
  set_EnumMembers
    (<[Names.toLowerCase (getName (heap w !!! symbol)) := symbol]> (EnumMembers w)) w.

(** *** [visitFunctionDecl]: the specifiers of a function declaration

    The part of [visitFunctionDecl] that reads the specifier keywords and
    creates the method symbol; declaring it and building its parameters
    and body follow. *)
Inductive SpecifierToken :=
| KW_NATIVE | KW_CONST | KW_PROTECTED | KW_PRIVATE
| KW_FUNCTION | KW_OPERATOR | KW_PREOPERATOR | KW_POSTOPERATOR
| KW_DELEGATE | KW_EVENT | KW_STATIC | KW_FINAL
| KW_OTHER.

(** A specifier node: the type of its first token and, when the node has
    an [_operatorPrecedence] token, [Number(text)] of it. *)
Record FunctionSpecifierContext := mkSpecifier {
  specifier_type : SpecifierToken;
  operatorPrecedence : option Z;
}.

(** The flags of [FieldModifiers] and [MethodSpecifiers]; a flag set is
    the list of the flags that were or-ed into it. *)
Inductive FieldModifier := Native | Const | Protected | Private.
Inductive MethodSpecifier :=
| Function | Operator | PreOperator | PostOperator | Delegate | Event
| Static | Final.

#[global] Instance MethodSpecifier_eq_dec : EqDecision MethodSpecifier.
Proof. solve_decision. Defined.

(** [(specifiers & flag) !== 0]. *)
Definition has (flag : MethodSpecifier) (specifiers : list MethodSpecifier) : bool :=
  bool_decide (flag ∈ specifiers).

(** Modelled from the spec: [MethodSpecifiers.HasKind] is not in src; the
    kind flags are function, operator, preoperator, postoperator, delegate
    and event. *)
Definition HasKind : list MethodSpecifier :=
  [Function; Operator; PreOperator; PostOperator; Delegate; Event].

(** The classes a function declaration is built as. *)
Inductive MethodClass :=
| MethodSymbol | EventSymbol | BinaryOperatorSymbol | PreOperatorSymbol
| PostOperatorSymbol | DelegateSymbol.

Record FunctionSpecifiers := mkSpecifiers {
  modifiers : list FieldModifier;
  specifiers : list MethodSpecifier;
  parsed_precedence : option Z;
}.

(** One round of the [switch (specifier.start.type)] loop. *)
Definition functionSpecifier (acc : FunctionSpecifiers)
    (specifier : FunctionSpecifierContext) : FunctionSpecifiers :=
  let m f := mkSpecifiers (modifiers acc ++ [f]) (specifiers acc) (parsed_precedence acc) in
  let s f := mkSpecifiers (modifiers acc) (specifiers acc ++ [f]) (parsed_precedence acc) in
  match specifier_type specifier with
  | KW_NATIVE => m Native
  | KW_CONST => m Const
  | KW_PROTECTED => m Protected
  | KW_PRIVATE => m Private
  | KW_FUNCTION => s Function
  | KW_OPERATOR =>
      mkSpecifiers (modifiers acc) (specifiers acc ++ [Operator])
        match operatorPrecedence specifier with
        | Some n => Some n
        | None => parsed_precedence acc
        end
  | KW_PREOPERATOR => s PreOperator
  | KW_POSTOPERATOR => s PostOperator
  | KW_DELEGATE => s Delegate
  | KW_EVENT => s Event
  | KW_STATIC => s Static
  | KW_FINAL => s Final
  | KW_OTHER => acc
  end.

(** The method symbol as [visitFunctionDecl] has it before it is declared:
    its class, [specifiers], [modifiers] and, for an operator,
    [precedence]. *)
Record FunctionSymbol := mkFunction {
  method_class : MethodClass;
  method_specifiers : list MethodSpecifier;
  method_modifiers : list FieldModifier;
  precedence : option Z;
}.

(** The symbol and whether the "Method must be declared as either one of
    the following ..." syntax error is pushed on [document.nodes]. *)
Definition functionDeclSymbol (specifierNodes : list FunctionSpecifierContext)
    : FunctionSymbol * bool :=
  let parsed := foldl functionSpecifier (mkSpecifiers [] [] None) specifierNodes in
  let specifiers_ := specifiers parsed in
  let type_ :=
    if has Function specifiers_ then MethodSymbol
    else if has Event specifiers_ then EventSymbol
    else if has Operator specifiers_ then BinaryOperatorSymbol
    else if has PreOperator specifiers_ then PreOperatorSymbol
    else if has PostOperator specifiers_ then PostOperatorSymbol
    else if has Delegate specifiers_ then DelegateSymbol
    else MethodSymbol in
  let noKind := forallb (fun f => negb (has f specifiers_)) HasKind in
  ({| method_class := type_;
      method_specifiers := specifiers_;
      method_modifiers := modifiers parsed;
      (* if (precedence) { symbol.precedence = precedence; } *)
      precedence := if JS.falsy (parsed_precedence parsed) then None
                    else parsed_precedence parsed |},
   noKind).

Section Walker.
(** [UCPackage.addSymbol], the container at the bottom of the scope
    stack; the class is not in src. *)
Variable UCPackage_addSymbol : Ref -> Ref -> Store -> Store.

(** [scope.addSymbol(symbol)] through the [ISymbolContainer] interface. *)
Definition container_addSymbol (scope symbol : Ref) (st : Store) : Store :=
  if instanceof_UCStructSymbol (cls (st !!! scope))
  then UCStructSymbol.addSymbol scope symbol st
  else UCPackage_addSymbol scope symbol st.

(** [declare(symbol, ctx?)]; [None] is the [TypeError] of calling
    [addSymbol] on an [undefined] scope. *)
Definition declare (symbol : Ref) (ctx : option ParserRuleContext)
    (w : State) : option State :=
  scope_ ← scope w;
  let w1 := upd_heap (container_addSymbol scope_ symbol) w in
  Some match ctx with
       | Some c =>
           upd_heap (assign symbol (set_description (fetchSurroundingComments c))) w1
       | None => w1
       end.

(** [new UCObjectTypeSymbol(id, range, kind)]. *)
Definition new_UCObjectTypeSymbol (i : Identifier) (r : option Range)
    (kind : option UCTypeKind) : UCSymbol :=
  set_validTypeKind kind (new UCObjectTypeSymbol i r).

(** [new UCQualifiedTypeSymbol(type, left)]; the symbol takes the
    identifier of [type]. *)
Definition new_UCQualifiedTypeSymbol (st : Store) (type_ : Ref)
    (left_ : option Ref) : UCSymbol :=
  set_left left_
    (set_type (Some type_)
       (new UCQualifiedTypeSymbol (id (st !!! type_)) None)).

(** [createQualifiedType(ctx, kind)]. *)
Definition createQualifiedType (ctx : QualifiedIdentifierContext)
    (kind : option UCTypeKind) (w : State) : Ref * State :=
  let '(leftId, leftRange) := q_left ctx in
  let '(leftType, w1) := alloc (new_UCObjectTypeSymbol leftId (Some leftRange) kind) w in
  match q_right ctx with
  | Some (rightId, rightRange) =>
      let '(rightType, w2) :=
        alloc (new_UCObjectTypeSymbol rightId (Some rightRange) None) w1 in
      let '(inner, w3) :=
        alloc (new_UCQualifiedTypeSymbol (heap w2) leftType None) w2 in
      let '(symbol, w4) :=
        alloc (new_UCQualifiedTypeSymbol (heap w3) rightType (Some inner)) w3 in
      let setValidTypeKind r k :=
        upd_heap (assign r (set_validTypeKind (Some k))) in
      let w5 :=
        match kind with
        | Some KindStruct => setValidTypeKind leftType KindClass w4
        | Some KindState => setValidTypeKind leftType KindClass w4
        | Some KindDelegate =>
            setValidTypeKind rightType KindDelegate
              (setValidTypeKind leftType KindClass w4)
        | Some KindClass => setValidTypeKind leftType KindPackage w4
        | _ => setValidTypeKind leftType KindClass w4
        end in
      (symbol, w5)
  | None => (leftType, w1)
  end.

(** One [new UCObjectTypeSymbol(identifier, undefined, UCTypeKind.Class)]
    per modifier value, pushed on the list. *)
Fixpoint modifierValues (values : list Identifier) (acc : list Ref)
    (w : State) : list Ref * State :=
  match values with
  | [] => (acc, w)
  | identifier :: values' =>
      let '(typeSymbol, w1) :=
        alloc (new_UCObjectTypeSymbol identifier None (Some KindClass)) w in
      modifierValues values' (acc ++ [typeSymbol]) w1
  end.

(** The loop over [ctx.classModifier()]. *)
Fixpoint classModifiers (symbol : Ref) (ms : list ClassModifierContext)
    (w : State) : State :=
  match ms with
  | [] => w
  | m :: ms' =>
      let w1 :=
        if Names.str_eq (Names.toLowerCase (modifier_text m)) "dependson"
        then match modifierArguments m with
             | Some values =>
                 let '(l, w') :=
                   modifierValues values
                     (default [] (dependsOnTypes (heap w !!! symbol))) w in
                 upd_heap (assign symbol (set_dependsOnTypes (Some l))) w'
             | None => w
             end
        else if Names.str_eq (Names.toLowerCase (modifier_text m)) "implements"
        then match modifierArguments m with
             | Some values =>
                 let '(l, w') :=
                   modifierValues values
                     (default [] (implementsTypes (heap w !!! symbol))) w in
                 upd_heap (assign symbol (set_implementsTypes (Some l))) w'
             | None => w
             end
        else w in
      classModifiers symbol ms' w1
  end.

(** [visitClassDecl(ctx)].  The outer [option] is [None] when the call
    throws; the result is the declared symbol or [undefined]. *)
Definition visitClassDecl (ctx : ClassDeclContext) (w : State)
    : option (option Ref * State) :=
  match class (document w) with
  | Some _ =>
      Some (None,
            upd_document
              (push_node (SyntaxErrorNode (rangeFromCtx (class_ctx ctx))
                            "Cannot declare a class within another class!")) w)
  | None =>
      let identifier := class_identifier ctx in
      let '(symbol, w1) :=
        alloc (new UCDocumentClassSymbol identifier
                   (Some (rangeFromBounds (class_ctx ctx)))) w in
      let w2 :=
        upd_heap (assign symbol
                    (Symbols.set_document (Some (fileName (document w1))))) w1 in
      (* Important!, must be assigned before further parsing. *)
      let w3 := upd_document (set_class (Some symbol)) w2 in
      let w4 := upd_document (Document.addSymbol symbol) w3 in
      let w5 :=
        match extendsClause ctx with
        | Some extendsNode =>
            let '(t, w') := createQualifiedType extendsNode (Some KindClass) w4 in
            upd_heap (assign symbol (set_extendsType (Some t))) w'
        | None => w4
        end in
      let w6 :=
        match withinClause ctx with
        | Some withinNode =>
            let '(t, w') := createQualifiedType withinNode (Some KindClass) w5 in
            upd_heap (assign symbol (set_withinType (Some t))) w'
        | None => w5
        end in
      let w7 := classModifiers symbol (classModifier ctx) w6 in
      w8 ← declare symbol (Some (class_ctx ctx)) w7;
      Some (Some symbol, push symbol w8)
  end.

(** [visitEnumMember(ctx)]. *)
Definition visitEnumMember (ctx : EnumMemberContext) (w : State)
    : option (Ref * State) :=
  let identifier := member_identifier ctx in
  let '(symbol, w1) := alloc (new UCEnumMemberSymbol identifier None) w in
  w2 ← declare symbol None w1;
  Some (symbol, setEnumMember symbol w2).

(** The loop over [ctx.enumMember()] with its counter. *)
Fixpoint enumMembers_loop (symbol : Ref) (memberNodes : list EnumMemberContext)
    (count : Z) (w : State) : option (Z * State) :=
  match memberNodes with
  | [] => Some (count, w)
  | memberNode :: rest =>
      '(memberSymbol, w1) ← visitEnumMember memberNode w;
      (* HACK: overwrite define() outer let. *)
      let w2 := upd_heap (assign memberSymbol (set_outer (Some symbol))) w1 in
      let w3 := upd_heap (assign memberSymbol (set_value (Some count))) w2 in
      enumMembers_loop symbol rest (count + 1)%Z w3
  end.

(** [visitEnumDecl(ctx)]. *)
Definition visitEnumDecl (ctx : EnumDeclContext) (w : State)
    : option (Ref * State) :=
  let identifier := enum_identifier ctx in
  let '(symbol, w1) :=
    alloc (new UCEnumSymbol identifier (Some (rangeFromBounds (enum_ctx ctx)))) w in
  w2 ← declare symbol (Some (enum_ctx ctx)) w1;
  let w3 := ObjectsTable_addSymbol symbol w2 in
  let w4 := push symbol w3 in
  '(count, w5) ← enumMembers_loop symbol (enumMember ctx) 0%Z w4;
  (* Insert the compiler-generated enum member "EnumCount". *)
  let '(enumCountMember, w6) :=
    alloc (new UCEnumMemberSymbol
               (mkIdentifier Names.NAME_ENUMCOUNT
                             (Symbols.getRange (heap w5 !!! symbol))) None) w5 in
  w7 ← declare enumCountMember None w6;
  let w8 := upd_heap (assign enumCountMember (set_outer (Some symbol))) w7 in
  let w9 := upd_heap (assign enumCountMember (set_value (Some count))) w8 in
  Some (symbol, pop w9).

End Walker.

(** Two walker states with the same document and the same scope stack. *)
Definition same_frame (w w' : State) : Prop :=
  document w' = document w /\ scopes w' = scopes w.

(** *** Object literals: [typeFromIds] and [visitObjectLiteral] *)

(** The local function [get(i)] of [typeFromIds], on [identifiers[i]]
    and the identifiers before it, the nearest first:
    [const type = new UCObjectTypeSymbol(identifiers[i]);
     if (i === 0) type.setValidTypeKind(UCTypeKind.Object);
     const leftType = i - 1 > -1 ? get(--i) : undefined;
     return new UCQualifiedTypeSymbol(type, leftType);] *)
Fixpoint typeFromIds_get (identifier : Identifier) (before : list Identifier)
    (w : State) : Ref * State :=
  let '(type_, w1) := alloc (new_UCObjectTypeSymbol identifier None None) w in
  match before with
  | [] =>
      let w2 := upd_heap (assign type_ (set_validTypeKind (Some KindObject))) w1 in
      alloc (new_UCQualifiedTypeSymbol (heap w2) type_ None) w2
  | previous :: before' =>
      let '(leftType, w3) := typeFromIds_get previous before' w1 in
      alloc (new_UCQualifiedTypeSymbol (heap w3) type_ (Some leftType)) w3
  end.

(** [typeFromIds(identifiers)]. *)
Definition typeFromIds (identifiers : list Identifier) (w : State)
    : option Ref * State :=
  match identifiers with
  | [] => (None, w)
  | [identifier] =>
      let '(type_, w1) :=
        alloc (new_UCObjectTypeSymbol identifier None (Some KindObject)) w in
      (Some type_, w1)
  | _ :: _ :: _ =>
      match rev identifiers with
      | last_ :: before =>
          let '(type_, w1) := typeFromIds_get last_ before w in (Some type_, w1)
      | [] => (None, w)
      end
  end.

(** What [visitObjectLiteral] reads from its node: the identifier of the
    class ([idFromCtx(ctx.identifier())]), and of the [NAME] token the
    text, the line (ANTLR counts lines from 1) and the column. *)
Record ObjectLiteralContext := mkObjectLiteralCtx {
  literal_ctx : ParserRuleContext;
  literal_class : Identifier;
  NAME_text : string;
  NAME_line : nat;
  NAME_charPositionInLine : nat;
}.

(** The loop over [ids]: an identifier per part, each part one column
    after the dot that ends the part before. *)
Fixpoint objectIdentifiers (startLine startChar : nat) (ids : list string)
    : list Identifier :=
  match ids with
  | [] => []
  | i :: ids' =>
      mkIdentifier i (mkRange (mkPosition startLine startChar)
                              (mkPosition startLine (startChar + String.length i)))
      :: objectIdentifiers startLine (startChar + String.length i + 1) ids'
  end.

Record UCObjectLiteral := mkObjectLiteral {
  literal_range : Range;
  castRef : Ref;
  objectRef : option Ref;
}.

(** [visitObjectLiteral(ctx)]. *)
Definition visitObjectLiteral (ctx : ObjectLiteralContext) (w : State)
    : UCObjectLiteral * State :=
  let '(castRef_, w1) := alloc (new UCSymbolReference (literal_class ctx) None) w in
  let str := Names.strip_quotes_and_space (NAME_text ctx) in
  let ids := Names.split "."%char str in
  let startLine := (NAME_line ctx - 1)%nat in
  let startChar := (NAME_charPositionInLine ctx + 1)%nat in
  let identifiers := objectIdentifiers startLine startChar ids in
  let '(type_, w2) := typeFromIds identifiers w1 in
  (mkObjectLiteral (rangeFromBounds (literal_ctx ctx)) castRef_ type_, w2).

End DocumentASTWalker.

(** ** The keywords of a function declaration, as a set *)
Module Keywords.
Import DocumentASTWalker.

#[global] Instance SpecifierToken_eq_dec : EqDecision SpecifierToken.
Proof. solve_decision. Defined.

(** The keyword that sets a flag of [MethodSpecifiers]. *)
Definition keyword (flag : MethodSpecifier) : SpecifierToken :=
  match flag with
  | Function => KW_FUNCTION
  | Operator => KW_OPERATOR
  | PreOperator => KW_PREOPERATOR
  | PostOperator => KW_POSTOPERATOR
  | Delegate => KW_DELEGATE
  | Event => KW_EVENT
  | Static => KW_STATIC
  | Final => KW_FINAL
  end.

(** The keyword [kw] is the first token of one of the specifiers. *)
Definition occurs (kw : SpecifierToken) (nodes : list FunctionSpecifierContext)
    : bool :=
  bool_decide (kw ∈ specifier_type <$> nodes).

(** The class that the keywords of a declaration stand for; a keyword
    earlier in this list wins over a later one. *)
Definition class_by_keywords (nodes : list FunctionSpecifierContext) : MethodClass :=
  if occurs KW_FUNCTION nodes then MethodSymbol
  else if occurs KW_EVENT nodes then EventSymbol
  else if occurs KW_OPERATOR nodes then BinaryOperatorSymbol
  else if occurs KW_PREOPERATOR nodes then PreOperatorSymbol
  else if occurs KW_POSTOPERATOR nodes then PostOperatorSymbol
  else if occurs KW_DELEGATE nodes then DelegateSymbol
  else MethodSymbol.

(** No keyword of the declaration names a kind of method. *)
Definition names_no_kind (nodes : list FunctionSpecifierContext) : bool :=
  forallb (fun flag => negb (occurs (keyword flag) nodes)) HasKind.

End Keywords.

(** ** expressions.ts: [UCMemberExpression] *)
Module Expressions.
Import Symbols Diagnostics Document.

(** The process-wide lookup tables that [index] consults.

    Modelled from the spec: [TypeCastMap], [ClassesTable], [ObjectsTable]
    and [indexer.getEnumMember] are not in src; each is a table from a
    case-insensitive name to a symbol (built-in type-cast names, the
    global Classes table, the global Objects table, the global
    enum-member table). *)
Record Tables := mkTables {
  TypeCastMap : gmap string Ref;
  ClassesTable : gmap string Ref;
  ObjectsTable : gmap string Ref;
  EnumMembers : gmap string Ref;
}.

Definition getEnumMember (t : Tables) (i : string) : option Ref :=
  EnumMembers t !! i.

(** Where the expression sits in its parents, as [index] asks it:
    [this.outer instanceof C], [this.outer.left === this], ... *)
Record OuterShape := mkShape {
  outer_is_UCCallExpression : bool;
  outer_is_UCAssignmentExpression : bool;
  outer_left_is_this : bool;
  outer_is_UCPropertyAccessExpression : bool;
  outer_member_is_this : bool;
  outer_outer_is_UCAssignmentExpression : bool;
  outer_outer_left_is_outer : bool;
}.

Record UCMemberExpression := mkMember {
  symbolRef : Ref;
  shape : OuterShape;
}.

(** [getId()]: the name of the reference; names compare without case, so
    the lower-case text stands for the interned name. *)
Definition getId (st : Store) (e : UCMemberExpression) : string :=
  Names.toLowerCase (getName (st !!! symbolRef e)).

(** [getMemberSymbol()]: [this.symbolRef.getReference()]. *)
Definition getMemberSymbol (st : Store) (e : UCMemberExpression) : option Ref :=
  reference (st !!! symbolRef e).

(** Modelled from the spec: [UCSymbolReference.setReference] is not in
    src; it stores the target on the reference, and unless [noIndex] is
    passed it records the use in the document and hands the record back. *)
Definition setReference (symbolRef_ symbol : Ref) (noIndex : bool)
    (st : Store) : Store * bool :=
  (assign symbolRef_ (set_reference (Some symbol)) st, negb noIndex).

(** The value assigned to [ref.inAssignment]. *)
Definition assignmentTarget (p : OuterShape) : bool :=
  (outer_is_UCAssignmentExpression p && outer_left_is_this p)
  || (outer_is_UCPropertyAccessExpression p
      && outer_member_is_this p
      && outer_outer_is_UCAssignmentExpression p
      && outer_outer_left_is_outer p).

(** [a || b] on two optional objects. *)
Definition or_else {A} (a b : option A) : option A :=
  match a with
  | Some x => Some x
  | None => b
  end.

(** [index(document, context: UCStructSymbol)], for a context that is a
    struct as the signature has it.  [None] when [findSuperSymbol] does
    not return.  A caller that passes [undefined], or a symbol that is no
    struct, gets the [TypeError] of [context.findSuperSymbol]: that is
    [ExpressionTree.index_member]. *)
Definition index (fuel : nat) (t : Tables) (e : UCMemberExpression)
    (context : Ref) (s : Store * UCDocument) : option (Store * UCDocument) :=
  let '(st, doc) := s in
  let i := getId st e in
  let hasArguments := outer_is_UCCallExpression (shape e) in
  (* [inl]: the method has returned; [inr]: it goes on with this store. *)
  let first : (Store * UCDocument) + Store :=
    if hasArguments then
      (* We must match a predefined type over any class or scope symbol! *)
      match TypeCastMap t !! i with
      | Some type_ => inr (setReference (symbolRef e) type_ true st).1
      | None =>
          match or_else (ClassesTable t !! i) (ObjectsTable t !! i) with
          | Some type_ =>
              let '(st', ref) := setReference (symbolRef e) type_ false st in
              inl (st', if ref
                        then push_usage (mkUsage type_ (symbolRef e) false) doc
                        else doc)
          | None => inr st
          end
      end
    else inr st in
  match first with
  | inl r => Some r
  | inr st1 =>
      found ← UCStructSymbol.findSuperSymbol fuel st1 context i;
      match or_else found (getEnumMember t i) with
      | Some symbol =>
          let '(st2, ref) := setReference (symbolRef e) symbol false st1 in
          Some (st2,
                if ref
                then push_usage (mkUsage symbol (symbolRef e)
                                         (assignmentTarget (shape e))) doc
                else doc)
      | None => Some (st1, doc)
      end
  end.

(** [analyze(document, context?)]. *)
Definition analyze (e : UCMemberExpression) (context : option Ref)
    (s : Store * UCDocument) : Store * UCDocument :=
  let '(st, doc) := s in
  let otherwise :=
    if negb (bool_decide (is_Some (getMemberSymbol st e)))
    then (st, push_node (UnrecognizedFieldNode (symbolRef e) context) doc)
    else (st, doc) in
  match context with
  | Some c =>
      if negb (instanceof_UCStructSymbol (cls (st !!! c)))
      then (st, push_node (SemanticErrorNode (symbolRef e) (InaccessibleType c)) doc)
      else otherwise
  | None => otherwise
  end.

End Expressions.

(** ** expressions.ts: operators and expression trees *)
Module ExpressionTree.
Import Symbols UCStructSymbol Diagnostics Document Expressions.

(** *** [findOperatorSymbol], [findPreOperatorSymbol],
    [findPostOperatorSymbol]

    The three functions differ in the test they make on a method of the
    right name ([isOperator()], [isPreOperator()], [isPostOperator()]);
    [test] is that test.  Names are interned and compare without case: the
    lower-case text stands for the name, as in [getId]. *)
Section Operators.
Variable test : Store -> Ref -> bool.

(** [let scope = context instanceof UCMethodSymbol ? context.outer : context;
     if (scope instanceof UCStateSymbol) scope = scope.outer;] *)
Definition operatorScope (st : Store) (context : option Ref) : option Ref :=
  let scope :=
    match context with
    | Some c =>
        if instanceof_UCMethodSymbol (cls (st !!! c)) then outer (st !!! c)
        else Some c
    | None => None
    end in
  match scope with
  | Some s =>
      if instanceof_UCStateSymbol (cls (st !!! s)) then outer (st !!! s)
      else Some s
  | None => None
  end.

(** [child.getId() === id] and
    [child instanceof UCMethodSymbol && child.isOperator()]. *)
Definition is_operator_named (st : Store) (i : string) (child : Ref) : bool :=
  Names.str_eq (Names.toLowerCase (getName (st !!! child))) i
  && (instanceof_UCMethodSymbol (cls (st !!! child)) && test st child).

(** [for (; scope instanceof UCStructSymbol; scope = scope.super)] with
    the loop over the children of [scope] inside; a round of the outer
    loop takes one unit of the budget. *)
Fixpoint findInSupers (fuel : nat) (st : Store) (scope : option Ref) (i : string)
    : Lookup :=
  match fuel with
  | O => None
  | S fuel' =>
      match scope with
      | Some s =>
          if instanceof_UCStructSymbol (cls (st !!! s))
          then match List.find (is_operator_named st i) (children (st !!! s)) with
               | Some child => Some (Some child)
               | None => findInSupers fuel' st (super (st !!! s)) i
               end
          else Some None
      | None => Some None
      end
  end.

Definition findOperatorLike (fuel : nat) (st : Store) (i : string)
    (context : option Ref) : Lookup :=
  findInSupers fuel st (operatorScope st context) i.

End Operators.

(** The structs that the loop of [findInSupers] goes through. *)
Fixpoint supers (fuel : nat) (st : Store) (scope : option Ref) : option (list Ref) :=
  match fuel with
  | O => None
  | S fuel' =>
      match scope with
      | Some s =>
          if instanceof_UCStructSymbol (cls (st !!! s))
          then (s ::.) <$> supers fuel' st (super (st !!! s))
          else Some []
      | None => Some []
      end
  end.

(** *** Expression trees

    The expression classes whose methods call only what is in src (and
    the tables and [setReference] of [UCMemberExpression.index]).  A part
    that is [undefined] is [None]; [operator] is the [UCSymbolReference]
    of an operator expression. *)
Inductive LiteralClass :=
| UCNoneLiteral | UCStringLiteral | UCNameLiteral | UCBoolLiteral
| UCFloatLiteral | UCIntLiteral | UCByteLiteral.

#[local] Unset Elimination Schemes.
Inductive IExpression :=
(** also [UCArrayCountExpression] *)
| UCParenthesizedExpression (range_ : Range) (expression : option IExpression)
(** also [UCNewExpression] *)
| UCCallExpression (range_ : Range) (expression : option IExpression)
    (arguments : option (list (option IExpression)))
| UCElementAccessExpression (range_ : Range)
    (expression argument : option IExpression)
| UCPropertyAccessExpression (range_ : Range) (left_ : option IExpression)
    (member : option UCMemberExpression)
| UCConditionalExpression (range_ : Range)
    (condition true_ false_ : option IExpression)
| UCPostOperatorExpression (range_ : Range) (expression : option IExpression)
    (operator : option Ref)
| UCPreOperatorExpression (range_ : Range) (expression : option IExpression)
    (operator : option Ref)
| UCBinaryOperatorExpression (range_ : Range) (left_ : option IExpression)
    (operator : option Ref) (right_ : option IExpression)
(** [UCMemberExpression] itself *)
| UCMember (e : UCMemberExpression)
| UCPredefinedAccessExpression (e : UCMemberExpression)
| UCPredefinedPropertyAccessExpression (e : UCMemberExpression)
| UCLiteral (class_ : LiteralClass) (range_ : Range)
| UCDefaultStructLiteral (range_ : Range)
    (arguments : option (list (option IExpression))).
#[local] Set Elimination Schemes.

(** A property of the parts of an expression: of a part that is there,
    and of every argument that is there. *)
Definition for_part (P : IExpression -> Prop) (part : option IExpression) : Prop :=
  match part with
  | Some x => P x
  | None => True
  end.

Definition for_arguments (P : IExpression -> Prop)
    (arguments : option (list (option IExpression))) : Prop :=
  match arguments with
  | Some args => Forall (for_part P) args
  | None => True
  end.

(** Modelled from the spec: the classes of property symbols are not in
    src (but for [UCParamSymbol extends UCPropertySymbol]); a property, a
    parameter and a local are the property symbols. *)
Definition instanceof_UCPropertySymbol (c : SymbolClass) : bool :=
  match c with
  | UCPropertySymbol | UCParamSymbol | UCLocalSymbol => true
  | _ => false
  end.

Definition instanceof_UCObjectTypeSymbol (c : SymbolClass) : bool :=
  bool_decide (c = UCObjectTypeSymbol).

(** [UCDocumentClassSymbol extends UCClassSymbol]. *)
Definition instanceof_UCClassSymbol (c : SymbolClass) : bool :=
  match c with
  | UCClassSymbol | UCDocumentClassSymbol => true
  | _ => false
  end.

(** How the steps of a method follow one another: a step that throws or
    does not return ends the method. *)
Definition andThen {A B} (c : Completion A) (f : A -> Completion B) : Completion B :=
  match c with
  | Returned a => f a
  | Threw => Threw
  | OutOfFuel => OutOfFuel
  end.

(** [a || b] on the results of two [getMemberSymbol()] calls, the second
    made only if the first gives [undefined]. *)
Definition orElse (a : Completion (option Ref)) (b : Completion (option Ref))
    : Completion (option Ref) :=
  match a with
  | Returned None => b
  | other => other
  end.

(** [if (part) part.m(document, context);] for a method [m] that works
    on the store and the document. *)
Definition on_part {S} (m : IExpression -> S -> Completion S)
    (part : option IExpression) (s : S) : Completion S :=
  match part with
  | Some x => m x s
  | None => Returned s
  end.

(** [if (this.arguments) for (const arg of this.arguments)
       arg && arg.m(document, context);] *)
Definition on_arguments {S} (m : IExpression -> S -> Completion S)
    (arguments : option (list (option IExpression))) (s : S) : Completion S :=
  match arguments with
  | Some args =>
      (fix loop (l : list (option IExpression)) (acc : S) : Completion S :=
         match l with
         | [] => Returned acc
         | arg :: l' => andThen (on_part m arg acc) (loop l')
         end) args s
  | None => Returned s
  end.

Section Tree.
(** [isOperator()], [isPreOperator()] and [isPostOperator()] of a method;
    the class file of these sources is not in src. *)
Variable isOperator isPreOperator isPostOperator : Store -> Ref -> bool.
Variable t : Tables.
(** The fields [baseType] of a type symbol and [returnType] of a method,
    and the predefined symbol [NativeArray]. *)
Variable baseType returnType : Ref -> option Ref.
Variable NativeArray : Ref.

(** [type.getReference()]. *)
Definition getReference (st : Store) (type_ : Ref) : option Ref :=
  reference (st !!! type_).

(** [(type instanceof UCObjectTypeSymbol && type.baseType)
       ? type.baseType.getReference() : type.getReference()] *)
Definition baseOrOwnReference (st : Store) (type_ : Ref) : option Ref :=
  match baseType type_ with
  | Some base =>
      if instanceof_UCObjectTypeSymbol (cls (st !!! type_))
      then getReference st base
      else getReference st type_
  | None => getReference st type_
  end.

(** The second half of [UCElementAccessExpression.getMemberSymbol]: the
    defined type of a property or method, the symbol itself otherwise. *)
Definition elementType (st : Store) (symbol : Ref) : option Ref :=
  if instanceof_UCPropertySymbol (cls (st !!! symbol))
  then match type (st !!! symbol) with
       | Some type_ => baseOrOwnReference st type_
       | None => None
       end
  else if instanceof_UCMethodSymbol (cls (st !!! symbol))
  then match returnType symbol with
       | Some type_ => baseOrOwnReference st type_
       | None => None
       end
  else Some symbol.

(** The second half of [UCPropertyAccessExpression.getContextType]. *)
Definition contextType (st : Store) (symbol : Ref) : option Ref :=
  if instanceof_UCPropertySymbol (cls (st !!! symbol))
  then match type (st !!! symbol) with
       | Some type_ =>
           if negb (bool_decide (getReference st type_ = Some NativeArray))
           then baseOrOwnReference st type_
           else getReference st type_
       | None => None
       end
  else if instanceof_UCMethodSymbol (cls (st !!! symbol))
  then match returnType symbol with
       | Some type_ => baseOrOwnReference st type_
       | None => None
       end
  else Some symbol.

(** [getMemberSymbol()]. *)
Fixpoint getMemberSymbol (st : Store) (e : IExpression) : Completion (option Ref) :=
  let of_part (part : option IExpression) : Completion (option Ref) :=
    (* [part && part.getMemberSymbol()] *)
    match part with
    | Some x => getMemberSymbol st x
    | None => Returned None
    end in
  match e with
  | UCParenthesizedExpression _ expression => of_part expression
  | UCCallExpression _ expression _ => of_part expression
  | UCElementAccessExpression _ expression _ =>
      andThen (of_part expression) (fun symbol =>
        match symbol with
        | Some symbol_ => Returned (elementType st symbol_)
        | None => Returned None
        end)
  | UCPropertyAccessExpression _ _ member =>
      Returned (member ≫= Expressions.getMemberSymbol st)
  | UCConditionalExpression _ _ true_ false_ =>
      orElse (of_part true_) (of_part false_)
  | UCPostOperatorExpression _ expression _
  | UCPreOperatorExpression _ expression _ =>
      (* [return this.expression.getMemberSymbol();] *)
      match expression with
      | Some x => getMemberSymbol st x
      | None => Threw
      end
  | UCBinaryOperatorExpression _ left_ _ right_ =>
      orElse (of_part left_) (of_part right_)
  | UCMember e_
  | UCPredefinedAccessExpression e_
  | UCPredefinedPropertyAccessExpression e_ =>
      Returned (Expressions.getMemberSymbol st e_)
  | UCLiteral _ _ => Returned None
  | UCDefaultStructLiteral _ _ => Returned None
  end.

(** [getContextType()] of a property access. *)
Definition getContextType (st : Store) (left_ : option IExpression)
    : Completion (option Ref) :=
  andThen match left_ with
          | Some x => getMemberSymbol st x
          | None => Returned None
          end
          (fun symbol =>
             match symbol with
             | Some symbol_ => Returned (contextType st symbol_)
             | None => Returned None
             end).

(** [symbolRef.setReference(symbol, document)] with the use it records. *)
Definition refer (symbolRef_ symbol : Ref) (s : Store * UCDocument)
    : Store * UCDocument :=
  let '(st, doc) := s in
  let '(st', ref) := setReference symbolRef_ symbol false st in
  (st', if ref then push_usage (mkUsage symbol symbolRef_ false) doc else doc).

(** [UCMemberExpression.index(document, context)] for any context.
    Only a struct has [findSuperSymbol]: with a context that is
    [undefined] or no struct, [context.findSuperSymbol] is a [TypeError],
    unless the method has returned before. *)
Definition index_member (fuel : nat) (e : UCMemberExpression)
    (context : option Ref) (s : Store * UCDocument)
    : Completion (Store * UCDocument) :=
  let without_struct : Completion (Store * UCDocument) :=
    let '(st, doc) := s in
    let i := getId st e in
    if outer_is_UCCallExpression (shape e) then
      match TypeCastMap t !! i with
      | Some _ => Threw
      | None =>
          match or_else (ClassesTable t !! i) (Expressions.ObjectsTable t !! i) with
          | Some type_ => Returned (refer (symbolRef e) type_ (st, doc))
          | None => Threw
          end
      end
    else Threw in
  match context with
  | Some c =>
      if instanceof_UCStructSymbol (cls (s.1 !!! c))
      then match Expressions.index fuel t e c s with
           | Some r => Returned r
           | None => OutOfFuel
           end
      else without_struct
  | None => without_struct
  end.

(** The indexing of an operator reference:
    [const operatorSymbol = find...(this.operator.getId(), context);
     operatorSymbol && this.operator.setReference(operatorSymbol, document);] *)
Definition index_operator (test : Store -> Ref -> bool) (fuel : nat)
    (operator : option Ref) (context : option Ref) (s : Store * UCDocument)
    : Completion (Store * UCDocument) :=
  match operator with
  | Some op =>
      match findOperatorLike test fuel s.1
              (Names.toLowerCase (getName (s.1 !!! op))) context with
      | Some (Some operatorSymbol) => Returned (refer op operatorSymbol s)
      | Some None => Returned s
      | None => OutOfFuel
      end
  | None => Returned s
  end.

(** [index(document, context)]. *)
Fixpoint index (fuel : nat) (e : IExpression) (context : option Ref)
    (s : Store * UCDocument) {struct e} : Completion (Store * UCDocument) :=
  let index_ := fun x => index fuel x context in
  match e with
  | UCParenthesizedExpression _ expression => on_part index_ expression s
  | UCCallExpression _ expression arguments =>
      andThen (on_part index_ expression s) (on_arguments index_ arguments)
  | UCElementAccessExpression _ expression argument =>
      andThen (on_part index_ expression s) (on_part index_ argument)
  | UCPropertyAccessExpression _ left_ member =>
      andThen (on_part index_ left_ s) (fun s1 =>
        andThen (getContextType s1.1 left_) (fun memberContext =>
          match member, memberContext with
          | Some m, Some c =>
              if instanceof_UCStructSymbol (cls (s1.1 !!! c))
              then index_member fuel m (Some c) s1
              else Returned s1
          | _, _ => Returned s1
          end))
  | UCConditionalExpression _ condition true_ false_ =>
      andThen (on_part index_ condition s) (fun s1 =>
        andThen (on_part index_ true_ s1) (on_part index_ false_))
  | UCPostOperatorExpression _ expression operator =>
      andThen (on_part index_ expression s)
              (index_operator isPostOperator fuel operator context)
  | UCPreOperatorExpression _ expression operator =>
      andThen (on_part index_ expression s)
              (index_operator isPreOperator fuel operator context)
  | UCBinaryOperatorExpression _ left_ operator right_ =>
      andThen (index_operator isOperator fuel operator context s) (fun s1 =>
        andThen (on_part index_ left_ s1) (on_part index_ right_))
  | UCMember e_ => index_member fuel e_ context s
  | UCPredefinedAccessExpression e_ =>
      (* this.symbolRef.setReference(document.class!, document, true); *)
      Returned (assign (symbolRef e_) (set_reference (class s.2)) s.1, s.2)
  | UCPredefinedPropertyAccessExpression e_ =>
      match context with
      | Some c =>
          Returned
            (assign (symbolRef e_)
               (set_reference
                  (if instanceof_UCClassSymbol (cls (s.1 !!! c))
                   then Some c else class s.2))
               s.1,
             s.2)
      | None => Returned s
      end
  | UCLiteral _ _ => Returned s
  | UCDefaultStructLiteral _ arguments => on_arguments index_ arguments s
  end.

(** The check of an operator reference in [analyze]:
    [if (!this.operator.getReference()) document.nodes.push(
       new SemanticErrorNode(this.operator, `Invalid ... '${id}'.`));] *)
Definition analyze_operator (what : string) (operator : option Ref)
    (s : Store * UCDocument) : Store * UCDocument :=
  match operator with
  | Some op =>
      match reference (s.1 !!! op) with
      | Some _ => s
      | None =>
          (s.1,
           push_node
             (SemanticErrorNode op
                (Text ("Invalid " ++ what ++ " '" ++ getName (s.1 !!! op) ++ "'.")))
             s.2)
      end
  | None => s
  end.

(** [analyze(document, context)]. *)
Fixpoint analyze (e : IExpression) (context : option Ref)
    (s : Store * UCDocument) {struct e} : Completion (Store * UCDocument) :=
  let analyze_ := fun x => analyze x context in
  match e with
  | UCParenthesizedExpression _ expression => on_part analyze_ expression s
  | UCCallExpression _ expression arguments =>
      andThen (on_part analyze_ expression s) (on_arguments analyze_ arguments)
  | UCElementAccessExpression _ expression argument =>
      andThen (on_part analyze_ expression s) (on_part analyze_ argument)
  | UCPropertyAccessExpression _ left_ member =>
      andThen (on_part analyze_ left_ s) (fun s1 =>
        andThen (getContextType s1.1 left_) (fun memberContext =>
          match member with
          | Some m => Returned (Expressions.analyze m memberContext s1)
          | None => Returned s1
          end))
  | UCConditionalExpression _ condition true_ false_ =>
      andThen (on_part analyze_ condition s) (fun s1 =>
        andThen (on_part analyze_ true_ s1) (on_part analyze_ false_))
  | UCPostOperatorExpression _ expression operator =>
      andThen (on_part analyze_ expression s) (fun s1 =>
        Returned (analyze_operator "postoperator" operator s1))
  | UCPreOperatorExpression _ expression operator =>
      andThen (on_part analyze_ expression s) (fun s1 =>
        Returned (analyze_operator "preoperator" operator s1))
  | UCBinaryOperatorExpression _ left_ operator right_ =>
      andThen (on_part analyze_ left_ s) (fun s1 =>
        andThen (on_part analyze_ right_ s1) (fun s2 =>
          Returned (analyze_operator "operator" operator s2)))
  | UCMember e_
  | UCPredefinedAccessExpression e_
  | UCPredefinedPropertyAccessExpression e_ =>
      Returned (Expressions.analyze e_ context s)
  | UCLiteral _ _ => Returned s
  | UCDefaultStructLiteral _ arguments => on_arguments analyze_ arguments s
  end.

End Tree.

(** Two stores with the same symbol graph: they differ in what the
    references refer to, at most. *)
Definition same_graph (st st' : Store) : Prop :=
  forall r, set_reference None (st' !!! r) = set_reference None (st !!! r).

(** What indexing leaves as it is: the diagnostic nodes and the class of
    the document, and the symbol graph. *)
Definition index_frame (s s' : Store * UCDocument) : Prop :=
  nodes s'.2 = nodes s.2
  /\ class s'.2 = class s.2
  /\ same_graph s.1 s'.1.

(** What analysis leaves as it is: the store, the recorded uses and the
    class of the document, and the nodes that were there. *)
Definition analyze_frame (s s' : Store * UCDocument) : Prop :=
  s'.1 = s.1
  /\ usages s'.2 = usages s.2
  /\ class s'.2 = class s.2
  /\ exists added, nodes s'.2 = (nodes s.2 ++ added)%list.

End ExpressionTree.

(** ** The index pass over structs and classes

    [index(document, context)] is a virtual method: a struct calls it on its
    type references, its children and its script block.  These calls are
    logged in the order in which they are made, and what a callee does to
    the store is the parameter [dispatch]; likewise [getReference], the
    target a type symbol answers with, is a parameter.  The child list, the
    [types] map and the lists of a class are read when the loop over them
    starts. *)
Module IndexPass.
Import Symbols.

(** [target.index(document, context)]. *)
Record IndexCall := mkCall {
  target : Ref;
  call_document : string;
  call_context : Ref;
}.

Record IndexState := mkIndexState {
  heap : Store;
  calls : list IndexCall;
}.

Definition upd_heap (f : Store -> Store) (s : IndexState) : IndexState :=
  {| heap := f (heap s); calls := calls s |}.

Section Index.
Variable dispatch : IndexCall -> Store -> Store.
Variable getReference : Ref -> Store -> option Ref.

Definition invoke (c : IndexCall) (s : IndexState) : IndexState :=
  {| heap := dispatch c (heap s); calls := calls s ++ [c] |}.

(** The first statement of [UCStructSymbol.index]:
    [if (this.extendsType) { this.extendsType.index(document, context);
       if (!this.super) this.super = this.extendsType.getReference(); }] *)
Definition index_extendsType (this : Ref) (document_ : string) (context : Ref)
    (s : IndexState) : IndexState :=
  match extendsType (heap s !!! this) with
  | Some t =>
      let s1 := invoke (mkCall t document_ context) s in
      (* Ensure that we don't overwrite super assignment from our descendant class. *)
      match super (heap s1 !!! this) with
      | Some _ => s1
      | None => upd_heap (assign this (set_super (getReference t (heap s1)))) s1
      end
  | None => s
  end.

(** [child instanceof UCScriptStructSymbol || child instanceof UCEnumSymbol] *)
Definition is_nested_type (st : Store) (child : Ref) : bool :=
  instanceof_UCScriptStructSymbol (cls (st !!! child))
  || instanceof_UCEnumSymbol (cls (st !!! child)).

(** The second statement: the nested types, then the other children. *)
Definition index_children (this : Ref) (document_ : string)
    (s : IndexState) : IndexState :=
  match children (heap s !!! this) with
  | [] => s
  | _ :: _ =>
      (* Link types before any child so that a child that referes one of
         our types can be linked properly! *)
      let s1 :=
        foldl (fun s' type_ => invoke (mkCall type_ document_ this) s')
              s (map_values (types (heap s !!! this))) in
      foldl (fun s' child =>
               if is_nested_type (heap s') child then s'
               else invoke (mkCall child document_ this) s')
            s1 (children (heap s1 !!! this))
  end.

(** [if (this.scriptBlock) this.scriptBlock.index(document, this);] *)
Definition index_scriptBlock (this : Ref) (document_ : string)
    (s : IndexState) : IndexState :=
  match scriptBlock (heap s !!! this) with
  | Some b => invoke (mkCall b document_ this) s
  | None => s
  end.

(** [UCStructSymbol.index(document, context)]. *)
Definition UCStructSymbol_index (this : Ref) (document_ : string) (context : Ref)
    (s : IndexState) : IndexState :=
  index_scriptBlock this document_
    (index_children this document_
       (index_extendsType this document_ context s)).

(** The first statement of [UCClassSymbol.index]:
    [if (this.withinType) { this.withinType.index(document, context);
       this.super = this.withinType.getReference(); }] *)
Definition index_withinType (this : Ref) (document_ : string) (context : Ref)
    (s : IndexState) : IndexState :=
  match withinType (heap s !!! this) with
  | Some w =>
      let s1 := invoke (mkCall w document_ context) s in
      (* Overwrite extendsRef super, we inherit from the within class instead. *)
      upd_heap (assign this (set_super (getReference w (heap s1)))) s1
  | None => s
  end.

(** The loops over [dependsOnTypes] and [implementsTypes]. *)
Definition index_dependsOnTypes (this : Ref) (document_ : string) (context : Ref)
    (s : IndexState) : IndexState :=
  match dependsOnTypes (heap s !!! this) with
  | Some l =>
      foldl (fun s' classTypeRef =>
               invoke (mkCall classTypeRef document_ context) s') s l
  | None => s
  end.

Definition index_implementsTypes (this : Ref) (document_ : string) (context : Ref)
    (s : IndexState) : IndexState :=
  match implementsTypes (heap s !!! this) with
  | Some l =>
      foldl (fun s' interfaceTypeRef =>
               invoke (mkCall interfaceTypeRef document_ context) s') s l
  | None => s
  end.

(** [UCClassSymbol.index(document, context)]; it ends with
    [super.index(document, context)]. *)
Definition UCClassSymbol_index (this : Ref) (document_ : string) (context : Ref)
    (s : IndexState) : IndexState :=
  UCStructSymbol_index this document_ context
    (index_implementsTypes this document_ context
       (index_dependsOnTypes this document_ context
          (index_withinType this document_ context s))).

(** [UCDocumentClassSymbol.index(document, context = document.class!)]. *)
Definition UCDocumentClassSymbol_index (this : Ref) (document_ : string)
    (context : Ref) (s : IndexState) : IndexState :=
  match document (heap s !!! this) with
  | Some _ => s
  | None =>
      UCClassSymbol_index this document_ context
        (upd_heap (assign this (set_document (Some document_))) s)
  end.

(** A callee that, after its own work, calls [index] on [this] again:
    the re-entrant call of a dependent class that resolves a reference
    back into this class. *)
Definition reentering (this : Ref) (document_ : string) (context : Ref)
    : IndexCall -> Store -> Store :=
  fun c st =>
    heap (UCDocumentClassSymbol_index this document_ context
            (mkIndexState (dispatch c st) [])).

End Index.

End IndexPass.

(** ** diagnostics/documentAnalyzer.ts: the diagnostics pass

    The visitor reads a few fields of the symbol it visits and writes one
    ([requiredParamsCount]); the records below hold these fields.  The
    predicates of classes that are not in src ([isOptional], [isFinal],
    [isFixedArray], [getArrayDimSize], [getKind], ...) are fields holding
    the value they return. *)
Module DocumentAnalyzer.

Inductive DiagnosticSeverity := Error | Warning | Information | Hint.

(** A message: an entry of diagnosticMessages.json, or a text with its
    severity. *)
Inductive DiagnosticMessage :=
| TYPE_0_NOT_FOUND
| TYPE_0_CANNOT_EXTEND_TYPE_OF_1
| CLASS_NAME_0_MUST_MATCH_DOCUMENT_NAME_1
| COULDNT_FIND_0
| Message (text : string) (severity : DiagnosticSeverity).

Record IDiagnosticNode := mkDiagnostic {
  diag_range : Range;
  message : DiagnosticMessage;
  args : list string;
}.

#[global] Instance DiagnosticSeverity_eq_dec : EqDecision DiagnosticSeverity.
Proof. solve_decision. Defined.
#[global] Instance DiagnosticMessage_eq_dec : EqDecision DiagnosticMessage.
Proof. solve_decision. Defined.

(** [DiagnosticCollection.add]. *)
Definition add (d : IDiagnosticNode) (ds : list IDiagnosticNode) : list IDiagnosticNode :=
  ds ++ [d].

Record Config := mkConfig { checkTypes : bool }.

(** The symbols a type reference can resolve to: the two predefined
    symbols that [visitProperty] compares with, or a declared symbol. *)
Inductive Referent :=
| PredefinedBool
| NativeArray
| Declared (r : nat).

#[global] Instance Referent_eq_dec : EqDecision Referent.
Proof. solve_decision. Defined.

(** A type symbol: [id], [getReference()], [getTypeText()]. *)
Record ITypeSymbol := mkType {
  type_id : Identifier;
  getReference : option Referent;
  getTypeText : string;
}.

Record UCParamSymbol := mkParam {
  param_id : Identifier;
  isOptional : bool;
}.

Record UCPropertySymbol := mkProperty {
  property_id : Identifier;
  isFixedArray : bool;
  arrayDimRange : option Range;
  getArrayDimSize : option Z;
  property_type : option ITypeSymbol;
}.

(** [SymbolKind] of vscode-languageserver, the members a method can have. *)
Inductive SymbolKind := KindFunction | KindOperator | KindEvent | KindOther.

#[global] Instance SymbolKind_eq_dec : EqDecision SymbolKind.
Proof. solve_decision. Defined.

(** A method symbol; [self] names the object, [isBinaryOperator] is
    [symbol instanceof UCBinaryOperatorSymbol], [precedence] is a JS
    number or [undefined]. *)
Record UCMethodSymbol := mkMethod {
  self : nat;
  method_id : Identifier;
  params : option (list UCParamSymbol);
  requiredParamsCount : option nat;
  getKind : SymbolKind;
  isFinal : bool;
  isBinaryOperator : bool;
  precedence : option Z;
}.

Definition set_requiredParamsCount (n : nat) (m : UCMethodSymbol) : UCMethodSymbol :=
  {| self := self m; method_id := method_id m; params := params m;
     requiredParamsCount := Some n; getKind := getKind m; isFinal := isFinal m;
     isBinaryOperator := isBinaryOperator m; precedence := precedence m |}.

(** The visitor: its scope stack, [context] and the diagnostics it has
    collected. *)
Record State := mkAnalyzer {
  scopes : list nat;
  context : option nat;
  diagnostics : list IDiagnosticNode;
}.

Definition push (c : option nat) (a : State) : State :=
  {| scopes := match c with Some x => scopes a ++ [x] | None => scopes a end;
     context := c; diagnostics := diagnostics a |}.

Definition pop (a : State) : State :=
  {| scopes := removelast (scopes a);
     context := last (removelast (scopes a));
     diagnostics := diagnostics a |}.

Definition report (d : IDiagnosticNode) (a : State) : State :=
  {| scopes := scopes a; context := context a;
     diagnostics := add d (diagnostics a) |}.

(** The messages of [visitProperty] and [visitMethod]. *)
Definition BAD_ARRAY_SIZE : DiagnosticMessage :=
  Message "Bad array size, try refer to a type that can be evaulated to an integer!" Error.
Definition ILLEGAL_ARRAY_SIZE : DiagnosticMessage :=
  Message "Illegal array size, must be between 2-2048" Error.
Definition ILLEGAL_ARRAY_TYPE (typeText : string) : DiagnosticMessage :=
  Message ("Illegal array type '" ++ typeText ++ "'") Error.
Definition MUST_BE_OPTIONAL (paramId : string) : DiagnosticMessage :=
  Message ("Parameter '" ++ paramId
           ++ "' must be marked 'optional' after an optional parameter.") Error.
Definition OPERATOR_MUST_BE_FINAL : DiagnosticMessage :=
  Message "Operator must be declared as 'final'." Error.
Definition OPERATOR_TWO_PARAMETERS : DiagnosticMessage :=
  Message "An operator is required to have a total of 2 parameters." Error.
Definition OPERATOR_NEEDS_PRECEDENCE : DiagnosticMessage :=
  Message "Operator must have a precedence." Error.
Definition OPERATOR_PRECEDENCE_RANGE : DiagnosticMessage :=
  Message "Operator precedence must be between 0-255." Error.

Section Visitor.
Variable config : Config.
(** The methods of [DefaultSymbolWalker] that the analyzer calls through
    [super]; the class is not in src. *)
Variable super_visitObjectType : ITypeSymbol -> State -> State.
Variable super_visitProperty : UCPropertySymbol -> State -> State.
Variable super_visitMethod : UCMethodSymbol -> State -> State.

(** [visitObjectType(symbol)]. *)
Definition visitObjectType (symbol : ITypeSymbol) (a : State) : State :=
  let a1 := super_visitObjectType symbol a in
  let referredSymbol := getReference symbol in
  if checkTypes config && negb (bool_decide (is_Some referredSymbol))
  then report {| diag_range := range (type_id symbol);
                 message := TYPE_0_NOT_FOUND;
                 args := [name (type_id symbol)] |} a1
  else a1.

(** [visitProperty(symbol)]. *)
Definition visitProperty (symbol : UCPropertySymbol) (a : State) : State :=
  let a1 := super_visitProperty symbol a in
  match isFixedArray symbol, arrayDimRange symbol with
  | true, Some dimRange =>
      let arraySize := getArrayDimSize symbol in
      let a2 :=
        match arraySize with
        | Some n =>
            if JS.falsy arraySize
            then report {| diag_range := dimRange; message := BAD_ARRAY_SIZE;
                           args := [] |} a1
            else if (2048 <? n)%Z || (n <=? 1)%Z
            then report {| diag_range := dimRange;
                           message := ILLEGAL_ARRAY_SIZE; args := [] |} a1
            else a1
        | None =>
            report {| diag_range := dimRange; message := BAD_ARRAY_SIZE;
                      args := [] |} a1
        end in
      match checkTypes config, property_type symbol with
      | true, Some type_ =>
          let referredSymbol := getReference type_ in
          if bool_decide (referredSymbol = Some PredefinedBool)
             || bool_decide (referredSymbol = Some NativeArray)
          then report {| diag_range := range (type_id type_);
                         message := ILLEGAL_ARRAY_TYPE (getTypeText type_);
                         args := [] |} a2
          else a2
      | _, _ => a2
      end
  | _, _ => a1
  end.

(** The inner loop of [visitMethod],
    [for (let i = requiredParamsCount + 1; i < symbol.params.length; ++ i)],
    over the parameters from index [requiredParamsCount + 1] on. *)
Fixpoint trailingParams (ps : list UCParamSymbol) (a : State) : State :=
  match ps with
  | [] => a
  | param :: ps' =>
      if isOptional param then trailingParams ps' a
      else trailingParams ps'
             (report {| diag_range := range (param_id param);
                        message := MUST_BE_OPTIONAL (name (param_id param));
                        args := [] |} a)
  end.

(** The outer loop, over the parameters from index [requiredParamsCount]
    on; it yields the final value of the loop variable. *)
Fixpoint requiredParams (ps : list UCParamSymbol) (requiredParamsCount_ : nat)
    (a : State) : nat * State :=
  match ps with
  | [] => (requiredParamsCount_, a)
  | param :: ps' =>
      if isOptional param
      then
        (* All trailing params after the first optional param, are
           required to be declared as 'optional' too. *)
        (requiredParamsCount_, trailingParams ps' a)
      else requiredParams ps' (S requiredParamsCount_) a
  end.

(** The operator rules of [visitMethod]. *)
Definition operatorRules (symbol : UCMethodSymbol) (a : State) : State :=
  let here m := {| diag_range := range (method_id symbol); message := m;
                   args := [] |} in
  if bool_decide (getKind symbol = KindOperator) then
    let a1 :=
      if negb (isFinal symbol) then report (here OPERATOR_MUST_BE_FINAL) a
      else a in
    if isBinaryOperator symbol then
      let a2 :=
        match params symbol with
        | Some ps =>
            if negb (length ps =? 2)%nat
            then report (here OPERATOR_TWO_PARAMETERS) a1
            else a1
        | None => report (here OPERATOR_TWO_PARAMETERS) a1
        end in
      match precedence symbol with
      | Some p =>
          if JS.falsy (precedence symbol)
          then report (here OPERATOR_NEEDS_PRECEDENCE) a2
          else if (p <? 0)%Z || (255 <? p)%Z
          then report (here OPERATOR_PRECEDENCE_RANGE) a2
          else a2
      | None => report (here OPERATOR_NEEDS_PRECEDENCE) a2
      end
    else a1
  else a.

(** [visitMethod(symbol)]: the visited symbol (with its
    [requiredParamsCount]) and the visitor afterwards. *)
Definition visitMethod (symbol : UCMethodSymbol) (a : State)
    : UCMethodSymbol * State :=
  let a1 := push (Some (self symbol)) a in
  let a2 := super_visitMethod symbol a1 in
  let '(symbol1, a3) :=
    match params symbol with
    | Some ps =>
        let '(n, a') := requiredParams ps 0 a2 in
        (set_requiredParamsCount n symbol, a')
    | None => (symbol, a2)
    end in
  let a4 := operatorRules symbol1 a3 in
  (symbol1, pop a4).

End Visitor.

(** *** States, replication blocks, structs and constants *)

(** A symbol that a reference resolves to, as the visitor asks it:
    [referred] names the object (for [===] and [!==]), the other fields
    hold what [getId()], [getQualifiedName()], the [instanceof] tests,
    [getKind() === SymbolKind.Struct], [isFinal()] and [outer] give. *)
Record ReferredSymbol := mkReferred {
  referred : nat;
  referred_id : Identifier;
  getQualifiedName : string;
  instanceof_UCStateSymbol : bool;
  instanceof_UCMethodSymbol : bool;
  instanceof_UCPropertySymbol : bool;
  kind_is_Struct : bool;
  referred_isFinal : bool;
  referred_outer : option nat;
}.

(** A type symbol or a symbol reference: [id] and [getReference()]. *)
Record UCSymbolReference := mkReference {
  reference_id : Identifier;
  reference : option ReferredSymbol;
}.

Record UCStateSymbol := mkStateSymbol {
  state_self : nat;
  state_extendsType : option UCSymbolReference;
  ignoreRefs : option (list UCSymbolReference);
}.

Record UCScriptStructSymbol := mkScriptStruct {
  struct_self : nat;
  struct_extendsType : option UCSymbolReference;
}.

(** [symbolRefs] holds the values of the map, in the order of the
    iteration. *)
Record UCReplicationBlock := mkReplicationBlock {
  block_self : nat;
  symbolRefs : list UCSymbolReference;
}.

Record UCConstSymbol := mkConst {
  const_id : Identifier;
  has_expression : bool;
}.

(** [document.class], with its [getQualifiedName()]. *)
Record DocumentClass := mkDocumentClass {
  class_self : nat;
  class_getQualifiedName : string;
}.

Definition CANNOT_IGNORE_FINAL : DiagnosticMessage :=
  Message "Cannot ignore final functions." Error.
Definition IS_NOT_A_FUNCTION (symbolId : string) : DiagnosticMessage :=
  Message ("'" ++ symbolId ++ "' is not a function.") Error.
Definition VARIABLE_NOT_FOUND (refId : string) : DiagnosticMessage :=
  Message ("Variable '" ++ refId ++ "' not found!") Error.
Definition NEEDS_TO_BE_DECLARED_IN_CLASS (symbolName className : string)
    : DiagnosticMessage :=
  Message ("Variable or Function '" ++ symbolName
           ++ "' needs to be declared in class '" ++ className ++ "'!") Error.
Definition NEITHER_VARIABLE_NOR_FUNCTION (symbolId : string) : DiagnosticMessage :=
  Message ("Type of '" ++ symbolId ++ "' is neither a variable nor function!") Error.
Definition CONST_MUST_BE_INITIALIZED : DiagnosticMessage :=
  Message "Const declarations must be initialized!" Error.

Section Declarations.
Variable config : Config.
(** [this.document.class]. *)
Variable document_class : option DocumentClass.
(** [NAME_STRUCT.toString()] and [NAME_STATE.toString()]; names.ts is not
    in src. *)
Variable NAME_STRUCT NAME_STATE : string.
(** The methods of [DefaultSymbolWalker] called through [super]. *)
Variable super_visitState : UCStateSymbol -> State -> State.
Variable super_visitScriptStruct : UCScriptStructSymbol -> State -> State.
Variable super_visitReplicationBlock : UCReplicationBlock -> State -> State.
Variable super_visitConst : UCConstSymbol -> State -> State.

(** [visitScriptStruct(symbol)]. *)
Definition visitScriptStruct (symbol : UCScriptStructSymbol) (a : State) : State :=
  let a1 := push (Some (struct_self symbol)) a in
  let a2 := super_visitScriptStruct symbol a1 in
  let a3 :=
    match checkTypes config, struct_extendsType symbol with
    | true, Some extendsType =>
        match reference extendsType with
        | Some referredSymbol =>
            if negb (kind_is_Struct referredSymbol)
            then report {| diag_range := range (reference_id extendsType);
                           message := TYPE_0_CANNOT_EXTEND_TYPE_OF_1;
                           args := [NAME_STRUCT; getQualifiedName referredSymbol] |}
                        a2
            else a2
        | None => a2
        end
    | _, _ => a2
    end in
  pop a3.

(** One round of the loop over [symbol.ignoreRefs]. *)
Definition ignoreRef (a : State) (ref : UCSymbolReference) : State :=
  match reference ref with
  | None =>
      report {| diag_range := range (reference_id ref);
                message := COULDNT_FIND_0;
                args := [name (reference_id ref)] |} a
  | Some referredSymbol =>
      if instanceof_UCMethodSymbol referredSymbol
      then if referred_isFinal referredSymbol
           then report {| diag_range := range (reference_id ref);
                          message := CANNOT_IGNORE_FINAL; args := [] |} a
           else a
      else report {| diag_range := range (reference_id ref);
                     message := IS_NOT_A_FUNCTION (name (referred_id referredSymbol));
                     args := [] |} a
  end.

(** [visitState(symbol)]. *)
Definition visitState (symbol : UCStateSymbol) (a : State) : State :=
  let a1 := push (Some (state_self symbol)) a in
  let a2 := super_visitState symbol a1 in
  let a3 :=
    match checkTypes config, state_extendsType symbol with
    | true, Some extendsType =>
        match reference extendsType with
        | Some referredSymbol =>
            if negb (instanceof_UCStateSymbol referredSymbol)
            then report {| diag_range := range (reference_id extendsType);
                           message := TYPE_0_CANNOT_EXTEND_TYPE_OF_1;
                           args := [NAME_STATE; getQualifiedName referredSymbol] |}
                        a2
            else a2
        | None => a2
        end
    | _, _ => a2
    end in
  let a4 :=
    match ignoreRefs symbol with
    | Some refs => foldl ignoreRef a3 refs
    | None => a3
    end in
  pop a4.

(** One round of the loop over [symbol.symbolRefs.values()]; [None] is
    the [TypeError] of [this.document.class!.getQualifiedName()] on a
    document without a class. *)
Definition replicationRef (a : State) (symbolRef : UCSymbolReference)
    : option State :=
  match reference symbolRef with
  | None =>
      Some (report {| diag_range := range (reference_id symbolRef);
                      message := VARIABLE_NOT_FOUND (name (reference_id symbolRef));
                      args := [] |} a)
  | Some symbol =>
      if instanceof_UCPropertySymbol symbol || instanceof_UCMethodSymbol symbol
      then
        (* i.e. not defined in the same class as where the replication
           statement resides in. *)
        if negb (bool_decide (referred_outer symbol = class_self <$> document_class))
        then
          class_ ← document_class;
          Some (report {| diag_range := range (reference_id symbolRef);
                          message :=
                            NEEDS_TO_BE_DECLARED_IN_CLASS
                              (getQualifiedName symbol)
                              (class_getQualifiedName class_);
                          args := [] |} a)
        else Some a
      else
        Some (report {| diag_range := range (reference_id symbolRef);
                        message :=
                          NEITHER_VARIABLE_NOR_FUNCTION (name (referred_id symbol));
                        args := [] |} a)
  end.

(** [visitReplicationBlock(symbol)]. *)
Definition visitReplicationBlock (symbol : UCReplicationBlock) (a : State)
    : option State :=
  let a1 :=
    push (Some match document_class with
               | Some class_ => class_self class_
               | None => block_self symbol
               end) a in
  let a2 := super_visitReplicationBlock symbol a1 in
  a3 ← foldl (fun a' symbolRef => a' ≫= fun a'' => replicationRef a'' symbolRef)
             (Some a2) (symbolRefs symbol);
  Some (pop a3).

(** [visitConst(symbol)]. *)
Definition visitConst (symbol : UCConstSymbol) (a : State) : State :=
  let a1 := push (class_self <$> document_class) a in
  let a2 := super_visitConst symbol a1 in
  let a3 :=
    if has_expression symbol then a2
    else report {| diag_range := range (const_id symbol);
                   message := CONST_MUST_BE_INITIALIZED; args := [] |} a2 in
  pop a3.

End Declarations.

End DocumentAnalyzer.

(** ** The rules of the diagnostics pass, as they are specified

    The specification words the parameter rule with the index of the first
    optional parameter and the parameters that follow it; these definitions
    say so on lists, for comparison with the loops of [visitMethod]. *)
Module Rules.
Import DocumentAnalyzer.

(** The index of the first optional parameter, or the parameter count if
    no parameter is optional. *)
Definition firstOptional (ps : list UCParamSymbol) : nat :=
  match list_find (fun p => isOptional p = true) ps with
  | Some (i, _) => i
  | None => length ps
  end.

(** The parameters after the first optional one that are not optional. *)
Definition trailingViolations (ps : list UCParamSymbol) : list UCParamSymbol :=
  filter (fun p => isOptional p = false) (drop (S (firstOptional ps)) ps).

Definition mustBeOptional (param : UCParamSymbol) : IDiagnosticNode :=
  {| diag_range := range (param_id param);
     message := MUST_BE_OPTIONAL (name (param_id param));
     args := [] |}.

(** The diagnostics that the operator rules add for a method. *)
Definition operatorDiagnostics (symbol : UCMethodSymbol) : list IDiagnosticNode :=
  diagnostics (operatorRules symbol (mkAnalyzer [] None [])).

(** How often a message occurs among diagnostics. *)
Definition occurrences (m : DiagnosticMessage) (ds : list IDiagnosticNode) : nat :=
  length (filter (fun d => message d = m) ds).

(** A name that a state may ignore: it resolves to a function that is
    not final. *)
Definition ignorable (ref : UCSymbolReference) : bool :=
  match reference ref with
  | Some referredSymbol =>
      instanceof_UCMethodSymbol referredSymbol
      && negb (referred_isFinal referredSymbol)
  | None => false
  end.

(** A name that a replication block of the class [class_] may list: it
    resolves to a property or function declared in that class itself. *)
Definition replicable (class_ : DocumentClass) (ref : UCSymbolReference) : bool :=
  match reference ref with
  | Some symbol =>
      (instanceof_UCPropertySymbol symbol || instanceof_UCMethodSymbol symbol)
      && bool_decide (referred_outer symbol = Some (class_self class_))
  | None => false
  end.

(** A type that a state may extend: it is unresolved or a state. *)
Definition state_extendable (extendsType : UCSymbolReference) : bool :=
  match reference extendsType with
  | Some referredSymbol => instanceof_UCStateSymbol referredSymbol
  | None => true
  end.

(** A visit that leaves the scope stack as it finds it. *)
Definition balanced {A} (visit : A -> State -> State) : Prop :=
  forall x a, scopes (visit x a) = scopes a.

End Rules.


(** ** Name resolution, as it is specified

    "Climbs in this order and stops at the first match": the stages of a
    lookup are tried in order, the first symbol found is the answer; a
    stage that does not return ends the lookup without an answer. *)
Module Resolution.
Import Symbols UCStructSymbol.

Fixpoint first_match (stages : list Lookup) : Lookup :=
  match stages with
  | [] => Some None
  | None :: _ => None
  | Some (Some symbol) :: _ => Some (Some symbol)
  | Some None :: rest => first_match rest
  end.

(** The stages of [findSymbol] at one child: the child itself by its
    lower-case name, then, for an enum, its members. *)
Definition child_stages (fuel : nat) (st : Store) (i : string) (child : Ref)
    : list Lookup :=
  [ if Names.str_eq (Names.toLowerCase (getName (st !!! child))) i
    then Some (Some child) else Some None;
    if instanceof_UCEnumSymbol (cls (st !!! child))
    then findSymbol fuel st child i else Some None ].

(** The stages of [findSuperSymbol]: the struct itself by its own name,
    its children, the [super] chain unless it is a method, and the search
    of the outer struct of a method or state. *)
Definition struct_stages (fuel : nat) (st : Store) (this : Ref) (i : string)
    : list Lookup :=
  let s := st !!! this in
  [ if Names.str_eq i (Names.toLowerCase (getName s))
    then Some (Some this) else Some None;
    findSymbol fuel st this i;
    match super s with
    | Some sup =>
        if instanceof_UCMethodSymbol (cls s) then Some None
        else findSuperSymbol fuel st sup i
    | None => Some None
    end;
    match outer s with
    | Some o =>
        if (instanceof_UCMethodSymbol (cls s) || instanceof_UCStateSymbol (cls s))
           && instanceof_UCStructSymbol (cls (st !!! o))
        then findSuperSymbol fuel st o i
        else Some None
    | None => Some None
    end ].

(** A lookup keeps its answer when it is run again (with more fuel). *)
Definition keeps_answer (a b : Lookup) : Prop :=
  forall r, a = Some r -> b = Some r.

(** A struct declares no member that a lookup of [i] would find: no child
    has that lower-case name and no child is an enum. *)
Definition declares_none (st : Store) (s : Ref) (i : string) : Prop :=
  forall c, c ∈ children (st !!! s) ->
    Names.toLowerCase (getName (st !!! c)) <> i
    /\ instanceof_UCEnumSymbol (cls (st !!! c)) = false.

(** [m] is the member of [s] that a lookup of [i] finds: the first child
    with that lower-case name, no enum standing before it. *)
Definition declares (st : Store) (s : Ref) (i : string) (m : Ref) : Prop :=
  exists before after : list Ref,
    children (st !!! s) = (before ++ m :: after)%list
    /\ Names.toLowerCase (getName (st !!! m)) = i
    /\ forall c, c ∈ before ->
          Names.toLowerCase (getName (st !!! c)) <> i
          /\ instanceof_UCEnumSymbol (cls (st !!! c)) = false.

(** The context of a member reference is absent or a struct: the member
    can be looked for in it. *)
Definition accessible (st : Store) (context : option Ref) : bool :=
  match context with
  | Some c => instanceof_UCStructSymbol (cls (st !!! c))
  | None => true
  end.

End Resolution.

(** ** Symbol graphs without cycles, and type lookup without the cache *)
Module Acyclic.
Import Symbols UCStructSymbol.

(** [rank] falls along every link that a member lookup follows: from a
    struct to its [super], from a method or state to its outer, and from a
    struct to a child that is an enum. *)
Definition ranked (st : Store) (rank : Ref -> nat) : Prop :=
  forall r,
    (forall sup, super (st !!! r) = Some sup -> (rank sup < rank r)%nat)
    /\ (forall o, outer (st !!! r) = Some o ->
          instanceof_UCMethodSymbol (cls (st !!! r))
          || instanceof_UCStateSymbol (cls (st !!! r)) = true ->
          (rank o < rank r)%nat)
    /\ (forall c, c ∈ children (st !!! r) ->
          instanceof_UCEnumSymbol (cls (st !!! c)) = true ->
          (rank c < rank r)%nat).

(** The same condition on one object, as a test. *)
Definition ranked_at (rank : Ref -> nat) (st : Store) (r : Ref) (s : UCSymbol) : bool :=
  match super s with Some sup => bool_decide (rank sup < rank r)%nat | None => true end
  && match outer s with
     | Some o =>
         negb (instanceof_UCMethodSymbol (cls s) || instanceof_UCStateSymbol (cls s))
         || bool_decide (rank o < rank r)%nat
     | None => true
     end
  && forallb (fun c => negb (instanceof_UCEnumSymbol (cls (st !!! c)))
                       || bool_decide (rank c < rank r)%nat)
             (children s).

(** The test on every object of the store. *)
Definition rankedb (st : Store) (rank : Ref -> nat) : bool :=
  forallb (fun p => ranked_at rank st p.1 p.2) (map_to_list st).

(** [super?: UCStructSymbol]: the [super] of every object is a struct,
    so that [this.super.findSuperSymbol] is there to be called. *)
Definition struct_supers (st : Store) : Prop :=
  forall r sup,
    super (st !!! r) = Some sup ->
    instanceof_UCStructSymbol (cls (st !!! sup)) = true.

(** The same condition as a test on every object of the store. *)
Definition struct_supersb (st : Store) : bool :=
  forallb (fun p : Ref * UCSymbol =>
             match super p.2 with
             | Some sup => instanceof_UCStructSymbol (cls (st !!! sup))
             | None => true
             end)
          (map_to_list st).

(** The search of [findTypeSymbol] with [deepSearch] set and every cache
    left out: own name, own [types], then [super], else a struct outer; a
    method asks its outer. *)
Fixpoint resolveType (fuel : nat) (st : Store) (this : Ref) (qualifiedId : string)
    : Completion (option Ref) :=
  match fuel with
  | O => OutOfFuel
  | S fuel' =>
      let s := st !!! this in
      if instanceof_UCMethodSymbol (cls s)
      then match outer s with
           | Some o => resolveType fuel' st o qualifiedId
           | None => Threw
           end
      else if Names.str_eq qualifiedId (Names.toLowerCase (getName s))
      then Returned (Some this)
      else
        match map_get qualifiedId (types s) with
        | Some symbol => Returned (Some symbol)
        | None =>
            match super s with
            | Some sup => resolveType fuel' st sup qualifiedId
            | None =>
                match outer s with
                | Some o =>
                    if instanceof_UCStructSymbol (cls (st !!! o))
                    then resolveType fuel' st o qualifiedId
                    else Returned None
                | None => Returned None
                end
            end
        end
  end.

(** Every cached answer is an answer of the search without caches. *)
Definition coherent (st : Store) (caches : Caches) : Prop :=
  forall s q r,
    cache_get caches s q = Some r ->
    exists fuel, resolveType fuel st s q = Returned (Some r).

End Acyclic.

(** ** Reading a built struct

    The child list has the newest declaration first; these readings put it
    in declaration order. *)
Module Readout.
Import Symbols.

Definition declarationOrder (st : Store) (r : Ref) : list Ref :=
  rev (children (st !!! r)).

(** The members of an enum in declaration order, each with its name and
    its [value]. *)
Definition members (st : Store) (e : Ref) : list (string * option Z) :=
  (fun r => (getName (st !!! r), value (st !!! r))) <$> declarationOrder st e.

(** The identifiers that a type reference spells, from the left: one
    for an object type, and for a qualified type those of its [left] part
    followed by that of its [type]. *)
Fixpoint qualifiedIds (fuel : nat) (st : Store) (r : Ref) : option (list Identifier) :=
  match fuel with
  | O => None
  | S fuel' =>
      let s := st !!! r in
      if bool_decide (cls s = UCQualifiedTypeSymbol)
      then match type s with
           | Some t =>
               match left s with
               | Some l =>
                   (fun ids : list Identifier => (ids ++ [id (st !!! t)])%list)
                     <$> qualifiedIds fuel' st l
               | None => Some [id (st !!! t)]
               end
           | None => None
           end
      else Some [id s]
  end.

(** The ranges lie on one line, each as wide as its name, the first at
    column [startChar], each next one a column after the end of the one
    before; [stop] is the column where the last one ends. *)
Fixpoint tiles (line_ startChar : nat) (ids : list Identifier) (stop : nat) : Prop :=
  match ids with
  | [] => False
  | i :: ids' =>
      range i = mkRange (mkPosition line_ startChar)
                        (mkPosition line_ (startChar + String.length (name i)))
      /\ match ids' with
         | [] => stop = (startChar + String.length (name i))%nat
         | _ :: _ => tiles line_ (startChar + String.length (name i) + 1) ids' stop
         end
  end.

End Readout.

(** ** The order of the index calls, as it is specified

    The calls that a struct and a class are specified to make, read off the
    store in which the call starts, and the conditions on the callees under
    which this reading is meaningful. *)
Module IndexOrder.
Import Symbols IndexPass.

(** The calls of a struct: its extends clause (in the caller's context),
    its nested types, its other children in child-list order, its script
    block (all three in its own context). *)
Definition struct_calls (st : Store) (this : Ref) (document_ : string)
    (context : Ref) : list IndexCall :=
  let sym := st !!! this in
  (match extendsType sym with
   | Some t => [mkCall t document_ context]
   | None => []
   end
   ++ match children sym with
      | [] => []
      | _ :: _ => (fun t => mkCall t document_ this) <$> map_values (types sym)
      end
   ++ ((fun child => mkCall child document_ this)
         <$> filter (fun child => is_nested_type st child = false) (children sym))
   ++ match scriptBlock sym with
      | Some b => [mkCall b document_ this]
      | None => []
      end)%list.


(** The part of the store that decides which calls [this] makes: what the
    tree builder has put on it (clauses, child list, [types] map, script
    block) and the class of every object. *)
Definition same_shape (this : Ref) (st st' : Store) : Prop :=
  children (st' !!! this) = children (st !!! this)
  /\ types (st' !!! this) = types (st !!! this)
  /\ scriptBlock (st' !!! this) = scriptBlock (st !!! this)
  /\ extendsType (st' !!! this) = extendsType (st !!! this)
  /\ dependsOnTypes (st' !!! this) = dependsOnTypes (st !!! this)
  /\ implementsTypes (st' !!! this) = implementsTypes (st !!! this)
  /\ forall r, cls (st' !!! r) = cls (st !!! r).

(** No callee restructures [this] or changes the class of an object. *)
Definition keeps_shape (dispatch : IndexCall -> Store -> Store) (this : Ref) : Prop :=
  forall c st, same_shape this st (dispatch c st).

(** [this.document] is set. *)
Definition indexed (this : Ref) (st : Store) : Prop :=
  is_Some (document (st !!! this)).

(** No callee clears [this.document]. *)
Definition keeps_indexed (dispatch : IndexCall -> Store -> Store) (this : Ref) : Prop :=
  forall c st, indexed this st -> indexed this (dispatch c st).

(** The members [ds] declared in [this], in this order. *)
Definition declared (this : Ref) (ds : list Ref) (st : Store) : Store :=
  foldl (fun st' d => UCStructSymbol.addSymbol this d st') st ds.

(** The key under which a nested type is entered in the [types] map. *)
Definition type_key (st : Store) (d : Ref) : string :=
  Names.toLowerCase (getName (st !!! d)).

(** The members declared as [ds], in the order in which their struct
    indexes them: the nested types in the order of their declaration, then
    the other members, the newest first. *)
Definition member_order (st : Store) (ds : list Ref) : list Ref :=
  filter (fun d => is_nested_type st d = true) ds
  ++ rev (filter (fun d => is_nested_type st d = false) ds).

End IndexOrder.

(** ** Sample declarations used in the checks of Part II *)
Module Samples.
Import DocumentAnalyzer.

Definition ident (s : string) : Identifier := mkIdentifier s DEFAULT_RANGE.

(** A column range on line [l], to tell positions apart. *)
Definition at_line (l : nat) : Range := mkRange (mkPosition l 0) (mkPosition l 1).

Definition checking : Config := mkConfig true.
Definition not_checking : Config := mkConfig false.

Definition fresh : State := mkAnalyzer [] None [].

(** The default walker, on symbols without anything to descend into. *)
Definition no_descent {A} (_ : A) (a : State) : State := a.

(** [function Foo(optional int a, int b)]. *)
Definition param_a : UCParamSymbol := mkParam (mkIdentifier "a" (at_line 1)) true.
Definition param_b : UCParamSymbol := mkParam (mkIdentifier "b" (at_line 2)) false.
Definition optional_then_required : UCMethodSymbol :=
  mkMethod 7 (ident "Foo") (Some [param_a; param_b]) None KindFunction false false None.

(** [var bool Flags[n];] and [var int Values[n];] with the size given. *)
Definition bool_type : ITypeSymbol :=
  mkType (mkIdentifier "bool" (at_line 3)) (Some PredefinedBool) "bool".
Definition int_type : ITypeSymbol :=
  mkType (mkIdentifier "int" (at_line 3)) (Some (Declared 1)) "int".
Definition fixed_array (t : ITypeSymbol) (size : option Z) : UCPropertySymbol :=
  mkProperty (ident "Values") true (Some (at_line 4)) size (Some t).

(** [final operator(n) int Plus(int a, int b)] as the analyzer sees it
    with the precedence given. *)
Definition final_operator (prec : option Z) : UCMethodSymbol :=
  mkMethod 9 (ident "Plus")
           (Some [mkParam (ident "a") false; mkParam (ident "b") false])
           None KindOperator true true prec.




(** Callees without effect on the store, and type symbols that answer
    with the [reference] stored on them. *)
Definition no_effect (_ : IndexPass.IndexCall) (st : Symbols.Store) : Symbols.Store := st.
Definition stored_reference (t : Symbols.Ref) (st : Symbols.Store) : option Symbols.Ref :=
  Symbols.reference (st !!! t).

(** *** Class [A] (0) with the members [Foo] (2) and [B] (4), declared
    in this order, and class [B extends A] (1) without members; 3 is the
    type symbol of B's extends clause, resolved to A, and 5 an unresolved
    reference to the name [Bar]. *)
Definition classes_AB : Symbols.Store :=
  UCStructSymbol.addSymbol 0 4
    (UCStructSymbol.addSymbol 0 2
       (<[0 := Symbols.new Symbols.UCClassSymbol (ident "A") None]>
        (<[1 := Symbols.set_super (Some 0)
                  (Symbols.set_extendsType (Some 3)
                     (Symbols.new Symbols.UCClassSymbol (ident "B") None))]>
         (<[2 := Symbols.new Symbols.UCPropertySymbol (ident "Foo") None]>
          (<[3 := Symbols.set_reference (Some 0)
                    (Symbols.new Symbols.UCObjectTypeSymbol (ident "A") None)]>
           (<[4 := Symbols.new Symbols.UCPropertySymbol (ident "B") None]>
            (<[5 := Symbols.new Symbols.UCObjectTypeSymbol
                      (mkIdentifier "Bar" (at_line 20)) None]> ∅))))))).

Definition no_tables : Expressions.Tables := Expressions.mkTables ∅ ∅ ∅ ∅.

Definition bare : Expressions.OuterShape :=
  Expressions.mkShape false false false false false false false.

Definition empty_document : Document.UCDocument :=
  Document.mkDocument "B" 9 (Some 1) [] [] [].

(** Class B indexed once as a document class. *)
Definition B_indexed : IndexPass.IndexState :=
  IndexPass.UCDocumentClassSymbol_index no_effect stored_reference 1 "B.uc" 1
    (IndexPass.mkIndexState classes_AB []).

(** The unresolved reference [Bar] (5), used as a bare member. *)
Definition bar : Expressions.UCMemberExpression := Expressions.mkMember 5 bare.

(** A bare reference to the name [foo] (6) in the same classes. *)
Definition classes_AB_foo : Symbols.Store :=
  <[6 := Symbols.new Symbols.UCSymbolReference
           (mkIdentifier "foo" (at_line 21)) None]> classes_AB.
Definition foo : Expressions.UCMemberExpression := Expressions.mkMember 6 bare.

(** *** A walker inside class [Foo] (1) of package 0. *)
Definition no_package_effect (_ _ : Symbols.Ref) (st : Symbols.Store) : Symbols.Store := st.

Definition plain_ctx : DocumentASTWalker.ParserRuleContext :=
  DocumentASTWalker.mkCtx (at_line 10) (at_line 10) None.

Definition in_class_Foo : DocumentASTWalker.State :=
  DocumentASTWalker.mkState
    (<[0 := Symbols.new Symbols.UCPackage (ident "Pkg") None]>
     (<[1 := Symbols.new Symbols.UCDocumentClassSymbol (ident "Foo") None]> ∅))
    2 [0; 1]
    (Document.mkDocument "Foo" 0 (Some 1) [] [1] [])
    ∅ ∅.

(** A walker that has not met a class declaration yet. *)
Definition before_class : DocumentASTWalker.State :=
  DocumentASTWalker.mkState
    (<[0 := Symbols.new Symbols.UCPackage (ident "Pkg") None]> ∅)
    1 [0]
    (Document.mkDocument "Foo" 0 None [] [] [])
    ∅ ∅.

(** [enum E { A, B, C }] and [class Foo extends Object]. *)
Definition enum_E : DocumentASTWalker.EnumDeclContext :=
  DocumentASTWalker.mkEnumDecl plain_ctx (ident "E")
    [DocumentASTWalker.mkEnumMember (ident "A");
     DocumentASTWalker.mkEnumMember (ident "B");
     DocumentASTWalker.mkEnumMember (ident "C")].

Definition class_Foo : DocumentASTWalker.ClassDeclContext :=
  DocumentASTWalker.mkClassDecl plain_ctx (ident "Foo")
    (Some (DocumentASTWalker.mkQualified (ident "Object", at_line 10) None))
    None [].

(** *** A class that extends itself: [class A extends A] (0), with the
    member [Foo] (1). *)
Definition self_extending : Symbols.Store :=
  UCStructSymbol.addSymbol 0 1
    (<[0 := Symbols.set_super (Some 0)
              (Symbols.new Symbols.UCClassSymbol (ident "A") None)]>
     (<[1 := Symbols.new Symbols.UCPropertySymbol (ident "Foo") None]> ∅)).

(** The same class with the unresolved reference [Bar] (5). *)
Definition self_extending_bar : Symbols.Store :=
  <[5 := Symbols.new Symbols.UCSymbolReference
           (mkIdentifier "Bar" (at_line 20)) None]> self_extending.

(** *** Class [A] (0) with the nested struct [Vec] (2), and class
    [B extends A] (1) with the method [Run] (3). *)
Definition classes_AB_Vec : Symbols.Store :=
  UCStructSymbol.addSymbol 1 3
    (UCStructSymbol.addSymbol 0 2
       (<[0 := Symbols.new Symbols.UCClassSymbol (ident "A") None]>
        (<[1 := Symbols.set_super (Some 0)
                  (Symbols.new Symbols.UCClassSymbol (ident "B") None)]>
         (<[2 := Symbols.new Symbols.UCScriptStructSymbol (ident "Vec") None]>
          (<[3 := Symbols.new Symbols.UCMethodSymbol (ident "Run") None]>
           (<[4 := Symbols.new Symbols.UCScriptStructSymbol (ident "Vec") None]>
              ∅)))))).

(** *** A struct [S] (0) and the members to declare in it: [P] (1), the
    enum [E] (3), [Q] (2) and a second enum [E] (4). *)
Definition struct_S : Symbols.Store :=
  <[0 := Symbols.new Symbols.UCScriptStructSymbol (ident "S") None]>
   (<[1 := Symbols.new Symbols.UCPropertySymbol (ident "P") None]>
    (<[2 := Symbols.new Symbols.UCPropertySymbol (ident "Q") None]>
     (<[3 := Symbols.new Symbols.UCEnumSymbol (ident "E") None]>
      (<[4 := Symbols.new Symbols.UCEnumSymbol (ident "E") None]> ∅)))).

(** *** [state Idle { ignores Tick, Fire, Health, Missing; }] in class
    [Pawn] (1): [Tick] is a function, [Fire] a final function, [Health] a
    variable, and [Missing] does not resolve. *)
Definition referred_method (n : nat) (i : string) (final : bool) (outer_ : nat)
    : ReferredSymbol :=
  mkReferred n (ident i) ("Pawn." ++ i) false true false false final (Some outer_).
Definition referred_property (n : nat) (i : string) (outer_ : nat)
    : ReferredSymbol :=
  mkReferred n (ident i) ("Pawn." ++ i) false false true false false (Some outer_).
Definition ref_to (l : nat) (i : string) (r : option ReferredSymbol)
    : DocumentAnalyzer.UCSymbolReference :=
  mkReference (mkIdentifier i (at_line l)) r.

Definition state_Idle : DocumentAnalyzer.UCStateSymbol :=
  mkStateSymbol 5 None
    (Some [ref_to 31 "Tick" (Some (referred_method 10 "Tick" false 1));
           ref_to 32 "Fire" (Some (referred_method 11 "Fire" true 1));
           ref_to 33 "Health" (Some (referred_property 12 "Health" 1));
           ref_to 34 "Missing" None]).

(** *** [replication { reliable if (true) Health, Tick, Name, Pawn; }] in
    class [Pawn] (1): [Health] and [Tick] are declared in Pawn, [Name] in
    its parent class (0), and [Pawn] is the class itself. *)
Definition class_Pawn : DocumentClass := mkDocumentClass 1 "Pawn".
Definition replication_Pawn : DocumentAnalyzer.UCReplicationBlock :=
  mkReplicationBlock 6
    [ref_to 41 "Health" (Some (referred_property 12 "Health" 1));
     ref_to 42 "Tick" (Some (referred_method 10 "Tick" false 1));
     ref_to 43 "Name" (Some (referred_property 13 "Name" 0));
     ref_to 44 "Pawn"
       (Some (mkReferred 1 (ident "Pawn") "Pawn" false false false false false None))].

(** The visitor inside class [Pawn]. *)
Definition in_Pawn : State := mkAnalyzer [1] (Some 1) [].

(** Every method counts as an operator of every kind. *)
Definition any_operator (_ : Symbols.Store) (_ : Symbols.Ref) : bool := true.

(** No type has a base type, no method a return type. *)
Definition no_type (_ : Symbols.Ref) : option Symbols.Ref := None.

(** In [classes_AB], class B stands above class A. *)
Definition rank_AB (r : Symbols.Ref) : nat :=
  match r with 1 => 1 | _ => 0 end.

(** The call [(foo)(, 1)]: its second argument is a literal, its first
    is left out. *)
Definition foo_call : ExpressionTree.IExpression :=
  ExpressionTree.UCCallExpression (at_line 21)
    (Some (ExpressionTree.UCParenthesizedExpression (at_line 21)
             (Some (ExpressionTree.UCMember foo))))
    (Some [None; Some (ExpressionTree.UCLiteral ExpressionTree.UCIntLiteral
                         (at_line 21))]).

End Samples.
(* ===================================================================== *)
(** * Part II: properties                                                 *)
(* ===================================================================== *)

Local Open Scope list_scope.

(** ** Position lookup on the base symbol *)
Module SymbolFacts.
Import Symbol.

Section GetSymbolAtPos.
Context {Sym : Type}.
Variable getRange : Sym -> Range.
Variable intersectsWithRange : Position -> Range -> bool.
Variable getContainedSymbolAtPos : Sym -> Position -> option Sym.

(** C10: the base [UCSymbol.getSymbolAtPos(p)] never answers
    [undefined]; it answers with the contained child when [p] intersects
    the symbol's range and a contained symbol is found at [p], and with
    the symbol itself in every other case, also when [p] lies outside
    the range. *)
Theorem getSymbolAtPos_self_or_contained (this : Sym) (p : Position) :
  getSymbolAtPos getRange intersectsWithRange getContainedSymbolAtPos this p
  <> JSUndefined
  /\ getSymbolAtPos getRange intersectsWithRange getContainedSymbolAtPos this p
     = JSObject
         match (if intersectsWithRange p (getRange this)
                then getContainedSymbolAtPos this p else None) with
         | Some child => child
         | None => this
         end.
Proof.
  unfold getSymbolAtPos, js_or, js_and.
  destruct (intersectsWithRange p (getRange this)); simpl.
  - destruct (getContainedSymbolAtPos this p); simpl; split; congruence.
  - split; congruence.
Qed.
End GetSymbolAtPos.

(** With the base class's own [getContainedSymbolAtPos] the answer is the
    symbol, whatever the position. *)
Lemma getSymbolAtPos_base {Sym} (getRange : Sym -> Range) inter (this : Sym) p :
  getSymbolAtPos getRange inter base_getContainedSymbolAtPos this p = JSObject this.
Proof.
  unfold getSymbolAtPos, js_or, js_and, base_getContainedSymbolAtPos.
  destruct (inter p (getRange this)); reflexivity.
Qed.

End SymbolFacts.

(** ** The store *)
Module StoreFacts.
Import Symbols.

Lemma assign_eq (r : Ref) f (st : Store) : assign r f st !!! r = f (st !!! r).
Proof. unfold assign. apply lookup_total_insert_eq. Qed.

Lemma assign_ne (r r' : Ref) f (st : Store) :
  r <> r' -> assign r f st !!! r' = st !!! r'.
Proof. intros. unfold assign. by apply lookup_total_insert_ne. Qed.

(** An assignment to a field other than [cls] and [id] keeps both, at
    every reference. *)
Lemma assign_cls_id (r r' : Ref) f (st : Store) :
  (forall s, cls (f s) = cls s /\ id (f s) = id s) ->
  cls (assign r f st !!! r') = cls (st !!! r')
  /\ id (assign r f st !!! r') = id (st !!! r').
Proof.
  intros Hf. destruct (decide (r = r')) as [->|Hne].
  - rewrite assign_eq. apply Hf.
  - by rewrite assign_ne.
Qed.

Import UCStructSymbol.

Lemma addSymbol_children (this symbol : Ref) (st : Store) :
  this <> symbol ->
  children (addSymbol this symbol st !!! this) = symbol :: children (st !!! this).
Proof.
  intros Hne. unfold addSymbol.
  case_match; rewrite ?assign_eq, ?(assign_ne symbol this) by done; done.
Qed.

Lemma addSymbol_other (this symbol r : Ref) (st : Store) :
  r <> this -> r <> symbol -> addSymbol this symbol st !!! r = st !!! r.
Proof.
  intros H1 H2. unfold addSymbol.
  case_match; rewrite ?assign_ne by done; done.
Qed.

Lemma addSymbol_cls_id (this symbol r : Ref) (st : Store) :
  cls (addSymbol this symbol st !!! r) = cls (st !!! r)
  /\ id (addSymbol this symbol st !!! r) = id (st !!! r).
Proof.
  unfold addSymbol.
  case_match;
    repeat match goal with
           | |- context [assign ?a ?f ?s !!! r] =>
               let H := fresh in
               pose proof (assign_cls_id a r f s) as H;
               destruct H as [-> ->]; [intros; split; reflexivity|]
           end; done.
Qed.

(** The declared symbol keeps everything but [outer] and
    [containingStruct]. *)
Lemma addSymbol_symbol (this symbol : Ref) (st : Store) :
  this <> symbol ->
  addSymbol this symbol st !!! symbol
  = set_containingStruct (Some this) (set_outer (Some this) (st !!! symbol)).
Proof.
  intros Hne. unfold addSymbol.
  case_match; rewrite ?(assign_ne this symbol), ?assign_eq by done; done.
Qed.

End StoreFacts.

(** ** The diagnostics pass *)
Module AnalyzerFacts.
Import DocumentAnalyzer Rules.

Section Visitor.
Variable config : Config.
Variable super_visitObjectType : ITypeSymbol -> State -> State.
Variable super_visitProperty : UCPropertySymbol -> State -> State.
Variable super_visitMethod : UCMethodSymbol -> State -> State.

Lemma trailingParams_diagnostics ps a :
  diagnostics (trailingParams ps a)
  = diagnostics a
    ++ (mustBeOptional <$> filter (fun p => isOptional p = false) ps).
Proof.
  revert a. induction ps as [|p ps IH]; intros a; simpl.
  - by rewrite app_nil_r.
  - destruct (isOptional p) eqn:E.
    + rewrite IH. rewrite filter_cons_False; [done | congruence].
    + rewrite IH. rewrite filter_cons_True by done. simpl.
      unfold add. by rewrite <- app_assoc.
Qed.

Lemma trailingParams_scopes ps a :
  scopes (trailingParams ps a) = scopes a
  /\ context (trailingParams ps a) = context a.
Proof.
  revert a. induction ps as [|p ps IH]; intros a; simpl; [done|].
  destruct (isOptional p); rewrite ?(proj1 (IH _)), ?(proj2 (IH _)); done.
Qed.

(** The loop variable ends at the index of the first optional parameter,
    counted from where the loop started. *)
Lemma requiredParams_count ps n a :
  (requiredParams ps n a).1 = (n + firstOptional ps)%nat.
Proof.
  revert n a. induction ps as [|p ps IH]; intros n a; simpl.
  - unfold firstOptional. simpl. lia.
  - unfold firstOptional. simpl. destruct (isOptional p) eqn:E.
    + rewrite decide_True by done. simpl. lia.
    + rewrite decide_False by congruence.
      rewrite IH. unfold firstOptional.
      destruct (list_find _ ps) as [[i x]|]; simpl; lia.
Qed.

Lemma firstOptional_cons p ps :
  firstOptional (p :: ps)
  = if isOptional p then 0%nat else S (firstOptional ps).
Proof.
  unfold firstOptional. simpl. destruct (isOptional p) eqn:E.
  - by rewrite decide_True.
  - rewrite decide_False by congruence.
    by destruct (list_find _ ps) as [[i x]|].
Qed.

Lemma requiredParams_diagnostics ps n a :
  diagnostics (requiredParams ps n a).2
  = diagnostics a ++ (mustBeOptional <$> trailingViolations ps).
Proof.
  revert n a. induction ps as [|p ps IH]; intros n a.
  - simpl. unfold trailingViolations. simpl. by rewrite app_nil_r.
  - simpl. unfold trailingViolations. rewrite firstOptional_cons.
    destruct (isOptional p) eqn:E; simpl.
    + rewrite drop_0. apply trailingParams_diagnostics.
    + rewrite IH. reflexivity.
Qed.

Lemma operatorRules_diagnostics symbol a :
  diagnostics (operatorRules symbol a)
  = diagnostics a ++ operatorDiagnostics symbol.
Proof.
  unfold operatorDiagnostics, operatorRules.
  repeat (case_match; simpl; unfold add; simpl;
          rewrite ?app_nil_r, <- ?app_assoc; try reflexivity).
Qed.

Lemma operatorDiagnostics_requiredParamsCount n symbol :
  operatorDiagnostics (set_requiredParamsCount n symbol)
  = operatorDiagnostics symbol.
Proof. reflexivity. Qed.

Lemma pop_diagnostics a : diagnostics (pop a) = diagnostics a.
Proof. reflexivity. Qed.

(** What [firstOptional] denotes: no parameter before that index is
    optional, and the parameter at that index, if there is one, is. *)
Lemma firstOptional_spec ps :
  (firstOptional ps <= length ps)%nat
  /\ (forall i p, ps !! i = Some p -> (i < firstOptional ps)%nat ->
                  isOptional p = false)
  /\ (forall p, ps !! firstOptional ps = Some p -> isOptional p = true).
Proof.
  induction ps as [|q ps (Hle & Hbefore & Hat)].
  - unfold firstOptional; simpl. split; [lia|]. split; intros; simplify_eq.
  - rewrite firstOptional_cons. destruct (isOptional q) eqn:E.
    + split; [simpl; lia|]. split; [intros; lia|].
      intros p Hp. simpl in Hp. by simplify_eq.
    + split; [simpl; lia|]. split.
      * intros [|i] p Hp Hi; simpl in Hp; [by simplify_eq|].
        apply (Hbefore i); [done | lia].
      * intros p Hp. simpl in Hp. by apply Hat.
Qed.

(** C3 (amended): for a method with a parameter list, [visitMethod] sets
    [requiredParamsCount] to the index of the first optional parameter
    (the parameter count if none is optional), and reports, after the
    diagnostics of the default walker and in parameter order, one
    diagnostic for every parameter behind the first optional one that is
    not optional (so the first violation is reported); the operator
    rules follow. *)
Theorem visitMethod_trailing_optional
    (self_ : nat) (id_ : Identifier) (ps : list UCParamSymbol)
    (count0 : option nat) (kind : SymbolKind) (final binary : bool)
    (prec : option Z) (a : State) :
  let symbol := mkMethod self_ id_ (Some ps) count0 kind final binary prec in
  let r := visitMethod super_visitMethod symbol a in
  requiredParamsCount r.1 = Some (firstOptional ps)
  /\ diagnostics r.2
     = diagnostics (super_visitMethod symbol (push (Some self_) a))
       ++ (mustBeOptional <$> trailingViolations ps)
       ++ operatorDiagnostics symbol.
Proof.
  intros symbol r. subst r symbol. unfold visitMethod. cbn [params self].
  destruct (requiredParams ps 0 _) as [n a'] eqn:E.
  apply (f_equal fst) in E as Hn. apply (f_equal (fun x => diagnostics x.2)) in E as Hd.
  rewrite requiredParams_count in Hn. rewrite requiredParams_diagnostics in Hd.
  simpl in Hn, Hd. subst n. split; [reflexivity|].
  cbn [snd]. rewrite pop_diagnostics, operatorRules_diagnostics, <- Hd.
  rewrite operatorDiagnostics_requiredParamsCount.
  by rewrite <- app_assoc.
Qed.

(** The rule for [final]: an operator that is not final gets the
    "must be final" diagnostic once, a final one never. *)
Lemma operator_final_rule symbol :
  getKind symbol = KindOperator ->
  occurrences OPERATOR_MUST_BE_FINAL (operatorDiagnostics symbol)
  = if isFinal symbol then 0%nat else 1%nat.
Proof.
  intros Hk. unfold operatorDiagnostics, operatorRules, occurrences.
  rewrite bool_decide_true by done.
  repeat (case_match; simplify_eq/=; unfold add; simpl); done.
Qed.

(** The rule for the parameter count of a binary operator. *)
Lemma operator_parameters_rule symbol :
  getKind symbol = KindOperator -> isBinaryOperator symbol = true ->
  occurrences OPERATOR_TWO_PARAMETERS (operatorDiagnostics symbol)
  = match params symbol with
    | Some ps => if (length ps =? 2)%nat then 0%nat else 1%nat
    | None => 1%nat
    end.
Proof.
  intros Hk Hb. unfold operatorDiagnostics, operatorRules, occurrences.
  rewrite bool_decide_true by done. rewrite Hb.
  repeat (case_match; simplify_eq/=; unfold add; simpl); done.
Qed.

(** The rule for the precedence of a binary operator, as the code has
    it: a precedence from 1 to 255 is accepted; a missing one and 0 get
    "must have a precedence", any other one the range diagnostic. *)
Lemma operator_precedence_rule symbol :
  getKind symbol = KindOperator -> isBinaryOperator symbol = true ->
  filter (fun d => message d = OPERATOR_NEEDS_PRECEDENCE
                   \/ message d = OPERATOR_PRECEDENCE_RANGE)
         (operatorDiagnostics symbol)
  = match precedence symbol with
    | None => [mkDiagnostic (range (method_id symbol)) OPERATOR_NEEDS_PRECEDENCE []]
    | Some p =>
        if (p =? 0)%Z
        then [mkDiagnostic (range (method_id symbol)) OPERATOR_NEEDS_PRECEDENCE []]
        else if (p <? 0)%Z || (255 <? p)%Z
        then [mkDiagnostic (range (method_id symbol)) OPERATOR_PRECEDENCE_RANGE []]
        else []
    end.
Proof.
  intros Hk Hb. unfold operatorDiagnostics, operatorRules.
  rewrite bool_decide_true by done. rewrite Hb.
  destruct (precedence symbol) as [p|]; simpl;
    repeat (case_match; simplify_eq/=; unfold add; simpl); done.
Qed.

(** C4 (amended): for a fixed-size array property with a recorded
    dimension range, [visitProperty] adds, after the diagnostics of the
    default walker, the size diagnostics and then the type diagnostics.
    A size that does not resolve gets exactly the bad-size error; size 1,
    a size above 2048 (and a negative size) get exactly the
    illegal-size error, which is another error; size 0 gets exactly one
    diagnostic; a size from 2 to 2048 gets none.  When [checkTypes] is
    on, an element type that resolves to [bool] or to the native array
    type gets exactly the illegal-array-type diagnostic; when it is off,
    there is no type diagnostic. *)
Theorem visitProperty_fixed_array
    (id_ : Identifier) (dimRange : Range) (size : option Z)
    (type_ : option ITypeSymbol) (a : State) :
  let symbol := mkProperty id_ true (Some dimRange) size type_ in
  exists sizeDiags typeDiags : list IDiagnosticNode,
    diagnostics (visitProperty config super_visitProperty symbol a)
    = diagnostics (super_visitProperty symbol a) ++ sizeDiags ++ typeDiags
    /\ (size = None -> sizeDiags = [mkDiagnostic dimRange BAD_ARRAY_SIZE []])
    /\ (size = Some 0%Z -> length sizeDiags = 1%nat)
    /\ (forall n, size = Some n -> (n <= 1)%Z \/ (2048 < n)%Z -> n <> 0%Z ->
                  sizeDiags = [mkDiagnostic dimRange ILLEGAL_ARRAY_SIZE []])
    /\ (forall n, size = Some n -> (2 <= n <= 2048)%Z -> sizeDiags = [])
    /\ BAD_ARRAY_SIZE <> ILLEGAL_ARRAY_SIZE
    /\ (forall t, type_ = Some t -> checkTypes config = true ->
                  getReference t = Some PredefinedBool
                  \/ getReference t = Some NativeArray ->
                  typeDiags = [mkDiagnostic (range (type_id t))
                                            (ILLEGAL_ARRAY_TYPE (getTypeText t)) []])
    /\ (checkTypes config = false -> typeDiags = [])
    /\ (forall t, type_ = Some t ->
                  getReference t <> Some PredefinedBool ->
                  getReference t <> Some NativeArray -> typeDiags = [])
    /\ (type_ = None -> typeDiags = []).
Proof.
  intros symbol. subst symbol. unfold visitProperty.
  cbn [isFixedArray arrayDimRange getArrayDimSize property_type].
  set (a1 := super_visitProperty _ a).
  set (bad := mkDiagnostic dimRange BAD_ARRAY_SIZE []).
  set (illegal := mkDiagnostic dimRange ILLEGAL_ARRAY_SIZE []).
  exists (match size with
          | None => [bad]
          | Some n => if (n =? 0)%Z then [bad]
                      else if (2048 <? n)%Z || (n <=? 1)%Z then [illegal] else []
          end),
         (match checkTypes config, type_ with
          | true, Some t =>
              if bool_decide (getReference t = Some PredefinedBool)
                 || bool_decide (getReference t = Some NativeArray)
              then [mkDiagnostic (range (type_id t))
                                 (ILLEGAL_ARRAY_TYPE (getTypeText t)) []]
              else []
          | _, _ => []
          end).
  split.
  { destruct size as [n|]; simpl;
      repeat (case_match; simplify_eq/=; unfold add; simpl;
              rewrite ?app_nil_r, <- ?app_assoc); done. }
  split. { by intros ->. }
  split. { by intros ->. }
  split.
  { intros n -> Hn Hz. destruct (Z.eqb_spec n 0) as [|_]; [done|].
    destruct Hn as [Hn|Hn].
    - apply Z.leb_le in Hn as ->. by rewrite orb_true_r.
    - apply Z.ltb_lt in Hn as ->. done. }
  split.
  { intros n -> [Hlo Hhi]. destruct (Z.eqb_spec n 0) as [|_]; [lia|].
    destruct (Z.ltb_spec 2048 n); [lia|].
    destruct (Z.leb_spec n 1); [lia|]. done. }
  split. { done. }
  split.
  { intros t -> -> [Ht|Ht]; rewrite Ht; simpl; done. }
  split. { intros ->. done. }
  split.
  { intros t -> Hb Ha. destruct (checkTypes config); [|done].
    by rewrite !bool_decide_false. }
  intros ->. by destruct (checkTypes config).
Qed.
End Visitor.

Import Samples.

(** What the code does on [optional int a, int b]: it flags exactly [b]
    and the count is 0, the index of [a]. *)
Example optional_then_required_flags_b :
  requiredParamsCount (visitMethod no_descent optional_then_required fresh).1
  = Some 0%nat
  /\ diagnostics (visitMethod no_descent optional_then_required fresh).2
     = [mustBeOptional param_b].
Proof. split; reflexivity. Qed.

(** C3, as stated, fails: on [optional int a, int b] the count is not 1. *)
Lemma optional_then_required_count_is_not_1 :
  requiredParamsCount (visitMethod no_descent optional_then_required fresh).1
  <> Some 1%nat.
Proof. vm_compute. discriminate. Qed.

(** C4, as stated, fails: with [checkTypes] off a fixed array of [bool]
    gets no illegal-array-type diagnostic (here, with size 5, none at
    all). *)
Lemma bool_array_unchecked_without_checkTypes :
  diagnostics (visitProperty not_checking no_descent
                 (fixed_array bool_type (Some 5%Z)) fresh) = [].
Proof. reflexivity. Qed.

Lemma visitProperty_fixed_array_witness :
  diagnostics (visitProperty checking no_descent
                 (fixed_array bool_type (Some 3000%Z)) fresh)
  = [mkDiagnostic (at_line 4) ILLEGAL_ARRAY_SIZE [];
     mkDiagnostic (at_line 3) (ILLEGAL_ARRAY_TYPE "bool") []].
Proof.
  destruct (visitProperty_fixed_array checking no_descent (ident "Values")
              (at_line 4) (Some 3000%Z) (Some bool_type) fresh)
    as (sizeDiags & typeDiags & Heq & _ & _ & Hbig & _ & _ & Hty & _).
  unfold fixed_array. rewrite Heq.
  assert (sizeDiags = [mkDiagnostic (at_line 4) ILLEGAL_ARRAY_SIZE []]) as ->
    by (apply (Hbig 3000%Z); [reflexivity | right; lia | lia]).
  assert (typeDiags = [mkDiagnostic (at_line 3) (ILLEGAL_ARRAY_TYPE "bool") []]) as ->
    by (apply (Hty bool_type); [reflexivity | reflexivity | left; reflexivity]).
  reflexivity.
Defined.

(** Sizes 1, 0 and 3000 get one diagnostic each, size 5 none. *)
Example fixed_array_sizes :
  length (diagnostics (visitProperty checking no_descent
                         (fixed_array int_type (Some 1%Z)) fresh)) = 1%nat
  /\ length (diagnostics (visitProperty checking no_descent
                            (fixed_array int_type (Some 0%Z)) fresh)) = 1%nat
  /\ length (diagnostics (visitProperty checking no_descent
                            (fixed_array int_type (Some 3000%Z)) fresh)) = 1%nat
  /\ diagnostics (visitProperty checking no_descent
                    (fixed_array int_type (Some 5%Z)) fresh) = [].
Proof. repeat split. Qed.

(** C5 fails on precedence 0, which lies in the range 0-255 that the
    code's own message names: the tree builder drops the parsed precedence
    of [final operator(0)], and the analyzer reports "Operator must have a
    precedence." both for the dropped precedence and for a precedence
    of 0. *)
Theorem operator_precedence_zero_is_reported :
  let built :=
    (DocumentASTWalker.functionDeclSymbol
       [DocumentASTWalker.mkSpecifier DocumentASTWalker.KW_FINAL None;
        DocumentASTWalker.mkSpecifier DocumentASTWalker.KW_OPERATOR (Some 0%Z)]).1 in
  DocumentASTWalker.method_class built = DocumentASTWalker.BinaryOperatorSymbol
  /\ DocumentASTWalker.precedence built = None
  /\ diagnostics (visitMethod no_descent (final_operator None) fresh).2
     = [mkDiagnostic DEFAULT_RANGE OPERATOR_NEEDS_PRECEDENCE []]
  /\ diagnostics (visitMethod no_descent (final_operator (Some 0%Z)) fresh).2
     = [mkDiagnostic DEFAULT_RANGE OPERATOR_NEEDS_PRECEDENCE []]
  /\ diagnostics (visitMethod no_descent (final_operator (Some 1%Z)) fresh).2 = [].
Proof. repeat split. Qed.

End AnalyzerFacts.

(** ** The tree builder *)
Module WalkerFacts.
Import Symbols Diagnostics Document DocumentASTWalker StoreFacts.

(** Allocating symbols and writing to the heap leave the document and the
    scope stack alone. *)
Lemma same_frame_refl w : same_frame w w.
Proof. by split. Qed.

Lemma same_frame_trans w1 w2 w3 :
  same_frame w1 w2 -> same_frame w2 w3 -> same_frame w1 w3.
Proof. intros [? ?] [? ?]. split; congruence. Qed.

Lemma same_frame_upd_heap f w : same_frame w (upd_heap f w).
Proof. by split. Qed.

Lemma same_frame_alloc o w : same_frame w (alloc o w).2.
Proof. by split. Qed.

Create HintDb frame.
#[local] Hint Resolve same_frame_refl same_frame_upd_heap same_frame_alloc : frame.

Lemma same_frame_createQualifiedType ctx kind w :
  same_frame w (createQualifiedType ctx kind w).2.
Proof.
  unfold createQualifiedType.
  destruct (q_left ctx) as [leftId leftRange].
  destruct (q_right ctx) as [[rightId rightRange]|]; simpl; [|by split].
  destruct kind as [[]|]; by split.
Qed.

Lemma same_frame_modifierValues values acc w :
  same_frame w (modifierValues values acc w).2.
Proof.
  revert acc w. induction values as [|v values IH]; intros acc w; simpl.
  - auto with frame.
  - eapply same_frame_trans; [|apply IH]. by split.
Qed.

Lemma same_frame_classModifiers symbol ms w :
  same_frame w (classModifiers symbol ms w).
Proof.
  revert w. induction ms as [|m ms IH]; intros w; simpl; [auto with frame|].
  eapply same_frame_trans; [|apply IH].
  repeat case_match; auto with frame;
    match goal with
    | H : modifierValues ?v ?a ?w = (_, ?w') |- _ =>
        pose proof (same_frame_modifierValues v a w) as Hf;
        rewrite H in Hf; simpl in Hf
    end;
    (eapply same_frame_trans; [exact Hf | auto with frame]).
Qed.

Section Walker.
Variable UCPackage_addSymbol : Ref -> Ref -> Store -> Store.

Lemma declare_frame symbol ctx w top :
  scope w = Some top ->
  exists w', declare UCPackage_addSymbol symbol ctx w = Some w'
             /\ same_frame w w' /\ nextRef w' = nextRef w.
Proof.
  intros Htop. unfold declare. rewrite Htop. simpl.
  destruct ctx; eexists; (split; [reflexivity|]); by split.
Qed.

(** Declaring into a struct scope. *)
Lemma declare_struct symbol ctx w scope_ :
  scope w = Some scope_ ->
  instanceof_UCStructSymbol (cls (heap w !!! scope_)) = true ->
  exists w',
    declare UCPackage_addSymbol symbol ctx w = Some w'
    /\ heap w'
       = match ctx with
         | Some c => assign symbol (set_description (fetchSurroundingComments c))
         | None => fun st => st
         end (UCStructSymbol.addSymbol scope_ symbol (heap w))
    /\ nextRef w' = nextRef w
    /\ scopes w' = scopes w.
Proof.
  intros Hscope Hstruct. unfold declare. rewrite Hscope.
  cbn [mbind option_bind].
  destruct ctx; (eexists; split; [reflexivity|]);
    unfold upd_heap, container_addSymbol; cbn [heap nextRef scopes];
    rewrite Hstruct; done.
Qed.

(** C9: only one class declaration is accepted per document.  When the
    document's class slot is already set, [visitClassDecl] pushes one
    syntax-error node with the range of the declaration and returns
    [undefined]: no symbol is created, nothing is added to a scope or to
    the document's symbols, the scope stack is not pushed and the class
    slot keeps its value.  Otherwise (with a scope to declare into) it
    returns the new class symbol with the document's class slot set to
    it and the symbol on top of the scope stack, ready for the members
    that follow. *)
Theorem visitClassDecl_single_class (ctx : ClassDeclContext) (w : State) :
  (forall c, class (DocumentASTWalker.document w) = Some c ->
     exists node w',
       visitClassDecl UCPackage_addSymbol ctx w = Some (None, w')
       /\ nodes (DocumentASTWalker.document w')
          = nodes (DocumentASTWalker.document w) ++ [node]
       /\ isSyntaxErrorNode node = true
       /\ Diagnostics.getRange (heap w') node = rangeFromCtx (class_ctx ctx)
       /\ class (DocumentASTWalker.document w') = Some c
       /\ symbols (DocumentASTWalker.document w')
          = symbols (DocumentASTWalker.document w)
       /\ heap w' = heap w /\ nextRef w' = nextRef w
       /\ scopes w' = scopes w)
  /\ (forall top, class (DocumentASTWalker.document w) = None ->
        scope w = Some top ->
        exists symbol w',
          visitClassDecl UCPackage_addSymbol ctx w = Some (Some symbol, w')
          /\ symbol = nextRef w
          /\ class (DocumentASTWalker.document w') = Some symbol
          /\ scope w' = Some symbol
          /\ scopes w' = scopes w ++ [symbol]
          /\ nodes (DocumentASTWalker.document w')
             = nodes (DocumentASTWalker.document w)).
Proof.
  split.
  - intros c Hc. unfold visitClassDecl. rewrite Hc.
    eexists _, _. split; [reflexivity|]. simpl. by rewrite Hc.
  - intros top Hnone Htop. unfold visitClassDecl. rewrite Hnone.
    cbn [alloc].
    set (w4 := upd_document (Document.addSymbol (nextRef w)) _).
    assert (Hw4 : scopes w4 = scopes w
                  /\ class (DocumentASTWalker.document w4) = Some (nextRef w)
                  /\ nodes (DocumentASTWalker.document w4)
                     = nodes (DocumentASTWalker.document w)) by done.
    destruct Hw4 as (Hs4 & Hc4 & Hn4).
    set (w5 := match extendsClause ctx with Some _ => _ | None => _ end).
    assert (Hw5 : same_frame w4 w5).
    { subst w5. destruct (extendsClause ctx) as [q|]; [|auto with frame].
      pose proof (same_frame_createQualifiedType q (Some KindClass) w4) as Hf.
      destruct (createQualifiedType q (Some KindClass) w4) as [t w'].
      eapply same_frame_trans; [exact Hf | auto with frame]. }
    set (w6 := match withinClause ctx with Some _ => _ | None => _ end).
    assert (Hw6 : same_frame w5 w6).
    { subst w6. destruct (withinClause ctx) as [q|]; [|auto with frame].
      pose proof (same_frame_createQualifiedType q (Some KindClass) w5) as Hf.
      destruct (createQualifiedType q (Some KindClass) w5) as [t w'].
      eapply same_frame_trans; [exact Hf | auto with frame]. }
    pose proof (same_frame_classModifiers (nextRef w) (classModifier ctx) w6) as Hw7.
    set (w7 := classModifiers _ _ w6) in *.
    assert (Hall : same_frame w4 w7)
      by (eapply same_frame_trans; [|exact Hw7];
          eapply same_frame_trans; eassumption).
    destruct Hall as [Hd7 Hs7].
    destruct (declare_frame (nextRef w) (Some (class_ctx ctx)) w7 top)
      as (w8 & Hdecl & [Hd8 Hs8] & _).
    { unfold scope. rewrite Hs7, Hs4. exact Htop. }
    rewrite Hdecl. simpl.
    eexists _, _. split; [reflexivity|].
    split; [reflexivity|].
    unfold scope, push. simpl. rewrite Hd8, Hd7, Hs8, Hs7, Hs4.
    repeat split; try done. apply last_snoc.
Qed.

(** One round of the member loop: the new member is the head of the
    enum's child list and carries its name and the counter; nothing else
    changes. *)
Lemma enum_member_step e memberNode count w :
  scope w = Some e -> (e < nextRef w)%nat ->
  instanceof_UCStructSymbol (cls (heap w !!! e)) = true ->
  exists w1,
    visitEnumMember UCPackage_addSymbol memberNode w = Some (nextRef w, w1)
    /\ let w3 := upd_heap (assign (nextRef w) (set_value (Some count)))
                 (upd_heap (assign (nextRef w) (set_outer (Some e))) w1) in
       scopes w3 = scopes w
       /\ nextRef w3 = S (nextRef w)
       /\ cls (heap w3 !!! e) = cls (heap w !!! e)
       /\ children (heap w3 !!! e) = nextRef w :: children (heap w !!! e)
       /\ getName (heap w3 !!! nextRef w) = name (member_identifier memberNode)
       /\ value (heap w3 !!! nextRef w) = Some count
       /\ (forall r, r <> nextRef w -> r <> e -> heap w3 !!! r = heap w !!! r).
Proof.
  intros Hscope Hlt Hstruct.
  assert (Hne : e <> nextRef w) by lia.
  unfold visitEnumMember, declare. cbn [alloc].
  unfold scope in *. cbn [scopes]. rewrite Hscope. cbn [mbind option_bind].
  eexists. split; [reflexivity|]. cbn zeta.
  unfold upd_heap, setEnumMember, set_EnumMembers. cbn [heap scopes nextRef].
  unfold container_addSymbol.
  rewrite (lookup_total_insert_ne (heap w)) by lia.
  rewrite Hstruct.
  set (st1 := <[nextRef w := _]> (heap w)).
  assert (Hst1 : forall r, r <> nextRef w -> st1 !!! r = heap w !!! r)
    by (intros; subst st1; by rewrite lookup_total_insert_ne).
  assert (Hst1m : st1 !!! nextRef w
                  = new UCEnumMemberSymbol (member_identifier memberNode) None)
    by (subst st1; by rewrite lookup_total_insert_eq).
  split; [done|]. split; [done|].
  split.
  { rewrite !(assign_ne (nextRef w) e) by lia.
    rewrite (proj1 (addSymbol_cls_id e (nextRef w) e st1)). by rewrite Hst1. }
  split.
  { rewrite !(assign_ne (nextRef w) e) by lia.
    rewrite addSymbol_children by done. by rewrite Hst1. }
  split.
  { rewrite !assign_eq. rewrite addSymbol_symbol by done. by rewrite Hst1m. }
  split.
  { rewrite !assign_eq. reflexivity. }
  intros r Hr Hre. rewrite !assign_ne by done.
  rewrite addSymbol_other by done. by apply Hst1.
Qed.

Lemma enumMembers_loop_spec e memberNodes : forall count w,
  scope w = Some e -> (e < nextRef w)%nat ->
  instanceof_UCStructSymbol (cls (heap w !!! e)) = true ->
  exists w',
    enumMembers_loop UCPackage_addSymbol e memberNodes count w
    = Some ((count + Z.of_nat (length memberNodes))%Z, w')
    /\ scopes w' = scopes w
    /\ nextRef w' = (nextRef w + length memberNodes)%nat
    /\ cls (heap w' !!! e) = cls (heap w !!! e)
    /\ children (heap w' !!! e)
       = rev (seq (nextRef w) (length memberNodes)) ++ children (heap w !!! e)
    /\ (forall i m, memberNodes !! i = Some m ->
           getName (heap w' !!! (nextRef w + i)%nat) = name (member_identifier m)
           /\ value (heap w' !!! (nextRef w + i)%nat)
              = Some (count + Z.of_nat i)%Z)
    /\ (forall r, (r < nextRef w)%nat -> r <> e -> heap w' !!! r = heap w !!! r).
Proof.
  induction memberNodes as [|m rest IH]; intros count w Hscope Hlt Hstruct.
  - exists w. simpl. rewrite Z.add_0_r, Nat.add_0_r.
    repeat split; done.
  - destruct (enum_member_step e m count w Hscope Hlt Hstruct)
      as (w1 & Hvisit & Hstep).
    cbn zeta in Hstep.
    set (w3 := upd_heap _ (upd_heap _ w1)) in Hstep.
    destruct Hstep as (Hs3 & Hn3 & Hc3 & Hch3 & Hname3 & Hval3 & Hframe3).
    destruct (IH (count + 1)%Z w3) as (w' & Hloop & Hs & Hn & Hc & Hch & Hmem & Hframe).
    { unfold scope. by rewrite Hs3. }
    { lia. }
    { by rewrite Hc3. }
    exists w'. cbn [enumMembers_loop]. rewrite Hvisit. cbn [mbind option_bind].
    fold w3. rewrite Hloop.
    split. { do 2 f_equal. cbn [length]. lia. }
    split. { congruence. }
    split. { rewrite Hn, Hn3. cbn [length]. lia. }
    split. { congruence. }
    split.
    { rewrite Hch, Hch3, Hn3. cbn [length seq rev].
      by rewrite <- app_assoc. }
    split.
    { intros [|i] m' Hi; simpl in Hi.
      - simplify_eq. rewrite Nat.add_0_r, Z.add_0_r.
        rewrite Hframe by lia. done.
      - destruct (Hmem i m' Hi) as [Hnm Hvl].
        rewrite Hn3 in Hnm, Hvl.
        replace (nextRef w + S i)%nat with (S (nextRef w) + i)%nat by lia.
        rewrite Hnm, Hvl. split; [done|]. f_equal. lia. }
    intros r Hr Hre. rewrite Hframe by lia. apply Hframe3; lia.
Qed.

(** C2: building an enum declaration gives each declared member its
    zero-based position in declaration order as [value] and then appends
    the synthesized member [EnumCount], whose [value] is the number of
    declared members.  (The enum is declared in a struct scope [top].) *)
Theorem visitEnumDecl_ordinals (ctx : EnumDeclContext) (w : State) (top : Ref) :
  scope w = Some top -> (top < nextRef w)%nat ->
  instanceof_UCStructSymbol (cls (heap w !!! top)) = true ->
  exists e w',
    visitEnumDecl UCPackage_addSymbol ctx w = Some (e, w')
    /\ cls (heap w' !!! e) = UCEnumSymbol
    /\ children (heap w' !!! top) = e :: children (heap w !!! top)
    /\ scopes w' = scopes w
    /\ Readout.members (heap w') e
       = imap (fun i m => (name (member_identifier m), Some (Z.of_nat i)))
              (enumMember ctx)
         ++ [(Names.NAME_ENUMCOUNT, Some (Z.of_nat (length (enumMember ctx))))].
Proof.
  intros Hscope Hlt Hstruct.
  set (e := nextRef w).
  assert (Hne : top <> e) by (subst e; lia).
  unfold visitEnumDecl. cbn [alloc]. fold e.
  set (w1 := mkState _ _ _ _ _ _).
  set (st0 := <[e := new UCEnumSymbol (enum_identifier ctx)
                         (Some (rangeFromBounds (enum_ctx ctx)))]> (heap w)).
  assert (Hst0e : st0 !!! e = new UCEnumSymbol (enum_identifier ctx)
                                  (Some (rangeFromBounds (enum_ctx ctx))))
    by (subst st0; apply lookup_total_insert_eq).
  assert (Hst0 : forall r, r <> e -> st0 !!! r = heap w !!! r)
    by (intros; subst st0; by rewrite lookup_total_insert_ne).
  destruct (declare_struct e (Some (enum_ctx ctx)) w1 top)
    as (w2 & Hdecl & Hh2 & Hn2 & Hs2).
  { exact Hscope. }
  { cbn [w1 heap]. fold st0. by rewrite Hst0. }
  rewrite Hdecl. cbn [mbind option_bind].
  set (w4 := push e (ObjectsTable_addSymbol e w2)).
  cbn [w1 heap] in Hh2. fold st0 in Hh2.
  set (st1 := assign e _ (UCStructSymbol.addSymbol top e st0)) in Hh2.
  assert (Hh4 : heap w4 = st1) by (rewrite <- Hh2; reflexivity).
  assert (Hn4 : nextRef w4 = S e) by (cbn; rewrite Hn2; reflexivity).
  assert (Hs4 : scopes w4 = scopes w ++ [e]) by (cbn; rewrite Hs2; reflexivity).
  assert (Hst1e : cls (st1 !!! e) = UCEnumSymbol /\ children (st1 !!! e) = []).
  { subst st1. rewrite assign_eq, addSymbol_symbol by done.
    rewrite Hst0e. done. }
  assert (Hst1top : children (st1 !!! top) = e :: children (heap w !!! top)).
  { subst st1. rewrite assign_ne by done.
    rewrite addSymbol_children by done. by rewrite Hst0. }
  destruct Hst1e as [Hcls1 Hch1].
  destruct (enumMembers_loop_spec e (enumMember ctx) 0%Z w4)
    as (w5 & Hloop & Hs5 & Hn5 & Hc5 & Hch5 & Hmem5 & Hframe5).
  { unfold scope. rewrite Hs4. apply last_snoc. }
  { rewrite Hn4. lia. }
  { rewrite Hh4, Hcls1. done. }
  rewrite Hloop. cbn [mbind option_bind]. cbn [alloc].
  set (k := length (enumMember ctx)) in *.
  set (r := nextRef w5).
  assert (Hr : r = (S e + k)%nat) by (subst r; rewrite Hn5, Hn4; done).
  assert (Her : e <> r) by lia.
  set (w6 := mkState _ _ _ _ _ _).
  set (st5 := <[r := new UCEnumMemberSymbol
                        (mkIdentifier Names.NAME_ENUMCOUNT
                           (Symbols.getRange (heap w5 !!! e))) None]> (heap w5)).
  assert (Hst5 : forall x, x <> r -> st5 !!! x = heap w5 !!! x)
    by (intros; subst st5; by rewrite lookup_total_insert_ne).
  assert (Hst5r : getName (st5 !!! r) = Names.NAME_ENUMCOUNT)
    by (subst st5; by rewrite lookup_total_insert_eq).
  destruct (declare_struct r None w6 e) as (w7 & Hdecl7 & Hh7 & Hn7 & Hs7).
  { unfold scope. cbn [w6 scopes]. rewrite Hs5, Hs4. apply last_snoc. }
  { cbn [w6 heap]. fold st5. rewrite Hst5 by done. by rewrite Hc5, Hh4, Hcls1. }
  rewrite Hdecl7. cbn [mbind option_bind].
  cbn [w6 heap scopes] in Hh7, Hs7. fold st5 in Hh7.
  eexists e, _. split; [reflexivity|].
  cbn [pop upd_heap heap scopes set_scopes]. rewrite Hh7.
  set (st9 := assign r (set_value _) (assign r (set_outer _)
                (UCStructSymbol.addSymbol e r st5))).
  assert (Hst9 : forall x, x <> r -> x <> e -> st9 !!! x = heap w5 !!! x).
  { intros x Hx Hxe. subst st9. rewrite !assign_ne by done.
    rewrite addSymbol_other by done. by apply Hst5. }
  assert (Hst9e : cls (st9 !!! e) = UCEnumSymbol
                  /\ children (st9 !!! e) = r :: rev (seq (S e) k)).
  { subst st9. rewrite !(assign_ne r e) by done. split.
    - rewrite (proj1 (addSymbol_cls_id e r e st5)).
      rewrite Hst5 by done. by rewrite Hc5, Hh4.
    - rewrite addSymbol_children by done. rewrite Hst5 by done.
      rewrite Hch5, Hh4, Hch1, Hn4, app_nil_r. done. }
  assert (Hst9r : getName (st9 !!! r) = Names.NAME_ENUMCOUNT
                  /\ value (st9 !!! r) = Some (Z.of_nat k)).
  { subst st9. rewrite !assign_eq. rewrite addSymbol_symbol by done.
    split; [exact Hst5r|]. cbn; f_equal; lia. }
  assert (Hst9top : st9 !!! top = st1 !!! top).
  { rewrite Hst9 by lia. rewrite Hframe5; [by rewrite Hh4| rewrite Hn4; lia | done]. }
  split; [apply Hst9e|].
  split; [by rewrite Hst9top|].
  split. { rewrite Hs7, Hs5, Hs4. apply removelast_last. }
  unfold Readout.members, Readout.declarationOrder.
  rewrite (proj2 Hst9e). cbn [rev]. rewrite rev_involutive, fmap_app.
  cbn [fmap list_fmap]. rewrite (proj1 Hst9r), (proj2 Hst9r). f_equal.
  apply list_eq. intros i.
  rewrite list_lookup_fmap, list_lookup_imap.
  destruct (decide (i < k)%nat) as [Hi|Hi].
  - rewrite lookup_seq_lt by done. cbn [fmap option_fmap option_map].
    destruct (lookup_lt_is_Some_2 (enumMember ctx) i Hi) as [m Hm].
    rewrite Hm. cbn [fmap option_fmap option_map]. f_equal.
    destruct (Hmem5 i m Hm) as [Hname Hval]. rewrite Hn4 in Hname, Hval.
    rewrite Hst9 by lia. rewrite Z.add_0_l in Hval.
    f_equal; [exact Hname | exact Hval].
  - rewrite lookup_seq_ge by lia.
    rewrite (lookup_ge_None_2 (enumMember ctx) i) by (fold k; lia). done.
Qed.
End Walker.

Import Samples.

(** [enum E { A, B, C }]: A=0, B=1, C=2 and the sentinel with 3. *)
Lemma visitEnumDecl_ordinals_witness :
  exists e w',
    visitEnumDecl no_package_effect enum_E in_class_Foo = Some (e, w')
    /\ Readout.members (heap w') e
       = [("A", Some 0%Z); ("B", Some 1%Z); ("C", Some 2%Z);
          ("EnumCount", Some 3%Z)].
Proof.
  destruct (visitEnumDecl_ordinals no_package_effect enum_E in_class_Foo 1)
    as (e & w' & Hvisit & _ & _ & _ & Hmembers).
  - reflexivity.
  - simpl. lia.
  - reflexivity.
  - exists e, w'. split; [exact Hvisit | exact Hmembers].
Defined.

(** The same, by running the tree builder. *)
Example enum_E_members :
  (fun r => Readout.members (heap r.2) r.1)
    <$> visitEnumDecl no_package_effect enum_E in_class_Foo
  = Some [("A", Some 0%Z); ("B", Some 1%Z); ("C", Some 2%Z);
          ("EnumCount", Some 3%Z)].
Proof. vm_compute. reflexivity. Qed.

(** The first class declaration of a document is accepted, a second one
    is answered with a syntax error. *)
Lemma visitClassDecl_single_class_witness :
  (exists w',
     visitClassDecl no_package_effect class_Foo before_class = Some (Some 1, w')
     /\ class (DocumentASTWalker.document w') = Some 1
     /\ scope w' = Some 1)
  /\ (exists node w',
        visitClassDecl no_package_effect class_Foo in_class_Foo = Some (None, w')
        /\ nodes (DocumentASTWalker.document w') = [node]
        /\ isSyntaxErrorNode node = true
        /\ scopes w' = [0; 1]).
Proof.
  split.
  - destruct (visitClassDecl_single_class no_package_effect class_Foo before_class)
      as [_ Hfirst].
    destruct (Hfirst 0) as (symbol & w' & Hvisit & Hsym & Hclass & Hscope & _).
    + reflexivity.
    + reflexivity.
    + simpl in Hsym. subst symbol. exists w'. by repeat split.
  - destruct (visitClassDecl_single_class no_package_effect class_Foo in_class_Foo)
      as [Hsecond _].
    destruct (Hsecond 1) as (node & w' & Hvisit & Hnodes & Hsyntax & _ & _ & _ & _ & _ & Hscopes).
    + reflexivity.
    + exists node, w'. by repeat split.
Defined.

End WalkerFacts.

(** ** The index pass *)
Module IndexFacts.
Import Symbols IndexPass IndexOrder StoreFacts.

Lemma same_shape_refl this st : same_shape this st st.
Proof. by repeat split. Qed.

Lemma same_shape_trans this st1 st2 st3 :
  same_shape this st1 st2 -> same_shape this st2 st3 -> same_shape this st1 st3.
Proof.
  intros (? & ? & ? & ? & ? & ? & Hc) (? & ? & ? & ? & ? & ? & Hc').
  repeat (split; [congruence|]).
  intros r. by rewrite Hc', Hc.
Qed.

Lemma same_shape_set_super this v st :
  same_shape this st (assign this (set_super v) st).
Proof.
  repeat (split; [by rewrite assign_eq|]).
  intros r. by apply assign_cls_id.
Qed.

Lemma same_shape_set_document this v st :
  same_shape this st (assign this (set_document v) st).
Proof.
  repeat (split; [by rewrite assign_eq|]).
  intros r. by apply assign_cls_id.
Qed.


Section Index.
Variable dispatch : IndexCall -> Store -> Store.
Variable getReference : Ref -> Store -> option Ref.
Variable this : Ref.

Hypothesis Hshape : keeps_shape dispatch this.

Lemma invoke_shape c s : same_shape this (heap s) (heap (invoke dispatch c s)).
Proof. apply Hshape. Qed.

Lemma invoke_calls c s : calls (invoke dispatch c s) = calls s ++ [c].
Proof. reflexivity. Qed.

Lemma foldl_invoke {A} (f : A -> IndexCall) (l : list A) s :
  let s' := foldl (fun s' x => invoke dispatch (f x) s') s l in
  calls s' = calls s ++ (f <$> l) /\ same_shape this (heap s) (heap s').
Proof.
  revert s. induction l as [|x l IH]; intros s; simpl.
  - rewrite app_nil_r. split; [done | apply same_shape_refl].
  - destruct (IH (invoke dispatch (f x) s)) as [Hc Hs].
    rewrite Hc. simpl. rewrite <- app_assoc. split; [done|].
    eapply same_shape_trans; [apply invoke_shape | exact Hs].
Qed.

Lemma foldl_invoke_children document_ (l : list Ref) s :
  let s' := foldl (fun s' child =>
                     if is_nested_type (heap s') child then s'
                     else invoke dispatch (mkCall child document_ this) s') s l in
  calls s'
  = calls s
    ++ ((fun child => mkCall child document_ this)
          <$> filter (fun child => is_nested_type (heap s) child = false) l)
  /\ same_shape this (heap s) (heap s').
Proof.
  revert s. induction l as [|x l IH]; intros s; simpl.
  - rewrite app_nil_r. split; [done | apply same_shape_refl].
  - destruct (is_nested_type (heap s) x) eqn:E.
    + rewrite filter_cons_False by congruence. apply IH.
    + rewrite filter_cons_True by done.
      destruct (IH (invoke dispatch (mkCall x document_ this) s)) as [Hc Hs].
      pose proof (invoke_shape (mkCall x document_ this) s) as Hi.
      rewrite Hc. simpl. rewrite <- app_assoc. split.
      * do 3 f_equal. apply list_filter_iff. intros child.
        unfold is_nested_type. destruct Hi as (_ & _ & _ & _ & _ & _ & Hcls).
        by rewrite Hcls.
      * eapply same_shape_trans; [exact Hi | exact Hs].
Qed.

Lemma index_extendsType_spec document_ context s :
  let s' := index_extendsType dispatch getReference this document_ context s in
  calls s'
  = calls s ++ match extendsType (heap s !!! this) with
               | Some t => [mkCall t document_ context]
               | None => []
               end
  /\ same_shape this (heap s) (heap s').
Proof.
  unfold index_extendsType. destruct (extendsType (heap s !!! this)) as [t|].
  - destruct (super _) as [x|]; simpl.
    + split; [done | apply Hshape].
    + split; [done|]. eapply same_shape_trans; [apply Hshape|].
      apply same_shape_set_super.
  - simpl. rewrite app_nil_r. split; [done | apply same_shape_refl].
Qed.

Lemma index_children_spec document_ s :
  let sym := heap s !!! this in
  let s' := index_children dispatch this document_ s in
  calls s'
  = calls s
    ++ match children sym with
       | [] => []
       | _ :: _ => (fun t => mkCall t document_ this) <$> map_values (types sym)
       end
    ++ ((fun child => mkCall child document_ this)
          <$> filter (fun child => is_nested_type (heap s) child = false)
                     (children sym))
  /\ same_shape this (heap s) (heap s').
Proof.
  intros sym s'. subst s'. unfold index_children. fold sym.
  destruct (children sym) as [|c0 cs] eqn:Ech.
  - simpl. rewrite app_nil_r. split; [done | apply same_shape_refl].
  - destruct (foldl_invoke (fun t => mkCall t document_ this)
                (map_values (types sym)) s) as [Hct Hst].
    cbn zeta in Hct, Hst.
    set (s2 := foldl _ s (map_values _)) in *.
    destruct (foldl_invoke_children document_ (children (heap s2 !!! this)) s2)
      as [Hcc Hsc].
    cbn zeta in Hcc, Hsc.
    pose proof Hst as (Hch2 & _ & _ & _ & _ & _ & Hcls2).
    rewrite Hch2 in Hcc, Hsc |- *. fold sym in Hcc, Hsc |- *.
    rewrite Ech in Hcc, Hsc |- *.
    split.
    + rewrite Hcc, Hct. rewrite <- app_assoc.
      do 3 f_equal. apply list_filter_iff. intros child.
      unfold is_nested_type. by rewrite Hcls2.
    + eapply same_shape_trans; [exact Hst | exact Hsc].
Qed.

(** The calls a struct makes, in order. *)
Lemma UCStructSymbol_index_calls document_ context s :
  let s' := UCStructSymbol_index dispatch getReference this document_ context s in
  calls s' = calls s ++ struct_calls (heap s) this document_ context
  /\ same_shape this (heap s) (heap s').
Proof.
  intros s'. subst s'. unfold UCStructSymbol_index.
  destruct (index_extendsType_spec document_ context s) as [Hc1 Hs1].
  cbn zeta in Hc1, Hs1.
  set (s1 := index_extendsType _ _ _ _ _ s) in *.
  destruct (index_children_spec document_ s1) as [Hc2 Hs2].
  cbn zeta in Hc2, Hs2.
  set (s3 := index_children _ _ _ s1) in *.
  assert (Hs13 : same_shape this (heap s) (heap s3))
    by (eapply same_shape_trans; eassumption).
  pose proof Hs1 as (Hch1 & Hty1 & Hsb1 & _ & _ & _ & Hcls1).
  pose proof Hs13 as (_ & _ & Hsb3 & _).
  assert (Hfilter :
    filter (fun child => is_nested_type (heap s1) child = false)
           (children (heap s !!! this))
    = filter (fun child => is_nested_type (heap s) child = false)
             (children (heap s !!! this))).
  { apply list_filter_iff. intros child. unfold is_nested_type. by rewrite Hcls1. }
  unfold index_scriptBlock, struct_calls. rewrite Hsb3.
  destruct (scriptBlock (heap s !!! this)) as [b|].
  - rewrite invoke_calls, Hc2, Hc1, Hch1, Hty1, Hfilter.
    rewrite <- !app_assoc. split; [done|].
    eapply same_shape_trans; [exact Hs13 | apply Hshape].
  - rewrite Hc2, Hc1, Hch1, Hty1, Hfilter, app_nil_r.
    rewrite <- !app_assoc. split; [done | exact Hs13].
Qed.


(** Declaring [ds] in this order puts them on the child list in the
    reverse order. *)
Lemma addSymbol_declaration_order (ds : list Ref) : forall st,
  this ∉ ds ->
  children (foldl (fun st' d => UCStructSymbol.addSymbol this d st') st ds !!! this)
  = rev ds ++ children (st !!! this).
Proof.
  induction ds as [|d ds IH]; intros st Hnot; simpl; [done|].
  apply not_elem_of_cons in Hnot as [Hd Hds].
  rewrite IH by done. rewrite addSymbol_children by done.
  by rewrite <- app_assoc.
Qed.

(** The [super] link after the extends clause is indexed: kept if a
    callee has set it, taken from the resolved reference otherwise. *)
Lemma index_extendsType_super document_ context s :
  super (heap (index_extendsType dispatch getReference this document_ context s)
         !!! this)
  = match extendsType (heap s !!! this) with
    | Some t =>
        let after := dispatch (mkCall t document_ context) (heap s) in
        match super (after !!! this) with
        | Some already => Some already
        | None => getReference t after
        end
    | None => super (heap s !!! this)
    end.
Proof.
  unfold index_extendsType.
  destruct (extendsType (heap s !!! this)) as [t|]; [|done]. cbn zeta.
  cbn [invoke heap].
  destruct (super (dispatch _ (heap s) !!! this)) as [x|] eqn:E.
  + exact E.
  + cbn [upd_heap heap]. by rewrite assign_eq.
Qed.


End Index.

(** *** Callees that agree once the class is marked as indexed *)
Section Agree.
Variable d1 d2 : IndexCall -> Store -> Store.
Variable getReference : Ref -> Store -> option Ref.
Variable this : Ref.

Hypothesis Hagree :
  forall c st, indexed this st -> d1 c st = d2 c st /\ indexed this (d2 c st).

Lemma indexed_set_super v st :
  indexed this st -> indexed this (assign this (set_super v) st).
Proof. unfold indexed. by rewrite assign_eq. Qed.

Lemma invoke_agree c s :
  indexed this (heap s) ->
  invoke d1 c s = invoke d2 c s /\ indexed this (heap (invoke d2 c s)).
Proof.
  intros Hi. destruct (Hagree c (heap s) Hi) as [Heq Hi'].
  unfold invoke. rewrite Heq. by split.
Qed.

Lemma foldl_agree {A} (f : A -> IndexCall) (l : list A) s :
  indexed this (heap s) ->
  foldl (fun s' x => invoke d1 (f x) s') s l
  = foldl (fun s' x => invoke d2 (f x) s') s l
  /\ indexed this (heap (foldl (fun s' x => invoke d2 (f x) s') s l)).
Proof.
  revert s. induction l as [|x l IH]; intros s Hi; simpl; [by split|].
  destruct (invoke_agree (f x) s Hi) as [-> Hi']. by apply IH.
Qed.

Lemma foldl_children_agree document_ (l : list Ref) s :
  indexed this (heap s) ->
  let step d := fun s' child =>
                  if is_nested_type (heap s') child then s'
                  else invoke d (mkCall child document_ this) s' in
  foldl (step d1) s l = foldl (step d2) s l
  /\ indexed this (heap (foldl (step d2) s l)).
Proof.
  revert s. induction l as [|x l IH]; intros s Hi; simpl; [by split|].
  destruct (is_nested_type (heap s) x); [by apply IH|].
  destruct (invoke_agree (mkCall x document_ this) s Hi) as [-> Hi'].
  by apply IH.
Qed.

Lemma index_extendsType_agree document_ context s :
  indexed this (heap s) ->
  index_extendsType d1 getReference this document_ context s
  = index_extendsType d2 getReference this document_ context s
  /\ indexed this (heap (index_extendsType d2 getReference this document_ context s)).
Proof.
  intros Hi. unfold index_extendsType.
  destruct (extendsType (heap s !!! this)) as [t|]; [|by split].
  destruct (invoke_agree (mkCall t document_ context) s Hi) as [-> Hi'].
  destruct (super _); [by split|]. split; [done|].
  by apply indexed_set_super.
Qed.

Lemma index_children_agree document_ s :
  indexed this (heap s) ->
  index_children d1 this document_ s = index_children d2 this document_ s
  /\ indexed this (heap (index_children d2 this document_ s)).
Proof.
  intros Hi. unfold index_children.
  destruct (children (heap s !!! this)) as [|c0 cs]; [by split|].
  destruct (foldl_agree (fun t => mkCall t document_ this)
              (map_values (types (heap s !!! this))) s Hi) as [-> Hi'].
  by apply foldl_children_agree.
Qed.

Lemma UCStructSymbol_index_agree document_ context s :
  indexed this (heap s) ->
  UCStructSymbol_index d1 getReference this document_ context s
  = UCStructSymbol_index d2 getReference this document_ context s
  /\ indexed this
       (heap (UCStructSymbol_index d2 getReference this document_ context s)).
Proof.
  intros Hi. unfold UCStructSymbol_index.
  destruct (index_extendsType_agree document_ context s Hi) as [-> Hi1].
  destruct (index_children_agree document_ _ Hi1) as [-> Hi2].
  unfold index_scriptBlock. destruct (scriptBlock _); [|by split].
  by apply invoke_agree.
Qed.

Lemma index_withinType_agree document_ context s :
  indexed this (heap s) ->
  index_withinType d1 getReference this document_ context s
  = index_withinType d2 getReference this document_ context s
  /\ indexed this (heap (index_withinType d2 getReference this document_ context s)).
Proof.
  intros Hi. unfold index_withinType.
  destruct (withinType (heap s !!! this)) as [w|]; [|by split].
  destruct (invoke_agree (mkCall w document_ context) s Hi) as [-> Hi'].
  split; [done|]. by apply indexed_set_super.
Qed.

Lemma UCClassSymbol_index_agree document_ context s :
  indexed this (heap s) ->
  UCClassSymbol_index d1 getReference this document_ context s
  = UCClassSymbol_index d2 getReference this document_ context s
  /\ indexed this
       (heap (UCClassSymbol_index d2 getReference this document_ context s)).
Proof.
  intros Hi. unfold UCClassSymbol_index.
  destruct (index_withinType_agree document_ context s Hi) as [-> Hi1].
  set (s1 := index_withinType d2 getReference this document_ context s) in *.
  assert (H2 : index_dependsOnTypes d1 this document_ context s1
               = index_dependsOnTypes d2 this document_ context s1
               /\ indexed this (heap (index_dependsOnTypes d2 this document_ context s1))).
  { unfold index_dependsOnTypes.
    destruct (dependsOnTypes (heap s1 !!! this)) as [l|]; [|by split].
    by apply (foldl_agree (fun r => mkCall r document_ context)). }
  destruct H2 as [-> Hi2].
  set (s2 := index_dependsOnTypes d2 this document_ context s1) in *.
  assert (H3 : index_implementsTypes d1 this document_ context s2
               = index_implementsTypes d2 this document_ context s2
               /\ indexed this (heap (index_implementsTypes d2 this document_ context s2))).
  { unfold index_implementsTypes.
    destruct (implementsTypes (heap s2 !!! this)) as [l|]; [|by split].
    by apply (foldl_agree (fun r => mkCall r document_ context)). }
  destruct H3 as [-> Hi3].
  by apply UCStructSymbol_index_agree.
Qed.
End Agree.

Section Once.
Variable dispatch : IndexCall -> Store -> Store.
Variable getReference : Ref -> Store -> option Ref.
Variable this : Ref.

Hypothesis Hkeeps : keeps_indexed dispatch this.

Lemma UCDocumentClassSymbol_index_guard document_ context s :
  indexed this (heap s) ->
  UCDocumentClassSymbol_index dispatch getReference this document_ context s = s.
Proof.
  intros [d Hd]. unfold UCDocumentClassSymbol_index. by rewrite Hd.
Qed.

Lemma UCDocumentClassSymbol_index_indexed document_ context s :
  indexed this
    (heap (UCDocumentClassSymbol_index dispatch getReference this
             document_ context s)).
Proof.
  unfold UCDocumentClassSymbol_index.
  destruct (document (heap s !!! this)) as [d|] eqn:E.
  - unfold indexed. by rewrite E.
  - apply (UCClassSymbol_index_agree dispatch dispatch getReference this).
    + intros c st Hi. split; [done | by apply Hkeeps].
    + unfold indexed. cbn [upd_heap heap]. by rewrite assign_eq.
Qed.

(** C7: a document class indexes itself at most once.  A call to
    [index] on a class whose [document] is set makes no call and leaves
    the state as it is; after a call to [index] the [document] is set,
    so a second call changes nothing; and a call made from within, by a
    callee during the first call, finds [document] set at that moment
    and has no effect on the result. *)
Theorem UCDocumentClassSymbol_index_once :
  (forall document_ context s,
     indexed this (heap s) ->
     UCDocumentClassSymbol_index dispatch getReference this document_ context s = s)
  /\ (forall document_ context s,
        indexed this
          (heap (UCDocumentClassSymbol_index dispatch getReference this
                   document_ context s)))
  /\ (forall document1 context1 document2 context2 s,
        UCDocumentClassSymbol_index dispatch getReference this document2 context2
          (UCDocumentClassSymbol_index dispatch getReference this
             document1 context1 s)
        = UCDocumentClassSymbol_index dispatch getReference this
            document1 context1 s)
  /\ (forall document_ context document' context' s,
        UCDocumentClassSymbol_index
          (reentering dispatch getReference this document' context')
          getReference this document_ context s
        = UCDocumentClassSymbol_index dispatch getReference this
            document_ context s).
Proof.
  split; [exact UCDocumentClassSymbol_index_guard|].
  split; [exact UCDocumentClassSymbol_index_indexed|].
  split.
  - intros. apply UCDocumentClassSymbol_index_guard.
    apply UCDocumentClassSymbol_index_indexed.
  - intros document_ context document' context' s.
    unfold UCDocumentClassSymbol_index.
    destruct (document (heap s !!! this)) as [d|] eqn:E; [done|].
    apply (UCClassSymbol_index_agree _ dispatch getReference this).
    + intros c st Hi. split; [|by apply Hkeeps].
      unfold reentering.
      rewrite UCDocumentClassSymbol_index_guard; [done|].
      by apply Hkeeps.
    + unfold indexed. cbn [upd_heap heap]. by rewrite assign_eq.
Qed.
End Once.

Import Samples.

Lemma no_effect_keeps_shape this : keeps_shape no_effect this.
Proof. intros c st. apply same_shape_refl. Qed.



Lemma no_effect_keeps_indexed this : keeps_indexed no_effect this.
Proof. intros c st Hi. exact Hi. Qed.

(** Class B indexed twice, and indexed with callees that call back. *)
Lemma UCDocumentClassSymbol_index_once_witness :
  UCDocumentClassSymbol_index no_effect stored_reference 1 "Other.uc" 0 B_indexed
  = B_indexed
  /\ UCDocumentClassSymbol_index
       (reentering no_effect stored_reference 1 "Other.uc" 0)
       stored_reference 1 "B.uc" 1 (mkIndexState classes_AB [])
     = B_indexed
  /\ document (heap B_indexed !!! 1) = Some "B.uc"
  /\ target <$> calls B_indexed = [3].
Proof.
  destruct (UCDocumentClassSymbol_index_once no_effect stored_reference 1
              (no_effect_keeps_indexed 1)) as (_ & _ & Htwice & Hreenter).
  split; [apply Htwice|]. split; [apply Hreenter|].
  split; reflexivity.
Defined.

End IndexFacts.

(** ** Name resolution *)
Module ResolutionFacts.
Import Symbols UCStructSymbol Resolution StoreFacts.

(** The loop of [findSymbol], by its stages. *)
Lemma findSymbol_stages fuel st this i :
  findSymbol (S fuel) st this i
  = first_match (concat (child_stages fuel st i <$> children (st !!! this))).
Proof.
  cbn [findSymbol]. induction (children (st !!! this)) as [|c cs IH]; [done|].
  cbn [fmap list_fmap concat child_stages app first_match].
  destruct (Names.str_eq _ i); [done|].
  destruct (instanceof_UCEnumSymbol _); [|exact IH].
  destruct (findSymbol fuel st c i) as [[m|]|]; [done | exact IH | done].
Qed.

Lemma findSuperSymbol_stages fuel st this i :
  findSuperSymbol (S fuel) st this i = first_match (struct_stages fuel st this i).
Proof.
  cbn [findSuperSymbol]. unfold struct_stages. cbn [first_match].
  destruct (Names.str_eq i _); [done|].
  destruct (findSymbol fuel st this i) as [[m|]|]; [done| |done].
  destruct (super (st !!! this)) as [sup|].
  - destruct (instanceof_UCMethodSymbol (cls (st !!! this))); cbn [negb orb].
    + destruct (outer (st !!! this)) as [o|]; [|done].
      cbn [andb]. by destruct (instanceof_UCStructSymbol _), (findSuperSymbol fuel st o i) as [[?|]|].
    + destruct (findSuperSymbol fuel st sup i) as [[m|]|]; [done| |done].
      destruct (instanceof_UCStateSymbol _); [|by destruct (outer _)].
      destruct (outer (st !!! this)) as [o|]; [|done].
      cbn [andb]. by destruct (instanceof_UCStructSymbol _), (findSuperSymbol fuel st o i) as [[?|]|].
  - destruct (instanceof_UCMethodSymbol _ || instanceof_UCStateSymbol _);
      [|by destruct (outer _)].
    destruct (outer (st !!! this)) as [o|]; [|done].
    cbn [andb]. by destruct (instanceof_UCStructSymbol _), (findSuperSymbol fuel st o i) as [[?|]|].
Qed.

(** Stagewise: if every stage keeps its answer, so does the lookup. *)
Lemma first_match_keeps (l l' : list Lookup) :
  Forall2 keeps_answer l l' ->
  keeps_answer (first_match l) (first_match l').
Proof.
  induction 1 as [|a b l l' Hab _ IH]; [by intros ? ?|].
  intros r. cbn [first_match]. destruct a as [[m|]|]; [| |done].
  - by rewrite (Hab _ eq_refl).
  - rewrite (Hab _ eq_refl). apply IH.
Qed.

Lemma keeps_answer_refl a : keeps_answer a a.
Proof. by intros r. Qed.

(** More fuel does not change an answer. *)
Lemma findSymbol_fuel fuel : forall st this i,
  keeps_answer (findSymbol fuel st this i) (findSymbol (S fuel) st this i).
Proof.
  induction fuel as [|fuel IH]; intros st this i; [by intros ? ?|].
  rewrite !findSymbol_stages. apply first_match_keeps.
  induction (children (st !!! this)) as [|c cs IHcs]; [constructor|].
  cbn [fmap list_fmap concat child_stages app].
  constructor; [apply keeps_answer_refl|].
  constructor; [|exact IHcs].
  destruct (instanceof_UCEnumSymbol _); [apply IH | apply keeps_answer_refl].
Qed.

Lemma findSuperSymbol_fuel fuel : forall st this i,
  keeps_answer (findSuperSymbol fuel st this i) (findSuperSymbol (S fuel) st this i).
Proof.
  induction fuel as [|fuel IH]; intros st this i; [by intros ? ?|].
  rewrite !findSuperSymbol_stages. apply first_match_keeps.
  unfold struct_stages.
  constructor; [apply keeps_answer_refl|].
  constructor; [apply findSymbol_fuel|].
  constructor.
  { destruct (super _); [|apply keeps_answer_refl].
    destruct (instanceof_UCMethodSymbol _); [apply keeps_answer_refl | apply IH]. }
  constructor; [|constructor].
  destruct (outer _); [|apply keeps_answer_refl].
  destruct (_ && _); [apply IH | apply keeps_answer_refl].
Qed.

Lemma findSuperSymbol_fuel_le fuel fuel' st this i r :
  (fuel <= fuel')%nat ->
  findSuperSymbol fuel st this i = Some r ->
  findSuperSymbol fuel' st this i = Some r.
Proof.
  induction 1 as [|fuel' _ IH]; [done|].
  intros H. by apply findSuperSymbol_fuel, IH.
Qed.

(** *** Lookups on a symbol graph without cycles *)

Lemma first_match_is_Some (l : list Lookup) :
  Forall is_Some l -> is_Some (first_match l).
Proof.
  induction 1 as [|a l [r ->] _ IH]; [by eexists|].
  destruct r; [by eexists | exact IH].
Qed.

(** The test [rankedb] decides [ranked]: an object that is not in the
    store has no links. *)
Lemma rankedb_sound (st : Store) (rank : Ref -> nat) :
  Acyclic.rankedb st rank = true -> Acyclic.ranked st rank.
Proof.
  intros H r. rewrite lookup_total_alt.
  destruct (st !! r) as [s|] eqn:E.
  2: { repeat split; [intros ? Hx; by vm_compute in Hx ..|].
       intros c Hc. by apply elem_of_nil in Hc. }
  unfold Acyclic.rankedb in H. rewrite forallb_forall in H.
  specialize (H (r, s)). cbn [fst snd] in H.
  assert (Hrs : Acyclic.ranked_at rank st r s = true).
  { apply H. apply list_elem_of_In. by apply elem_of_map_to_list. }
  clear H. unfold Acyclic.ranked_at in Hrs.
  apply andb_prop in Hrs as [Hrs Hc]. apply andb_prop in Hrs as [Hs Ho].
  change (default inhabitant (Some s)) with s. repeat split.
  - intros sup Hsup. rewrite Hsup in Hs. by apply bool_decide_eq_true in Hs.
  - intros o Houter Hms. rewrite Houter, Hms in Ho. cbn [negb orb] in Ho.
    by apply bool_decide_eq_true in Ho.
  - intros c Hin Henum. rewrite forallb_forall in Hc.
    specialize (Hc c). rewrite Henum in Hc. cbn [negb orb] in Hc.
    eapply bool_decide_eq_true_1, Hc. by apply list_elem_of_In.
Qed.

(** The test [struct_supersb] decides [struct_supers]. *)
Lemma struct_supersb_sound (st : Store) :
  Acyclic.struct_supersb st = true -> Acyclic.struct_supers st.
Proof.
  intros H r sup. rewrite (lookup_total_alt st r).
  destruct (st !! r) as [s|] eqn:E; [|intros Hx; by vm_compute in Hx].
  unfold Acyclic.struct_supersb in H. rewrite forallb_forall in H.
  specialize (H (r, s)). cbn [fst snd] in H.
  change (default inhabitant (Some s)) with s. intros Hsup.
  rewrite Hsup in H. apply H.
  apply list_elem_of_In. by apply elem_of_map_to_list.
Qed.

Lemma findSymbol_returns (st : Store) (rank : Ref -> nat) (i : string) :
  Acyclic.ranked st rank ->
  forall fuel this, (rank this < fuel)%nat -> is_Some (findSymbol fuel st this i).
Proof.
  intros Hranked. induction fuel as [|fuel IH]; intros this Hfuel; [lia|].
  rewrite findSymbol_stages. apply first_match_is_Some.
  apply Forall_concat, Forall_fmap, Forall_forall. intros c Hc.
  unfold child_stages. repeat constructor.
  - by destruct (Names.str_eq _ _).
  - destruct (instanceof_UCEnumSymbol (cls (st !!! c))) eqn:Henum; [|done].
    apply IH. destruct (Hranked this) as (_ & _ & Hchild).
    specialize (Hchild c Hc Henum). lia.
Qed.

(** With a rank that falls along the links of the lookup, a call stack
    of twice the rank (and two) is enough for [findSuperSymbol]. *)
Lemma findSuperSymbol_ranked (st : Store) (rank : Ref -> nat) (i : string) :
  Acyclic.ranked st rank ->
  forall fuel this,
    (2 * rank this + 2 <= fuel)%nat -> is_Some (findSuperSymbol fuel st this i).
Proof.
  intros Hranked.
  induction fuel as [|fuel IH]; intros this Hfuel; [lia|].
  rewrite findSuperSymbol_stages. apply first_match_is_Some.
  destruct (Hranked this) as (Hsuper & Houter & _).
  unfold struct_stages. repeat constructor.
  - by destruct (Names.str_eq _ _).
  - apply (findSymbol_returns st rank i Hranked). lia.
  - destruct (super (st !!! this)) as [sup|] eqn:Hsup; [|done].
    destruct (instanceof_UCMethodSymbol _); [done|].
    apply IH. specialize (Hsuper sup eq_refl). lia.
  - destruct (outer (st !!! this)) as [o|] eqn:Ho; [|done].
    destruct (instanceof_UCMethodSymbol _ || instanceof_UCStateSymbol _) eqn:Hms;
      [|done].
    cbn [andb]. destruct (instanceof_UCStructSymbol _); [|done].
    apply IH. specialize (Houter o eq_refl eq_refl). lia.
Qed.

(** Setting what a reference refers to changes no link and no class: the
    rank that falls along the links still does. *)
Lemma ranked_set_reference (st : Store) (rank : Ref -> nat) (r : Ref)
    (v : option Ref) :
  Acyclic.ranked st rank -> Acyclic.ranked (assign r (set_reference v) st) rank.
Proof.
  intros Hranked r'.
  assert (Hcls : forall c, cls (assign r (set_reference v) st !!! c) = cls (st !!! c)).
  { intros c. by apply assign_cls_id. }
  assert (Hlinks : super (assign r (set_reference v) st !!! r') = super (st !!! r')
                   /\ outer (assign r (set_reference v) st !!! r') = outer (st !!! r')
                   /\ children (assign r (set_reference v) st !!! r')
                      = children (st !!! r')).
  { destruct (decide (r = r')) as [->|Hne].
    - by rewrite assign_eq.
    - by rewrite assign_ne. }
  destruct Hlinks as (-> & -> & ->). rewrite !Hcls.
  destruct (Hranked r') as (Hsuper & Houter & Hchild).
  repeat split; [exact Hsuper | exact Houter |].
  intros c Hc. rewrite Hcls. by apply Hchild.
Qed.

End ResolutionFacts.

(** ** Member expressions *)
Module ExpressionFacts.
Import Symbols Diagnostics Document Expressions StoreFacts.

(** [index] adds no diagnostic node, whatever it resolves. *)
Lemma index_nodes fuel t e context st doc st' doc' :
  index fuel t e context (st, doc) = Some (st', doc') ->
  nodes doc' = nodes doc.
Proof.
  unfold index, setReference.
  repeat (case_match; simplify_eq/=); try done;
    intros; simplify_option_eq; repeat (case_match; simplify_eq/=); done.
Qed.

(** A bare member reference: the target is what [findSuperSymbol] finds
    in the context, and failing that the enum member of that name. *)
Lemma index_bare fuel t e context st doc found :
  outer_is_UCCallExpression (shape e) = false ->
  UCStructSymbol.findSuperSymbol fuel st context (getId st e) = Some found ->
  exists doc',
    index fuel t e context (st, doc)
    = Some (match or_else found (getEnumMember t (getId st e)) with
            | Some symbol => assign (symbolRef e) (set_reference (Some symbol)) st
            | None => st
            end, doc').
Proof.
  intros Hcall Hfound. unfold index. rewrite Hcall, Hfound.
  cbn [mbind option_bind].
  destruct (or_else found _); cbn; eauto.
Qed.

(** When every lookup fails, [index] returns and changes nothing. *)
Lemma index_failure fuel t e context st doc :
  (outer_is_UCCallExpression (shape e) = true ->
     TypeCastMap t !! getId st e = None
     /\ ClassesTable t !! getId st e = None
     /\ ObjectsTable t !! getId st e = None) ->
  UCStructSymbol.findSuperSymbol fuel st context (getId st e) = Some None ->
  getEnumMember t (getId st e) = None ->
  index fuel t e context (st, doc) = Some (st, doc).
Proof.
  intros Hcall Hfound Henum. unfold index.
  destruct (outer_is_UCCallExpression (shape e)).
  - destruct (Hcall eq_refl) as (-> & -> & ->). cbn [or_else].
    rewrite Hfound. cbn [mbind option_bind or_else]. by rewrite Henum.
  - rewrite Hfound. cbn [mbind option_bind or_else]. by rewrite Henum.
Qed.

(** What [analyze] pushes. *)
Lemma analyze_nodes e context st doc :
  analyze e context (st, doc)
  = (st,
     match context with
     | Some c =>
         if instanceof_UCStructSymbol (cls (st !!! c))
         then match getMemberSymbol st e with
              | Some _ => doc
              | None => push_node (UnrecognizedFieldNode (symbolRef e) context) doc
              end
         else push_node (SemanticErrorNode (symbolRef e) (InaccessibleType c)) doc
     | None =>
         match getMemberSymbol st e with
         | Some _ => doc
         | None => push_node (UnrecognizedFieldNode (symbolRef e) context) doc
         end
     end).
Proof.
  unfold analyze.
  destruct context as [c|]; [destruct (instanceof_UCStructSymbol _)|];
    cbn [negb]; destruct (getMemberSymbol st e) eqn:E;
    rewrite ?bool_decide_true, ?bool_decide_false by (by rewrite ?is_Some_alt);
    try done.
Qed.

(** On a symbol graph without cycles [index] returns in every struct
    context. *)
Lemma index_returns (rank : Ref -> nat) fuel t e context st doc :
  Acyclic.ranked st rank ->
  (2 * rank context + 2 <= fuel)%nat ->
  is_Some (index fuel t e context (st, doc)).
Proof.
  intros Hranked Hfuel. unfold index, setReference. cbn [fst negb].
  assert (Hlookup : forall st1,
            Acyclic.ranked st1 rank ->
            is_Some (found ← UCStructSymbol.findSuperSymbol fuel st1 context
                                (getId st e);
                     match or_else found (getEnumMember t (getId st e)) with
                     | Some symbol =>
                         Some (assign (symbolRef e) (set_reference (Some symbol)) st1,
                               push_usage
                                 (mkUsage symbol (symbolRef e)
                                    (assignmentTarget (shape e))) doc)
                     | None => Some (st1, doc)
                     end)).
  { intros st1 H1.
    destruct (ResolutionFacts.findSuperSymbol_ranked st1 rank (getId st e) H1
                fuel context Hfuel) as [found ->].
    cbn [mbind option_bind]. by destruct (or_else found _). }
  destruct (outer_is_UCCallExpression (shape e)); [|by apply Hlookup].
  destruct (TypeCastMap t !! getId st e).
  - by apply Hlookup, ResolutionFacts.ranked_set_reference.
  - destruct (or_else _ _); [done | by apply Hlookup].
Qed.

(** Only a struct has [findSuperSymbol]: a bare reference indexed with a
    context that is [undefined] or no struct throws. *)
Lemma index_member_without_struct fuel t e context st doc :
  outer_is_UCCallExpression (shape e) = false ->
  (forall c, context = Some c ->
     instanceof_UCStructSymbol (cls (st !!! c)) = false) ->
  ExpressionTree.index_member t fuel e context (st, doc) = UCStructSymbol.Threw.
Proof.
  intros Hbare Hcontext.
  unfold ExpressionTree.index_member. cbn [fst]. rewrite Hbare.
  destruct context as [c|]; [|done]. by rewrite (Hcontext c eq_refl).
Qed.

(** C8 (amended): in a struct context, on a symbol graph without cycles
    whose [super] links lead to structs, [index] of a member reference
    returns: it does not throw and the lookup ends.  When no lookup finds
    a symbol it returns with the store and the document unchanged, so the
    target stays as it was; and whenever [index] returns, in whatever
    context, it has pushed no diagnostic node.  [analyze] later pushes the
    unrecognized-field node exactly when the target is unset and the
    context is absent or a struct (a context that is not a struct gets
    the inaccessible-type node instead), and every node it pushes has the
    range of the reference's own identifier.  In the analyzer,
    [visitObjectType] reports "type not found" at the type's own range
    exactly when [checkTypes] is on and the type has no target. *)
Theorem resolution_failure_silent_then_reported :
  (forall (rank : Ref -> nat) fuel t e (c : Ref) st doc,
     Acyclic.ranked st rank ->
     Acyclic.struct_supers st ->
     (2 * rank c + 2 <= fuel)%nat ->
     instanceof_UCStructSymbol (cls (st !!! c)) = true ->
     exists s',
       ExpressionTree.index_member t fuel e (Some c) (st, doc)
       = UCStructSymbol.Returned s'
       /\ nodes s'.2 = nodes doc
       /\ ((outer_is_UCCallExpression (shape e) = true ->
              TypeCastMap t !! getId st e = None
              /\ ClassesTable t !! getId st e = None
              /\ ObjectsTable t !! getId st e = None) ->
           (forall m, UCStructSymbol.findSuperSymbol fuel st c (getId st e)
                      <> Some (Some m)) ->
           getEnumMember t (getId st e) = None ->
           s' = (st, doc)))
  /\ (forall fuel t e context s s',
        ExpressionTree.index_member t fuel e context s = UCStructSymbol.Returned s' ->
        nodes s'.2 = nodes s.2)
  /\ (forall e context st doc,
        exists added,
          (analyze e context (st, doc)).1 = st
          /\ nodes (analyze e context (st, doc)).2 = nodes doc ++ added
          /\ filter (fun n => isUnrecognizedFieldNode n = true) added
             = (if Resolution.accessible st context
                   && negb (bool_decide (is_Some (getMemberSymbol st e)))
                then [UnrecognizedFieldNode (symbolRef e) context] else [])
          /\ Forall (fun n => Diagnostics.getRange st n
                              = range (id (st !!! symbolRef e))) added)
  /\ (forall config super_visitObjectType symbol a,
        DocumentAnalyzer.diagnostics
          (DocumentAnalyzer.visitObjectType config super_visitObjectType symbol a)
        = DocumentAnalyzer.diagnostics (super_visitObjectType symbol a)
          ++ (if DocumentAnalyzer.checkTypes config
                 && negb (bool_decide (is_Some (DocumentAnalyzer.getReference symbol)))
              then [DocumentAnalyzer.mkDiagnostic
                      (range (DocumentAnalyzer.type_id symbol))
                      DocumentAnalyzer.TYPE_0_NOT_FOUND
                      [name (DocumentAnalyzer.type_id symbol)]]
              else [])).
Proof.
  split; [|split; [|split]].
  - intros rank fuel t e c st doc Hranked _ Hfuel Hstruct.
    unfold ExpressionTree.index_member. cbn [fst]. rewrite Hstruct.
    destruct (index_returns rank fuel t e c st doc Hranked Hfuel) as [[st' doc'] Hret].
    rewrite Hret. eexists. split; [reflexivity|]. cbn [snd].
    split; [by eapply index_nodes|].
    intros Htables Hnone Henum.
    destruct (ResolutionFacts.findSuperSymbol_ranked st rank (getId st e) Hranked
                fuel c Hfuel) as [[m|] Hfound]; [by destruct (Hnone m)|].
    rewrite (index_failure fuel t e c st doc Htables Hfound Henum) in Hret.
    by injection Hret as <- <-.
  - intros fuel t e context [st doc] [st' doc'].
    unfold ExpressionTree.index_member, ExpressionTree.refer, setReference.
    cbn [fst snd negb]. intros Hret.
    repeat case_match; simplify_eq; try done.
    by eapply index_nodes.
  - intros e context st doc. rewrite analyze_nodes. unfold Resolution.accessible.
    destruct context as [c|]; [destruct (instanceof_UCStructSymbol _)|];
      destruct (getMemberSymbol st e) as [m|] eqn:E; cbn [andb negb fst snd].
    + exists []. rewrite bool_decide_true by done. by rewrite app_nil_r.
    + eexists [_]. rewrite bool_decide_false by (by rewrite <- eq_None_not_Some).
      repeat split; try done. by repeat constructor.
    + eexists [_]. repeat split; try done. by repeat constructor.
    + eexists [_]. repeat split; try done. by repeat constructor.
    + exists []. rewrite bool_decide_true by done. by rewrite app_nil_r.
    + eexists [_]. rewrite bool_decide_false by (by rewrite <- eq_None_not_Some).
      repeat split; try done. by repeat constructor.
  - intros config sv symbol a. unfold DocumentAnalyzer.visitObjectType.
    destruct (_ && _); [done | by rewrite app_nil_r].
Qed.

Import Samples.

(** C8, as stated, fails: in a context that is not a struct (here the
    property [Foo]) the target is unset, and no unrecognized-field node is
    pushed; the node says that the type is inaccessible. *)
Lemma unresolved_member_in_inaccessible_context :
  getMemberSymbol classes_AB bar = None
  /\ nodes (analyze bar (Some 2) (classes_AB, empty_document)).2
     = [SemanticErrorNode 5 (InaccessibleType 2)]
  /\ filter (fun n => isUnrecognizedFieldNode n = true)
            (nodes (analyze bar (Some 2) (classes_AB, empty_document)).2) = [].
Proof. vm_compute. done. Qed.

(** A case of C8: the reference [Bar] in class [B extends A], which
    declares no such member; four calls deep the lookup has ended. *)
Lemma resolution_failure_silent_then_reported_witness :
  ExpressionTree.index_member no_tables 4 bar (Some 1) (classes_AB, empty_document)
  = UCStructSymbol.Returned (classes_AB, empty_document)
  /\ nodes (analyze bar (Some 1) (classes_AB, empty_document)).2
     = [UnrecognizedFieldNode 5 (Some 1)].
Proof.
  destruct resolution_failure_silent_then_reported
    as (Hsilent & _ & Hloud & _).
  split.
  - destruct (Hsilent rank_AB 4 no_tables bar 1 classes_AB empty_document)
      as (s' & Hret & _ & Hsame).
    + apply ResolutionFacts.rankedb_sound. vm_compute. reflexivity.
    + apply ResolutionFacts.struct_supersb_sound. vm_compute. reflexivity.
    + simpl. lia.
    + reflexivity.
    + assert (Hs : s' = (classes_AB, empty_document)).
      { apply Hsame.
        - discriminate.
        - intros m. vm_compute. discriminate.
        - reflexivity. }
      rewrite Hs in Hret. exact Hret.
  - destruct (Hloud bar (Some 1) classes_AB empty_document)
      as (added & _ & Hnodes & _).
    reflexivity.
Defined.

End ExpressionFacts.

(** ** Name resolution of a bare member reference *)
Module NameResolution.
Import Symbols UCStructSymbol Resolution StoreFacts ResolutionFacts.
Import IndexPass Expressions.

Lemma findSymbol_declares_none fuel st s i :
  declares_none st s i -> findSymbol (S fuel) st s i = Some None.
Proof.
  intros Hnone. rewrite findSymbol_stages. unfold declares_none in Hnone.
  induction (children (st !!! s)) as [|c cs IH]; [done|].
  cbn [fmap list_fmap concat child_stages app].
  destruct (Hnone c) as [Hname Henum]; [by left|].
  unfold Names.str_eq. rewrite bool_decide_false by done. rewrite Henum.
  cbn [first_match]. apply IH. intros c' Hc'. apply Hnone. by right.
Qed.

Lemma findSymbol_declares fuel st s i m :
  declares st s i m -> findSymbol (S fuel) st s i = Some (Some m).
Proof.
  intros (before & after & Hch & Hname & Hbefore).
  rewrite findSymbol_stages, Hch. clear Hch.
  induction before as [|c cs IH].
  - cbn [app fmap list_fmap concat child_stages first_match].
    unfold Names.str_eq. by rewrite bool_decide_true.
  - cbn [app fmap list_fmap concat child_stages].
    destruct (Hbefore c) as [Hc Henum]; [by left|].
    unfold Names.str_eq at 1. rewrite bool_decide_false by done. rewrite Henum.
    cbn [first_match]. apply IH. intros c' Hc'. apply Hbefore. by right.
Qed.

(** C1 (amended): the lookup of a bare member reference stops at the
    first match of these stages, in this order: the current struct itself
    when the name is its own lower-case name; its children in the order
    of the child list, each by its lower-case name and, if it is an enum,
    by its members; unless the current struct is a method, the same
    search in its [super] (and so on up the chain); for a method or a
    state whose outer is a struct, the same search in the outer; for the
    reference itself, failing all of that, the global enum-member table.
    A struct whose extends clause is indexed with [super] unset gets the
    resolved symbol of that clause as [super].  For a class B whose
    [super] is A, [B.findSuperSymbol(x)] returns A's member [x] whenever
    [x] is the name of neither class, the search of B's children finds
    nothing and the search of A's children finds that member; the
    search of the children finds nothing when no child has that name and
    none is an enum, and it finds the first child of that name when no
    enum stands before it. *)
Theorem findSuperSymbol_resolution_order :
  (forall fuel st this i,
     findSuperSymbol (S fuel) st this i = first_match (struct_stages fuel st this i))
  /\ (forall fuel st this i,
        findSymbol (S fuel) st this i
        = first_match (concat (child_stages fuel st i <$> children (st !!! this))))
  /\ (forall fuel t e context st doc found,
        outer_is_UCCallExpression (shape e) = false ->
        findSuperSymbol fuel st context (getId st e) = Some found ->
        exists doc',
          index fuel t e context (st, doc)
          = Some (match or_else found (getEnumMember t (getId st e)) with
                  | Some symbol =>
                      assign (symbolRef e) (set_reference (Some symbol)) st
                  | None => st
                  end, doc'))
  /\ (forall dispatch getReference B t document_ context s,
        extendsType (heap s !!! B) = Some t ->
        super (dispatch (mkCall t document_ context) (heap s) !!! B) = None ->
        super (heap (index_extendsType dispatch getReference B document_ context s)
               !!! B)
        = getReference t (dispatch (mkCall t document_ context) (heap s)))
  /\ (forall st B A i m fuel fuel',
        super (st !!! B) = Some A ->
        instanceof_UCMethodSymbol (cls (st !!! B)) = false ->
        i <> Names.toLowerCase (getName (st !!! B)) ->
        i <> Names.toLowerCase (getName (st !!! A)) ->
        findSymbol fuel st B i = Some None ->
        findSymbol fuel st A i = Some (Some m) ->
        (fuel + 2 <= fuel')%nat ->
        findSuperSymbol fuel' st B i = Some (Some m))
  /\ (forall fuel st s i,
        declares_none st s i -> findSymbol (S fuel) st s i = Some None)
  /\ (forall fuel st s i m,
        declares st s i m -> findSymbol (S fuel) st s i = Some (Some m)).
Proof.
  split; [exact findSuperSymbol_stages|].
  split; [exact findSymbol_stages|].
  split; [exact ExpressionFacts.index_bare|].
  split; [|split; [|split; [exact findSymbol_declares_none
                           | exact findSymbol_declares]]].
  - intros dispatch getReference B t document_ context s Hext Hsuper.
    rewrite IndexFacts.index_extendsType_super, Hext. cbn zeta. by rewrite Hsuper.
  - intros st B A i m fuel fuel' Hsuper Hmethod HB HA Hnone Hdecl Hfuel.
    apply (findSuperSymbol_fuel_le (S (S fuel))); [lia|].
    rewrite findSuperSymbol_stages. unfold struct_stages.
    unfold Names.str_eq at 1. rewrite bool_decide_false by done.
    rewrite (findSymbol_fuel _ _ _ _ _ Hnone).
    rewrite Hsuper, Hmethod. cbn [first_match].
    rewrite findSuperSymbol_stages. unfold struct_stages.
    unfold Names.str_eq at 1. rewrite bool_decide_false by done.
    by rewrite Hdecl.
Qed.

Import Samples.

(** C1, as stated, fails: B declares no member named [b], A has the
    member [B] (4), and [B.findSuperSymbol("b")] returns B itself. *)
Lemma findSuperSymbol_own_name_first :
  declares_none classes_AB 1 "b"
  /\ declares classes_AB 0 "b" 4
  /\ findSuperSymbol 5 classes_AB 1 "b" = Some (Some 1)
  /\ findSuperSymbol 5 classes_AB 1 "b" <> Some (Some 4).
Proof.
  split; [|split; [|split]].
  - intros c Hc. vm_compute in Hc. by apply elem_of_nil in Hc.
  - exists [], [2]. split; [reflexivity|]. split; [reflexivity|].
    intros c Hc. by apply elem_of_nil in Hc.
  - reflexivity.
  - vm_compute. discriminate.
Qed.

Lemma findSuperSymbol_resolution_order_witness :
  findSuperSymbol 5 classes_AB 1 "foo" = Some (Some 2)
  /\ exists doc',
       index 5 no_tables foo 1 (classes_AB_foo, empty_document)
       = Some (assign 6 (set_reference (Some 2)) classes_AB_foo, doc').
Proof.
  destruct findSuperSymbol_resolution_order
    as (_ & _ & Hindex & _ & Hextends & Hnone & Hdeclares).
  split.
  - apply (Hextends classes_AB 1 0 "foo" 2 1 5).
    + reflexivity.
    + reflexivity.
    + discriminate.
    + discriminate.
    + apply Hnone. intros c Hc. vm_compute in Hc. by apply elem_of_nil in Hc.
    + apply Hdeclares. exists [4], []. split; [reflexivity|].
      split; [reflexivity|].
      intros c Hc. apply list_elem_of_singleton in Hc as ->.
      split; [discriminate | reflexivity].
    + lia.
  - apply (Hindex 5 no_tables foo 1 classes_AB_foo empty_document (Some 2));
      reflexivity.
Defined.

End NameResolution.

(** ** Declaring members and finding them again *)
Module MemberFacts.
Import Symbols UCStructSymbol Resolution Acyclic StoreFacts ResolutionFacts.

(** The declared symbol becomes the head of the child list, also when a
    struct is declared in itself. *)
Lemma addSymbol_children_head (this symbol : Ref) (st : Store) :
  children (addSymbol this symbol st !!! this) = symbol :: children (st !!! this).
Proof.
  destruct (decide (this = symbol)) as [->|Hne]; [|by apply addSymbol_children].
  unfold addSymbol. case_match; rewrite !assign_eq; done.
Qed.

(** X1: a member that has just been declared in a struct is what a lookup
    of its lower-case name in that struct answers with, whatever was
    declared under that name before. *)
Theorem addSymbol_findSymbol_newest (fuel : nat) (this symbol : Ref) (st : Store) :
  findSymbol (S fuel) (addSymbol this symbol st) this
    (Names.toLowerCase (getName (st !!! symbol)))
  = Some (Some symbol).
Proof.
  cbn [findSymbol]. rewrite addSymbol_children_head.
  destruct (addSymbol_cls_id this symbol symbol st) as [_ Hid].
  unfold getName. rewrite Hid. unfold Names.str_eq.
  by rewrite bool_decide_true.
Qed.

(** A lookup in a struct whose children are not enums reads the child
    list and the names of the children, nothing else. *)
Lemma findSymbol_agree (fuel : nat) (st st' : Store) (e : Ref) (i : string) :
  children (st' !!! e) = children (st !!! e) ->
  (forall m, m ∈ children (st !!! e) ->
     id (st' !!! m) = id (st !!! m) /\ cls (st' !!! m) = cls (st !!! m)
     /\ instanceof_UCEnumSymbol (cls (st !!! m)) = false) ->
  findSymbol fuel st' e i = findSymbol fuel st e i.
Proof.
  intros Hch Hm. destruct fuel as [|fuel]; [done|].
  rewrite !findSymbol_stages, Hch. f_equal. f_equal.
  apply list_fmap_ext. intros k m Hk.
  destruct (Hm m) as (Hid & Hcls & Henum); [by eapply list_elem_of_lookup_2|].
  unfold child_stages, getName. by rewrite Hid, Hcls, Henum.
Qed.

(** X2: declaring a member that is not an enum leaves the lookup of every
    other name in that struct as it was.  (The enums among the earlier
    members hold no enums themselves, as enums do.) *)
Theorem addSymbol_findSymbol_other (fuel : nat) (this symbol : Ref) (st : Store)
    (i : string) :
  Names.toLowerCase (getName (st !!! symbol)) <> i ->
  instanceof_UCEnumSymbol (cls (st !!! symbol)) = false ->
  (forall e, e ∈ children (st !!! this) ->
     instanceof_UCEnumSymbol (cls (st !!! e)) = true ->
     e <> this
     /\ forall m, m ∈ children (st !!! e) ->
          instanceof_UCEnumSymbol (cls (st !!! m)) = false) ->
  findSymbol fuel (addSymbol this symbol st) this i = findSymbol fuel st this i.
Proof.
  intros Hname Hsym Hflat. destruct fuel as [|fuel]; [done|].
  rewrite !findSymbol_stages, addSymbol_children_head.
  cbn [fmap list_fmap concat app].
  assert (Hhead : child_stages fuel (addSymbol this symbol st) i symbol
                  = [Some None; Some None]).
  { unfold child_stages, getName.
    destruct (addSymbol_cls_id this symbol symbol st) as [-> ->].
    rewrite Hsym. unfold Names.str_eq. by rewrite bool_decide_false. }
  rewrite Hhead. cbn [app first_match]. f_equal. f_equal.
  apply list_fmap_ext. intros k c Hk.
  apply list_elem_of_lookup_2 in Hk.
  unfold child_stages, getName.
  destruct (addSymbol_cls_id this symbol c st) as [-> ->].
  destruct (instanceof_UCEnumSymbol (cls (st !!! c))) eqn:Henum; [|done].
  destruct (Hflat c Hk Henum) as [Hne Hmembers].
  assert (Hcs : c <> symbol) by (intros ->; congruence).
  f_equal. f_equal. apply findSymbol_agree.
  - by rewrite addSymbol_other.
  - intros m Hm. destruct (addSymbol_cls_id this symbol m st) as [-> ->].
    auto.
Qed.

(** A case of X2: in class [A] with the members [Foo] and [B], declaring
    the symbol [Bar] leaves the lookup of [foo] as it was. *)
Lemma addSymbol_findSymbol_other_witness :
  findSymbol 2 (addSymbol 0 5 Samples.classes_AB) 0 "foo"
  = findSymbol 2 Samples.classes_AB 0 "foo".
Proof.
  apply (addSymbol_findSymbol_other 2 0 5 Samples.classes_AB "foo").
  - vm_compute. discriminate.
  - reflexivity.
  - intros e He Henum. exfalso. revert He Henum. vm_compute.
    intros He. apply elem_of_cons in He as [->|He]; [discriminate|].
    apply elem_of_cons in He as [->|He]; [discriminate|].
    by apply elem_of_nil in He.
Defined.

End MemberFacts.

(** ** Lookups that return, and lookups that do not *)
Module LookupTermination.
Import Symbols UCStructSymbol Resolution Acyclic StoreFacts ResolutionFacts.



(** X4: on a cycle of [super] links the lookup of a name that nothing on
    the cycle declares does not return.  [P] holds of structs, none a
    method, each with a [super] in [P], none with the name looked for
    and none declaring it: whatever the call stack allows, the lookup
    from such a struct runs out of it. *)
Theorem findSuperSymbol_super_cycle (P : Ref -> Prop) (st : Store) (i : string) :
  (forall a, P a ->
     exists b, super (st !!! a) = Some b /\ P b
       /\ instanceof_UCMethodSymbol (cls (st !!! a)) = false
       /\ i <> Names.toLowerCase (getName (st !!! a))
       /\ declares_none st a i) ->
  forall fuel a, P a -> findSuperSymbol fuel st a i = None.
Proof.
  intros Hcycle. induction fuel as [|fuel IH]; intros a Ha; [done|].
  destruct (Hcycle a Ha) as (b & Hsuper & Hb & Hmethod & Hname & Hnone).
  rewrite findSuperSymbol_stages. unfold struct_stages.
  unfold Names.str_eq at 1. rewrite bool_decide_false by done.
  cbn [first_match]. destruct fuel as [|fuel]; [done|].
  rewrite (NameResolution.findSymbol_declares_none _ _ _ _ Hnone).
  cbn [first_match]. rewrite Hsuper, Hmethod.
  by rewrite (IH b Hb).
Qed.

(** A case of X4: [class A extends A] and the name [bar], which A does
    not declare. *)
Lemma findSuperSymbol_super_cycle_witness :
  findSuperSymbol 100 Samples.self_extending 0 "bar" = None.
Proof.
  apply (findSuperSymbol_super_cycle (fun a => a = 0) Samples.self_extending "bar");
    [|reflexivity].
  intros a ->. exists 0. split; [reflexivity|]. split; [reflexivity|].
  split; [reflexivity|]. split; [vm_compute; discriminate|].
  intros c Hc. revert Hc. vm_compute. intros Hc.
  apply elem_of_cons in Hc as [->|Hc]; [|by apply elem_of_nil in Hc].
  split; [discriminate | reflexivity].
Defined.

End LookupTermination.

(** ** Type lookup and its cache *)
Module TypeLookupFacts.
Import Symbols UCStructSymbol Acyclic StoreFacts.

Lemma map_get_set_eq {V} (k : string) (v : V) (m : list (string * V)) :
  map_get k (map_set k v m) = Some v.
Proof.
  induction m as [|[k' v'] m IH]; cbn [map_set map_get].
  - unfold Names.str_eq. by rewrite bool_decide_true.
  - destruct (Names.str_eq k' k) eqn:E; cbn [map_get]; rewrite E; [done | exact IH].
Qed.

Lemma cache_get_set_eq (caches : Caches) (this : Ref) (q : string) (r : Ref) :
  cache_get (cache_set caches this q r) this q = Some r.
Proof.
  unfold cache_get, cache_set. rewrite lookup_insert_eq.
  by rewrite lookup_insert_eq.
Qed.

Lemma cache_get_set_ne (caches : Caches) (this s : Ref) (q q' : string) (r : Ref) :
  (s, q') <> (this, q) ->
  cache_get (cache_set caches this q r) s q' = cache_get caches s q'.
Proof.
  intros Hne. unfold cache_get, cache_set.
  destruct (decide (s = this)) as [->|Hs].
  - rewrite lookup_insert_eq.
    rewrite lookup_insert_ne by congruence.
    by destruct (caches !! this).
  - by rewrite lookup_insert_ne.
Qed.

(** The [types] map after a declaration. *)
Lemma addSymbol_types (this symbol : Ref) (st : Store) :
  this <> symbol ->
  types (addSymbol this symbol st !!! this)
  = if instanceof_UCScriptStructSymbol (cls (st !!! symbol))
       || instanceof_UCEnumSymbol (cls (st !!! symbol))
    then map_set (Names.toLowerCase (getName (st !!! symbol))) symbol
                 (types (st !!! this))
    else types (st !!! this).
Proof.
  intros Hne. unfold addSymbol.
  rewrite !(assign_ne this symbol) by done. rewrite !assign_eq.
  cbn [cls set_containingStruct set_outer getName id].
  case_match; rewrite ?assign_eq, ?(assign_ne symbol this) by done; done.
Qed.

(** X5: a struct or enum that has just been declared in a struct is what
    a type lookup of its lower-case name in that struct answers with,
    shallow or deep, without a change to the cache.  (The struct is not a
    method, which would pass the lookup on; it has not cached another
    answer for the name, and the name is not its own.) *)
Theorem addSymbol_findTypeSymbol (fuel : nat) (this symbol : Ref) (st : Store)
    (caches : Caches) (deepSearch : bool) :
  instanceof_UCScriptStructSymbol (cls (st !!! symbol))
  || instanceof_UCEnumSymbol (cls (st !!! symbol)) = true ->
  instanceof_UCMethodSymbol (cls (st !!! this)) = false ->
  cache_get caches this (Names.toLowerCase (getName (st !!! symbol))) = None ->
  Names.toLowerCase (getName (st !!! symbol))
  <> Names.toLowerCase (getName (st !!! this)) ->
  findTypeSymbol (S fuel) (addSymbol this symbol st) caches this
    (Names.toLowerCase (getName (st !!! symbol))) deepSearch
  = Returned (Some symbol, caches).
Proof.
  intros Hnested Hmethod Hcache Hname.
  assert (Hne : this <> symbol) by (intros ->; done).
  cbn [findTypeSymbol].
  destruct (addSymbol_cls_id this symbol this st) as [Hcls Hid].
  unfold getName in *. rewrite Hcls, Hid, Hmethod, Hcache.
  unfold Names.str_eq at 1. rewrite bool_decide_false by done.
  rewrite addSymbol_types by done. unfold getName. rewrite Hnested.
  by rewrite map_get_set_eq.
Qed.

(** A case of X5: the struct [Vec] declared in class [B]. *)
Lemma addSymbol_findTypeSymbol_witness :
  findTypeSymbol 1 (addSymbol 1 4 Samples.classes_AB_Vec) ∅ 1 "vec" false
  = Returned (Some 4, ∅).
Proof.
  apply (addSymbol_findTypeSymbol 0 1 4 Samples.classes_AB_Vec ∅ false).
  - reflexivity.
  - reflexivity.
  - reflexivity.
  - vm_compute. discriminate.
Defined.

(** More fuel does not change an answer of the search without caches. *)
Lemma resolveType_fuel (st : Store) (q : string) (fuel : nat) :
  forall this r,
    resolveType fuel st this q = Returned r ->
    resolveType (S fuel) st this q = Returned r.
Proof.
  induction fuel as [|fuel IH]; intros this r H; [done|].
  cbn [resolveType] in H.
  remember (S fuel) as fuel1 eqn:Hfuel1. cbn [resolveType]. subst fuel1.
  repeat case_match; simplify_eq; try done; by apply IH.
Qed.

Lemma resolveType_fuel_le (st : Store) (q : string) (fuel fuel' : nat) this r :
  (fuel <= fuel')%nat ->
  resolveType fuel st this q = Returned r ->
  resolveType fuel' st this q = Returned r.
Proof.
  induction 1 as [|fuel' _ IH]; [done|].
  intros H. by apply resolveType_fuel, IH.
Qed.

Lemma resolveType_agree (st : Store) (q : string) (f1 f2 : nat) this r1 r2 :
  resolveType f1 st this q = Returned r1 ->
  resolveType f2 st this q = Returned r2 ->
  r1 = r2.
Proof.
  intros H1 H2.
  apply (resolveType_fuel_le _ _ _ (f1 `max` f2)) in H1; [|lia].
  apply (resolveType_fuel_le _ _ _ (f1 `max` f2)) in H2; [|lia].
  congruence.
Qed.

Lemma coherent_empty (st : Store) : coherent st ∅.
Proof. intros s q r H. unfold cache_get in H. by rewrite lookup_empty in H. Qed.

Lemma coherent_set (st : Store) (caches : Caches) (this : Ref) (q : string)
    (r : Ref) (fuel : nat) :
  coherent st caches ->
  resolveType fuel st this q = Returned (Some r) ->
  coherent st (cache_set caches this q r).
Proof.
  intros Hco Hr s q' r' Hget.
  destruct (decide ((s, q') = (this, q))) as [[= -> ->]|Hne].
  - rewrite cache_get_set_eq in Hget. simplify_eq. by exists fuel.
  - rewrite cache_get_set_ne in Hget by done. by apply Hco.
Qed.

(** X6: the cache of the type lookup does not change its answers as long
    as the symbol graph stays as it is.  When every cached answer is one
    that the search without caches gives, a deep search answers what the
    search without caches answers (with the same call stack), and the
    caches it leaves are of that kind again. *)
Theorem findTypeSymbol_cache_transparent (st : Store) (q : string) (fuel : nat) :
  forall (caches : Caches) (this : Ref) (r : option Ref),
    coherent st caches ->
    resolveType fuel st this q = Returned r ->
    exists caches',
      findTypeSymbol fuel st caches this q true = Returned (r, caches')
      /\ coherent st caches'.
Proof.
  induction fuel as [|fuel IH]; intros caches this r Hco Hr; [done|].
  cbn [resolveType] in Hr. cbn [findTypeSymbol].
  destruct (instanceof_UCMethodSymbol (cls (st !!! this))) eqn:Hmethod.
  { destruct (outer (st !!! this)) as [o|]; [|done]. by apply IH. }
  destruct (cache_get caches this q) as [cached|] eqn:Hcache.
  { destruct (Hco _ _ _ Hcache) as [fuel' Hcached].
    assert (Hthis : resolveType (S fuel) st this q = Returned r).
    { cbn [resolveType]. by rewrite Hmethod. }
    rewrite (resolveType_agree _ _ _ _ _ _ _ Hthis Hcached). by exists caches. }
  destruct (Names.str_eq q _) eqn:Hname; [simplify_eq; by exists caches|].
  destruct (map_get q (types (st !!! this))) as [t|] eqn:Htypes;
    [simplify_eq; by exists caches|].
  assert (Hstep : forall target,
            resolveType fuel st target q = Returned r ->
            resolveType (S fuel) st this q = Returned r ->
            exists caches',
              match findTypeSymbol fuel st caches target q true with
              | Returned (Some symbol, caches'0) =>
                  Returned (Some symbol, cache_set caches'0 this q symbol)
              | Returned (None, caches'0) => Returned (None, caches'0)
              | Threw => Threw
              | OutOfFuel => OutOfFuel
              end = Returned (r, caches')
              /\ coherent st caches').
  { intros target Htarget Hthis.
    destruct (IH caches target r Hco Htarget) as (caches1 & -> & Hco1).
    destruct r as [symbol|]; [|by exists caches1].
    eexists. split; [reflexivity|]. by eapply coherent_set. }
  assert (Hthis : resolveType (S fuel) st this q = Returned r).
  { cbn [resolveType]. by rewrite Hmethod, Hname, Htypes. }
  destruct (super (st !!! this)) as [sup|]; [by apply Hstep|].
  destruct (outer (st !!! this)) as [o|]; [|simplify_eq; by exists caches].
  destruct (instanceof_UCStructSymbol (cls (st !!! o)));
    [by apply Hstep | simplify_eq; by exists caches].
Qed.

(** A case of X6: from the method [Run] of class [B extends A], the
    struct [Vec] of class A is found through the empty caches. *)
Lemma findTypeSymbol_cache_transparent_witness :
  exists caches',
    findTypeSymbol 3 Samples.classes_AB_Vec ∅ 3 "vec" true
    = Returned (Some 2, caches')
    /\ coherent Samples.classes_AB_Vec caches'.
Proof.
  apply (findTypeSymbol_cache_transparent Samples.classes_AB_Vec "vec" 3 ∅ 3 (Some 2)).
  - apply coherent_empty.
  - reflexivity.
Defined.

(** X7: an inherited type, once a deep search from a struct has found it,
    is the answer of every later search of that name from that struct,
    shallow or deep, whatever has been declared or relinked in the
    meantime: the entry that the first search has put in the cache is
    read before anything else. *)
Theorem findTypeSymbol_cached_answer_sticks (fuel : nat) (st : Store)
    (caches caches' : Caches) (this : Ref) (q : string) (r : Ref) :
  instanceof_UCMethodSymbol (cls (st !!! this)) = false ->
  cache_get caches this q = None ->
  q <> Names.toLowerCase (getName (st !!! this)) ->
  map_get q (types (st !!! this)) = None ->
  findTypeSymbol fuel st caches this q true = Returned (Some r, caches') ->
  forall (st' : Store) (fuel' : nat) (deepSearch : bool),
    instanceof_UCMethodSymbol (cls (st' !!! this)) = false ->
    findTypeSymbol (S fuel') st' caches' this q deepSearch
    = Returned (Some r, caches').
Proof.
  intros Hmethod Hcache Hname Htypes Hfirst st' fuel' deepSearch Hmethod'.
  destruct fuel as [|fuel]; [done|].
  cbn [findTypeSymbol] in Hfirst.
  rewrite Hmethod, Hcache, Htypes in Hfirst.
  unfold Names.str_eq at 1 in Hfirst. rewrite bool_decide_false in Hfirst by done.
  assert (Hget : cache_get caches' this q = Some r).
  { repeat case_match; simplify_eq; apply cache_get_set_eq. }
  cbn [findTypeSymbol]. by rewrite Hmethod', Hget.
Qed.

(** A case of X7: class [B] finds the struct [Vec] of class A; a struct
    [Vec] declared in B afterwards is not what B answers with. *)
Lemma findTypeSymbol_cached_answer_sticks_witness :
  findTypeSymbol 1 (addSymbol 1 4 Samples.classes_AB_Vec)
    (cache_set ∅ 1 "vec" 2) 1 "vec" false
  = Returned (Some 2, cache_set ∅ 1 "vec" 2).
Proof.
  apply (findTypeSymbol_cached_answer_sticks 2 Samples.classes_AB_Vec ∅
           (cache_set ∅ 1 "vec" 2) 1 "vec" 2);
    try reflexivity.
  vm_compute. discriminate.
Defined.

End TypeLookupFacts.

(** ** Which members the index pass reaches *)
Module IndexCoverage.
Import Symbols UCStructSymbol IndexPass IndexOrder StoreFacts.

Lemma declared_snoc (this : Ref) (ds : list Ref) (d : Ref) (st : Store) :
  declared this (ds ++ [d]) st = addSymbol this d (declared this ds st).
Proof. unfold declared. by rewrite foldl_snoc. Qed.

Lemma declared_cls_id (this : Ref) (ds : list Ref) : forall st r,
  cls (declared this ds st !!! r) = cls (st !!! r)
  /\ id (declared this ds st !!! r) = id (st !!! r).
Proof.
  induction ds as [|d ds IH]; intros st r; [done|].
  cbn [declared foldl]. fold (declared this ds (addSymbol this d st)).
  destruct (IH (addSymbol this d st) r) as [-> ->]. apply addSymbol_cls_id.
Qed.

Lemma is_nested_type_declared (this : Ref) (ds : list Ref) (st : Store) (d : Ref) :
  is_nested_type (declared this ds st) d = is_nested_type st d.
Proof.
  unfold is_nested_type. by destruct (declared_cls_id this ds st d) as [-> _].
Qed.

(** The [types] map after one more declaration. *)
Lemma declared_types_step (this : Ref) (ds : list Ref) (d : Ref) (st0 : Store) :
  this <> d ->
  types (declared this (ds ++ [d]) st0 !!! this)
  = if is_nested_type st0 d
    then map_set (type_key st0 d) d (types (declared this ds st0 !!! this))
    else types (declared this ds st0 !!! this).
Proof.
  intros Hne. rewrite declared_snoc, TypeLookupFacts.addSymbol_types by done.
  unfold is_nested_type, type_key, getName.
  by destruct (declared_cls_id this ds st0 d) as [-> ->].
Qed.

(** A key that the map does not hold goes to its end. *)
Lemma map_set_fresh {V} (k : string) (v : V) (m : list (string * V)) :
  k ∉ m.*1 -> map_set k v m = m ++ [(k, v)].
Proof.
  induction m as [|[k' v'] m IH]; intros Hk; [done|].
  cbn [fmap list_fmap fst] in Hk. apply not_elem_of_cons in Hk as [Hne Hk].
  cbn [map_set]. unfold Names.str_eq. rewrite bool_decide_false by done.
  cbn [app]. f_equal. by apply IH.
Qed.

(** With keys that are all different, the [types] map lists the nested
    types in the order of their declaration. *)
Lemma declared_types (this : Ref) (st0 : Store) (ds : list Ref) :
  types (st0 !!! this) = [] ->
  this ∉ ds ->
  NoDup (type_key st0 <$> filter (fun d => is_nested_type st0 d = true) ds) ->
  types (declared this ds st0 !!! this)
  = (fun d => (type_key st0 d, d))
      <$> filter (fun d => is_nested_type st0 d = true) ds.
Proof.
  intros Hempty. induction ds as [|d ds IH] using rev_ind; intros Hthis Hkeys.
  { done. }
  apply not_elem_of_app in Hthis as [Hthis Hd].
  apply not_elem_of_cons in Hd as [Hd _].
  rewrite declared_types_step by done.
  rewrite filter_app in Hkeys |- *.
  destruct (is_nested_type st0 d) eqn:Hnested.
  - rewrite filter_cons_True, filter_nil in Hkeys |- * by done.
    rewrite fmap_app in Hkeys. rewrite fmap_app.
    cbn [fmap list_fmap] in Hkeys |- *.
    apply NoDup_app in Hkeys as (Hkeys & Hfresh & _).
    rewrite IH by done. apply map_set_fresh.
    rewrite <- list_fmap_compose. intros Hin. apply (Hfresh _ Hin).
    apply list_elem_of_here.
  - rewrite filter_cons_False, filter_nil in Hkeys |- * by congruence.
    rewrite app_nil_r in Hkeys |- *. by apply IH.
Qed.

Lemma filter_rev {A} (P : A -> Prop) `{forall x, Decision (P x)} (l : list A) :
  filter P (rev l) = rev (filter P l).
Proof.
  induction l as [|x l IH]; [done|]. cbn [rev].
  rewrite filter_app, IH, filter_cons.
  destruct (decide (P x)).
  - by rewrite filter_cons_True, filter_nil by done.
  - rewrite filter_cons_False, filter_nil by done. by rewrite app_nil_r.
Qed.

Lemma member_order_Permutation (st : Store) (ds : list Ref) :
  member_order st ds ≡ₚ ds.
Proof.
  unfold member_order. rewrite <- Permutation_rev.
  etrans; [|apply (filter_app_complement (fun d => is_nested_type st d = true) ds)].
  apply Permutation_app; [done|].
  erewrite list_filter_iff; [done|].
  intros d. cbn beta. by destruct (is_nested_type st d).
Qed.

Lemma map_set_key_elem {V} (k k' : string) (v : V) (m : list (string * V)) :
  k' ∈ (map_set k v m).*1 -> k' = k \/ k' ∈ m.*1.
Proof.
  induction m as [|[k0 v0] m IH]; cbn [map_set].
  - intros H. apply list_elem_of_singleton in H. by left.
  - destruct (Names.str_eq k0 k) eqn:E; cbn [fmap list_fmap fst]; intros H.
    + apply bool_decide_eq_true in E as ->. by right.
    + apply elem_of_cons in H as [->|H]; [right; apply list_elem_of_here|].
      destruct (IH H) as [->|Hin]; [by left|].
      right. by apply list_elem_of_further.
Qed.

Lemma map_set_NoDup {V} (k : string) (v : V) (m : list (string * V)) :
  NoDup m.*1 -> NoDup (map_set k v m).*1.
Proof.
  induction m as [|[k0 v0] m IH]; cbn [map_set]; intros Hm.
  - apply NoDup_singleton.
  - destruct (Names.str_eq k0 k) eqn:E; cbn [fmap list_fmap fst] in Hm |- *.
    + exact Hm.
    + apply NoDup_cons in Hm as [Hk0 Hm]. apply NoDup_cons. split; [|by apply IH].
      intros Hin. apply map_set_key_elem in Hin as [->|Hin]; [|done].
      unfold Names.str_eq in E. by rewrite bool_decide_true in E.
Qed.

(** In a map with one entry per key, setting a key leaves one entry with
    it, the new one. *)
Lemma map_set_elem {V} (k k' : string) (v w : V) (m : list (string * V)) :
  NoDup m.*1 ->
  (k', w) ∈ map_set k v m ->
  (k', w) = (k, v) \/ (k' <> k /\ (k', w) ∈ m).
Proof.
  induction m as [|[k0 v0] m IH]; cbn [map_set]; intros Hm H.
  - apply list_elem_of_singleton in H. by left.
  - cbn [fmap list_fmap fst] in Hm. apply NoDup_cons in Hm as [Hk0 Hm].
    destruct (Names.str_eq k0 k) eqn:E.
    + apply bool_decide_eq_true in E as ->.
      apply elem_of_cons in H as [H|H]; [by left|]. right. split.
      * intros ->. apply Hk0. apply list_elem_of_fmap. by exists (k, w).
      * by apply list_elem_of_further.
    + apply bool_decide_eq_false in E.
      apply elem_of_cons in H as [H|H].
      * simplify_eq. right. split; [done | apply list_elem_of_here].
      * destruct (IH Hm H) as [?|[? ?]]; [by left|].
        right. split; [done | by apply list_elem_of_further].
Qed.

(** The [types] map holds one entry per key, each nested type under its
    own key. *)
Lemma declared_types_own_keys (this : Ref) (st0 : Store) (ds : list Ref) :
  types (st0 !!! this) = [] ->
  this ∉ ds ->
  NoDup (types (declared this ds st0 !!! this)).*1
  /\ forall k v, (k, v) ∈ types (declared this ds st0 !!! this) ->
       k = type_key st0 v.
Proof.
  intros Hempty. induction ds as [|d ds IH] using rev_ind; intros Hthis.
  { unfold declared. cbn [foldl]. rewrite Hempty. split; [apply NoDup_nil_2|].
    intros k v H. by apply elem_of_nil in H. }
  apply not_elem_of_app in Hthis as [Hthis Hd].
  apply not_elem_of_cons in Hd as [Hd _].
  destruct (IH Hthis) as [Hkeys Hown].
  rewrite declared_types_step by done.
  destruct (is_nested_type st0 d); [|done].
  split; [by apply map_set_NoDup|].
  intros k v H. apply map_set_elem in H as [[= -> ->]|[_ H]]; [done | by apply Hown | done].
Qed.

(** A nested type whose key is taken again by a nested type declared
    after it is not a value of the [types] map. *)
Lemma shadowed_not_in_types (this : Ref) (st0 : Store) (d1 : Ref) (ds : list Ref) :
  types (st0 !!! this) = [] ->
  this ∉ ds ->
  (exists l1 l2 d2,
     ds = l1 ++ d1 :: l2 /\ (d1 ∉ l2) /\ d2 ∈ l2
     /\ is_nested_type st0 d2 = true
     /\ type_key st0 d2 = type_key st0 d1) ->
  d1 ∉ map_values (types (declared this ds st0 !!! this)).
Proof.
  intros Hempty. induction ds as [|d ds IH] using rev_ind;
    intros Hthis (l1 & l2 & d2 & Hds & Hd1 & Hd2 & Hnested & Hkey).
  { by destruct l1. }
  destruct l2 as [|d' l2 _] using rev_ind; [by apply elem_of_nil in Hd2|].
  change (l1 ++ (d1 :: (l2 ++ [d']))) with (l1 ++ ((d1 :: l2) ++ [d'])) in Hds.
  rewrite app_assoc in Hds. apply app_inj_tail in Hds as [-> <-].
  apply not_elem_of_app in Hthis as [Hthis Hd].
  apply not_elem_of_cons in Hd as [Hd _].
  apply not_elem_of_app in Hd1 as [Hd1 Hd1d].
  apply not_elem_of_cons in Hd1d as [Hd1d _].
  destruct (declared_types_own_keys this st0 (l1 ++ d1 :: l2) Hempty Hthis)
    as [Hkeys Hown].
  rewrite declared_types_step by done.
  apply elem_of_app in Hd2 as [Hd2|Hd2].
  - (* an earlier member has taken the key already *)
    assert (Hbefore :
      d1 ∉ map_values (types (declared this (l1 ++ d1 :: l2) st0 !!! this))).
    { apply IH; [done|]. by exists l1, l2, d2. }
    destruct (is_nested_type st0 d); [|done].
    unfold map_values. intros Hin.
    apply list_elem_of_fmap in Hin as ([k w] & Hw & Hin). cbn [snd] in Hw. subst w.
    apply map_set_elem in Hin as [[= _ ->]|[_ Hin]]; [done| |done].
    apply Hbefore. unfold map_values. apply list_elem_of_fmap. by exists (k, d1).
  - (* the member declared last takes the key *)
    apply list_elem_of_singleton in Hd2 as ->. rewrite Hnested.
    unfold map_values. intros Hin.
    apply list_elem_of_fmap in Hin as ([k w] & Hw & Hin). cbn [snd] in Hw. subst w.
    apply map_set_elem in Hin as [[= _ ->]|[Hne Hin]]; [done| |done].
    apply Hne. rewrite Hkey. by apply Hown.
Qed.

Section Index.
Variable dispatch : IndexCall -> Store -> Store.
Variable getReference : Ref -> Store -> option Ref.
Variable this : Ref.

(** X8: a struct indexes every member it declares, and each once.  For
    members declared in a struct that had none, the nested types under
    lower-case names that are all different, the index calls of the
    struct are the call on its extends clause (if it has one), one call
    on each member (the nested types in the order of their declaration,
    then the other members, the newest first) and the call on its script
    block (if it has one); the members called are, up to their order,
    the members declared.  (No callee restructures the struct.) *)
Theorem index_reaches_every_member_once (document_ : string) (context : Ref)
    (st0 : Store) (ds : list Ref) :
  keeps_shape dispatch this ->
  children (st0 !!! this) = [] ->
  types (st0 !!! this) = [] ->
  this ∉ ds ->
  NoDup (type_key st0 <$> filter (fun d => is_nested_type st0 d = true) ds) ->
  let st := declared this ds st0 in
  calls (UCStructSymbol_index dispatch getReference this document_ context
           (mkIndexState st []))
  = match extendsType (st !!! this) with
    | Some t => [mkCall t document_ context]
    | None => []
    end
    ++ ((fun d => mkCall d document_ this) <$> member_order st0 ds)
    ++ match scriptBlock (st !!! this) with
       | Some b => [mkCall b document_ this]
       | None => []
       end
  /\ member_order st0 ds ≡ₚ ds.
Proof.
  intros Hshape Hchildren Htypes Hthis Hkeys st.
  split; [|apply member_order_Permutation].
  destruct (IndexFacts.UCStructSymbol_index_calls dispatch getReference this
              Hshape document_ context (mkIndexState st [])) as [-> _].
  cbn [calls heap app]. unfold struct_calls. f_equal.
  rewrite app_assoc. f_equal.
  unfold member_order. rewrite fmap_app. subst st.
  rewrite (IndexFacts.addSymbol_declaration_order this ds st0 Hthis : 
             children (declared this ds st0 !!! this) = _).
  rewrite Hchildren, app_nil_r, declared_types by done.
  f_equal.
  - destruct ds as [|d ds] using rev_ind; [done|].
    rewrite rev_unit. unfold map_values.
    rewrite <- list_fmap_compose. by rewrite <- list_fmap_compose.
  - f_equal. rewrite <- filter_rev. apply list_filter_iff. intros d.
    by rewrite is_nested_type_declared.
Qed.

(** X9: a nested struct or enum whose lower-case name is taken again by
    a nested type declared after it in the same struct is not indexed by
    that struct: the later type has its entry in the [types] map, and the
    loop over the children skips every nested type.  ([d1] is declared
    before [d2]; the struct had no members before, its extends clause
    and script block are not [d1], and no callee restructures it.) *)
Theorem shadowed_nested_type_is_not_indexed (document_ : string) (context : Ref)
    (st0 : Store) (l1 l2 : list Ref) (d1 d2 : Ref) :
  keeps_shape dispatch this ->
  children (st0 !!! this) = [] ->
  types (st0 !!! this) = [] ->
  this ∉ l1 ++ d1 :: l2 ->
  d1 ∉ l2 ->
  d2 ∈ l2 ->
  is_nested_type st0 d1 = true ->
  is_nested_type st0 d2 = true ->
  type_key st0 d2 = type_key st0 d1 ->
  let st := declared this (l1 ++ d1 :: l2) st0 in
  extendsType (st !!! this) <> Some d1 ->
  scriptBlock (st !!! this) <> Some d1 ->
  forall c,
    c ∈ calls (UCStructSymbol_index dispatch getReference this document_ context
                 (mkIndexState st [])) ->
    target c <> d1.
Proof.
  intros Hshape Hchildren Htypes Hthis Hd1 Hd2 Hn1 Hn2 Hkey st Hext Hsb c Hc.
  destruct (IndexFacts.UCStructSymbol_index_calls dispatch getReference this
              Hshape document_ context (mkIndexState st [])) as [Hcalls _].
  rewrite Hcalls in Hc. clear Hcalls. cbn [calls heap app] in Hc.
  unfold struct_calls in Hc. fold st in Hc.
  apply elem_of_app in Hc as [Hc|Hc].
  { destruct (extendsType (st !!! this)) as [t|]; [|by apply elem_of_nil in Hc].
    apply list_elem_of_singleton in Hc as ->. cbn [target]. congruence. }
  apply elem_of_app in Hc as [Hc|Hc].
  { destruct (children (st !!! this)); [by apply elem_of_nil in Hc|].
    apply list_elem_of_fmap in Hc as (t & -> & Ht). cbn [target]. intros ->.
    revert Ht. apply shadowed_not_in_types; [done..|]. by exists l1, l2, d2. }
  apply elem_of_app in Hc as [Hc|Hc].
  { apply list_elem_of_fmap in Hc as (child & -> & Hchild). cbn [target].
    apply list_elem_of_filter in Hchild as [Hchild _]. intros ->.
    subst st. rewrite is_nested_type_declared in Hchild. congruence. }
  destruct (scriptBlock (st !!! this)) as [b|]; [|by apply elem_of_nil in Hc].
  apply list_elem_of_singleton in Hc as ->. cbn [target]. congruence.
Qed.

End Index.

(** A case of X9: [P], the enum [E], [Q] and a second enum [E] declared
    in the struct [S]; no index call of [S] is on the first [E]. *)
Lemma shadowed_nested_type_is_not_indexed_witness :
  Forall (fun c => target c <> 3)
    (calls (UCStructSymbol_index Samples.no_effect Samples.stored_reference
              0 "S.uc" 0
              (mkIndexState (declared 0 ([1] ++ 3 :: [2; 4]) Samples.struct_S) []))).
Proof.
  apply Forall_forall.
  apply (shadowed_nested_type_is_not_indexed Samples.no_effect
           Samples.stored_reference 0 "S.uc" 0 Samples.struct_S [1] [2; 4] 3 4).
  - apply IndexFacts.no_effect_keeps_shape.
  - reflexivity.
  - reflexivity.
  - intros H. repeat (apply elem_of_cons in H as [H|H]; [done|]).
    by apply elem_of_nil in H.
  - intros H. repeat (apply elem_of_cons in H as [H|H]; [done|]).
    by apply elem_of_nil in H.
  - apply list_elem_of_further, list_elem_of_here.
  - reflexivity.
  - reflexivity.
  - reflexivity.
  - vm_compute. discriminate.
  - vm_compute. discriminate.
Defined.

(** A case of X8: [P], the enum [E] and [Q] declared in the struct [S]
    are indexed as [E], [Q], [P]. *)
Lemma index_reaches_every_member_once_witness :
  calls (UCStructSymbol_index Samples.no_effect Samples.stored_reference 0 "S.uc" 0
           (mkIndexState (declared 0 [1; 3; 2] Samples.struct_S) []))
  = [mkCall 3 "S.uc" 0; mkCall 2 "S.uc" 0; mkCall 1 "S.uc" 0]
  /\ [3; 2; 1] ≡ₚ [1; 3; 2].
Proof.
  apply (index_reaches_every_member_once Samples.no_effect Samples.stored_reference
           0 "S.uc" 0 Samples.struct_S [1; 3; 2]).
  - apply IndexFacts.no_effect_keeps_shape.
  - reflexivity.
  - reflexivity.
  - vm_compute. intros H. repeat (apply elem_of_cons in H as [H|H]; [done|]).
    by apply elem_of_nil in H.
  - vm_compute. apply NoDup_singleton.
Defined.

End IndexCoverage.

(** ** Qualified names *)
Module StringFacts.

Lemma append_nil_r (s : string) : (s ++ "")%string = s.
Proof.
  induction s as [|c s IH]; [reflexivity|].
  change (String c (s ++ "") = String c s). by rewrite IH.
Qed.

Lemma append_assoc (a b c : string) :
  ((a ++ b) ++ c)%string = (a ++ (b ++ c))%string.
Proof.
  induction a as [|x a IH]; [reflexivity|].
  change (String x ((a ++ b) ++ c) = String x (a ++ (b ++ c))). by rewrite IH.
Qed.

Lemma length_append (a b : string) :
  String.length (a ++ b)%string = (String.length a + String.length b)%nat.
Proof.
  induction a as [|x a IH]; [reflexivity|].
  change (S (String.length (a ++ b)) = S (String.length a + String.length b)).
  by rewrite IH.
Qed.

(** Joining with a separator, one more part at the end. *)
Lemma concat_snoc (sep : string) (l : list string) (x : string) :
  l <> [] ->
  String.concat sep (l ++ [x]) = (String.concat sep l ++ sep ++ x)%string.
Proof.
  induction l as [|a l IH]; [done|]. intros _.
  destruct l as [|b l]; [done|].
  change (String.concat sep ((a :: b :: l) ++ [x]))
    with (a ++ sep ++ String.concat sep ((b :: l) ++ [x]))%string.
  rewrite IH by done.
  change (String.concat sep (a :: b :: l))
    with (a ++ sep ++ String.concat sep (b :: l))%string.
  by rewrite !append_assoc.
Qed.

End StringFacts.

Module OuterChainFacts.
Import Symbols OuterChain StringFacts.

Lemma outers_nonempty (fuel : nat) (st : Store) (this : Ref) (chain : list Ref) :
  outers fuel st this = Some chain -> exists rest, chain = this :: rest.
Proof.
  destruct fuel as [|fuel]; cbn [outers];
    destruct (outer (st !!! this)) as [o|]; intros H; simplify_eq.
  - by exists [].
  - destruct (outers fuel st o) as [l|]; simplify_eq/=. by eexists.
  - by exists [].
Qed.

(** The loop of [getQualifiedName] with the text gathered so far. *)
Lemma qualify_outers (st : Store) (fuel : nat) :
  forall (this : Ref) (suffix : string) (chain : list Ref),
    outers fuel st this = Some chain ->
    qualify fuel st (outer (st !!! this)) (getName (st !!! this) ++ suffix)
    = Some (String.concat "." ((fun r => getName (st !!! r)) <$> rev chain)
            ++ suffix)%string.
Proof.
  induction fuel as [|fuel IH]; intros this suffix chain Hchain.
  - cbn [outers] in Hchain.
    destruct (outer (st !!! this)) as [o|]; simplify_eq. done.
  - cbn [outers] in Hchain.
    destruct (outer (st !!! this)) as [o|] eqn:Ho; simplify_eq; [|done].
    destruct (outers fuel st o) as [rest|] eqn:Hrest; simplify_eq/=.
    rewrite (IH o _ rest Hrest). f_equal.
    destruct (outers_nonempty _ _ _ _ Hrest) as [rest' ->].
    rewrite fmap_app. cbn [fmap list_fmap].
    rewrite concat_snoc.
    + by rewrite !append_assoc.
    + cbn [rev]. rewrite fmap_app. by destruct (_ <$> rev rest').
Qed.

(** X10: the qualified name of a symbol is the names of the symbols from
    the outermost one to the symbol itself, joined by dots.  (The chain of
    [outer] links ends, within the budget given.) *)
Theorem getQualifiedName_joins_outers (fuel : nat) (st : Store) (this : Ref)
    (chain : list Ref) :
  outers fuel st this = Some chain ->
  getQualifiedName fuel st this
  = Some (String.concat "." ((fun r => getName (st !!! r)) <$> rev chain)).
Proof.
  intros Hchain. unfold getQualifiedName.
  rewrite <- (append_nil_r (getName (st !!! this))).
  rewrite (qualify_outers st fuel this "" chain Hchain).
  by rewrite append_nil_r.
Qed.

(** A case of X10: the member [Foo] of class [A]. *)
Lemma getQualifiedName_joins_outers_witness :
  getQualifiedName 1 Samples.classes_AB 2 = Some "A.Foo".
Proof.
  apply (getQualifiedName_joins_outers 1 Samples.classes_AB 2 [2; 0]).
  reflexivity.
Defined.

End OuterChainFacts.

(** ** The diagnostics pass: states, replication blocks and the scope
    stack *)
Module DeclarationFacts.
Import DocumentAnalyzer Rules.

Lemma report_scopes d a : scopes (report d a) = scopes a.
Proof. reflexivity. Qed.

Lemma report_diagnostics d a : diagnostics (report d a) = diagnostics a ++ [d].
Proof. reflexivity. Qed.

Lemma last_snoc_removelast {A} (l : list A) (x : A) : removelast (l ++ [x]) = l.
Proof. by rewrite removelast_last. Qed.

(** A visit that pushes a scope, runs balanced visits and reports, and
    pops: the stack is as before, and the context is its top. *)
Lemma push_pop_scopes (c : nat) (a a' : State) :
  scopes a' = scopes (push (Some c) a) ->
  scopes (pop a') = scopes a /\ context (pop a') = last (scopes a).
Proof.
  intros H. unfold pop. cbn [scopes context]. rewrite H.
  cbn [push scopes]. by rewrite last_snoc_removelast.
Qed.

Section Declarations.
Variable config : Config.
Variable document_class : option DocumentClass.
Variable NAME_STRUCT NAME_STATE : string.
Variable super_visitState : UCStateSymbol -> State -> State.
Variable super_visitScriptStruct : UCScriptStructSymbol -> State -> State.
Variable super_visitReplicationBlock : UCReplicationBlock -> State -> State.
Variable super_visitConst : UCConstSymbol -> State -> State.
Variable super_visitMethod : UCMethodSymbol -> State -> State.

Lemma ignoreRef_spec a ref :
  scopes (ignoreRef a ref) = scopes a
  /\ exists added,
       diagnostics (ignoreRef a ref) = diagnostics a ++ added
       /\ diag_range <$> added
          = if ignorable ref then [] else [range (reference_id ref)].
Proof.
  unfold ignoreRef, ignorable.
  destruct (reference ref) as [r|].
  - destruct (instanceof_UCMethodSymbol r), (referred_isFinal r); cbn [andb negb];
      (split; [done|]);
      first [ by (exists []; rewrite app_nil_r) | by eexists [_] ].
  - split; [done|]. by eexists [_].
Qed.

Lemma ignoreRefs_spec refs : forall a,
  scopes (foldl ignoreRef a refs) = scopes a
  /\ exists added,
       diagnostics (foldl ignoreRef a refs) = diagnostics a ++ added
       /\ diag_range <$> added
          = (fun ref => range (reference_id ref))
              <$> filter (fun ref => ignorable ref = false) refs.
Proof.
  induction refs as [|ref refs IH]; intros a; cbn [foldl].
  - split; [done|]. exists []. by rewrite app_nil_r.
  - destruct (IH (ignoreRef a ref)) as (Hs & added & Hd & Hr).
    destruct (ignoreRef_spec a ref) as (Hs1 & added1 & Hd1 & Hr1).
    split; [congruence|]. exists (added1 ++ added).
    rewrite Hd, Hd1, <- app_assoc. split; [done|].
    rewrite fmap_app, Hr, Hr1.
    destruct (ignorable ref) eqn:E.
    + by rewrite filter_cons_False by congruence.
    + by rewrite filter_cons_True by done.
Qed.

(** X11: in a state, every ignored name that does not resolve to a
    function, or that resolves to a final function, gets one diagnostic at
    its own range, in the order of the names, and no other ignored name
    gets one.  Before them stand the diagnostics that the walk of the
    state has given and at most one for the extends clause: that one is
    there exactly when types are checked and the clause resolves to
    something that is not a state. *)
Theorem visitState_ignores (symbol : UCStateSymbol) (a : State) :
  exists extends_nodes added,
    diagnostics (visitState config NAME_STATE super_visitState symbol a)
    = diagnostics (super_visitState symbol (push (Some (state_self symbol)) a))
      ++ extends_nodes ++ added
    /\ diag_range <$> added
       = (fun ref => range (reference_id ref))
           <$> filter (fun ref => ignorable ref = false)
                      (default [] (ignoreRefs symbol))
    /\ (length extends_nodes <= 1)%nat
    /\ (extends_nodes = [] <->
        checkTypes config = false
        \/ forall extendsType, state_extendsType symbol = Some extendsType ->
             state_extendable extendsType = true).
Proof.
  unfold visitState.
  set (a2 := super_visitState symbol _).
  set (a3 := match checkTypes config with true => _ | false => _ end).
  assert (H3 : exists extends_nodes,
             diagnostics a3 = diagnostics a2 ++ extends_nodes
             /\ (length extends_nodes <= 1)%nat
             /\ (extends_nodes = [] <->
                 checkTypes config = false
                 \/ forall extendsType, state_extendsType symbol = Some extendsType ->
                      state_extendable extendsType = true)).
  { subst a3. unfold state_extendable.
    destruct (checkTypes config).
    2: { exists []. rewrite app_nil_r. repeat split; auto. }
    destruct (state_extendsType symbol) as [t|].
    2: { exists []. rewrite app_nil_r. repeat split; auto. right. by intros. }
    destruct (reference t) as [r|] eqn:Hr.
    2: { exists []. rewrite app_nil_r. repeat split; auto.
         right. intros ? [= <-]. by rewrite Hr. }
    destruct (instanceof_UCStateSymbol r) eqn:Hstate; cbn [negb].
    - exists []. rewrite app_nil_r. repeat split; auto.
      right. intros ? [= <-]. by rewrite Hr.
    - eexists [_]. split; [reflexivity|]. split; [done|]. split; [done|].
      intros [?|H]; [done|]. specialize (H t eq_refl). rewrite Hr in H. congruence. }
  destruct H3 as (extends_nodes & Hd3 & Hlen & Hiff).
  exists extends_nodes.
  destruct (ignoreRefs symbol) as [refs|]; cbn [default].
  - destruct (ignoreRefs_spec refs a3) as (_ & added & Hd & Hr).
    exists added. rewrite AnalyzerFacts.pop_diagnostics, Hd, Hd3, <- app_assoc. done.
  - exists []. rewrite AnalyzerFacts.pop_diagnostics, Hd3, app_nil_r. done.
Qed.

Lemma replicationRef_spec class_ a ref :
  exists a' added,
    replicationRef (Some class_) a ref = Some a'
    /\ scopes a' = scopes a
    /\ diagnostics a' = diagnostics a ++ added
    /\ diag_range <$> added
       = if replicable class_ ref then [] else [range (reference_id ref)].
Proof.
  unfold replicationRef, replicable.
  destruct (reference ref) as [r|]; [|by eexists _, [_]].
  destruct (instanceof_UCPropertySymbol r || instanceof_UCMethodSymbol r);
    cbn [andb]; [|by eexists _, [_]].
  cbn [fmap option_fmap option_map].
  destruct (bool_decide (referred_outer r = Some (class_self class_))); cbn [negb].
  - exists a, []. by rewrite app_nil_r.
  - by eexists _, [_].
Qed.

Lemma replicationRefs_spec class_ refs : forall a,
  exists a' added,
    foldl (fun a' symbolRef => a' ≫= fun a'' => replicationRef (Some class_) a'' symbolRef)
          (Some a) refs = Some a'
    /\ scopes a' = scopes a
    /\ diagnostics a' = diagnostics a ++ added
    /\ diag_range <$> added
       = (fun ref => range (reference_id ref))
           <$> filter (fun ref => replicable class_ ref = false) refs.
Proof.
  induction refs as [|ref refs IH]; intros a; cbn [foldl mbind option_bind].
  - exists a, []. by rewrite app_nil_r.
  - destruct (replicationRef_spec class_ a ref) as (a1 & added1 & -> & Hs1 & Hd1 & Hr1).
    destruct (IH a1) as (a' & added & -> & Hs & Hd & Hr).
    exists a', (added1 ++ added). split; [done|]. split; [congruence|].
    rewrite Hd, Hd1, <- app_assoc. split; [done|].
    rewrite fmap_app, Hr, Hr1.
    destruct (replicable class_ ref) eqn:E.
    + by rewrite filter_cons_False by congruence.
    + by rewrite filter_cons_True by done.
Qed.

(** X12: in the replication block of a document with a class, every name
    that does not resolve, that resolves to something other than a
    variable or function, or that resolves to a variable or function
    whose outer is not the class of the document, gets one diagnostic at
    its own range, in the order of the names; no other name gets one, and
    the visit returns. *)
Theorem visitReplicationBlock_rules (class_ : DocumentClass)
    (symbol : UCReplicationBlock) (a : State) :
  exists a' added,
    visitReplicationBlock (Some class_) super_visitReplicationBlock symbol a
    = Some a'
    /\ diagnostics a'
       = diagnostics (super_visitReplicationBlock symbol
                        (push (Some (class_self class_)) a))
         ++ added
    /\ diag_range <$> added
       = (fun ref => range (reference_id ref))
           <$> filter (fun ref => replicable class_ ref = false) (symbolRefs symbol).
Proof.
  unfold visitReplicationBlock.
  set (a2 := super_visitReplicationBlock symbol _).
  destruct (replicationRefs_spec class_ (symbolRefs symbol) a2)
    as (a3 & added & -> & _ & Hd & Hr).
  cbn [mbind option_bind]. exists (pop a3), added.
  by rewrite AnalyzerFacts.pop_diagnostics.
Qed.

Lemma requiredParams_scopes ps : forall n a,
  scopes (requiredParams ps n a).2 = scopes a.
Proof.
  induction ps as [|p ps IH]; intros n a; cbn [requiredParams]; [done|].
  destruct (isOptional p); [|apply IH].
  cbn [snd]. apply AnalyzerFacts.trailingParams_scopes.
Qed.

Lemma operatorRules_scopes symbol a : scopes (operatorRules symbol a) = scopes a.
Proof. unfold operatorRules. by repeat case_match. Qed.

(** X13: the visits of a state, a struct, a method, a replication block
    and a constant leave the scope stack of the visitor as they find it
    and its context at the top of that stack, when the walks they run
    through [super] leave the stack as they find it.  (A constant in a
    document without a class is the exception: nothing is pushed for it,
    and the pop takes the innermost scope off the stack.) *)
Theorem visits_keep_the_scope_stack :
  balanced super_visitState ->
  balanced super_visitScriptStruct ->
  balanced super_visitReplicationBlock ->
  balanced super_visitConst ->
  balanced super_visitMethod ->
  (forall symbol a,
     let a' := visitState config NAME_STATE super_visitState symbol a in
     scopes a' = scopes a /\ context a' = last (scopes a))
  /\ (forall symbol a,
        let a' := visitScriptStruct config NAME_STRUCT super_visitScriptStruct
                    symbol a in
        scopes a' = scopes a /\ context a' = last (scopes a))
  /\ (forall symbol a,
        let a' := (visitMethod super_visitMethod symbol a).2 in
        scopes a' = scopes a /\ context a' = last (scopes a))
  /\ (forall class_ symbol a,
        exists a',
          visitReplicationBlock (Some class_) super_visitReplicationBlock symbol a
          = Some a'
          /\ scopes a' = scopes a /\ context a' = last (scopes a))
  /\ (forall class_ symbol a,
        let a' := visitConst (Some class_) super_visitConst symbol a in
        scopes a' = scopes a /\ context a' = last (scopes a))
  /\ (forall symbol a,
        scopes (visitConst None super_visitConst symbol a)
        = removelast (scopes a)).
Proof.
  intros HState HStruct HBlock HConst HMethod.
  split; [|split; [|split; [|split; [|split]]]].
  - intros symbol a. cbn zeta. unfold visitState.
    apply (push_pop_scopes (state_self symbol)).
    destruct (ignoreRefs symbol) as [refs|];
      [rewrite (proj1 (ignoreRefs_spec refs _))|];
      repeat case_match; rewrite ?report_scopes; apply HState.
  - intros symbol a. cbn zeta. unfold visitScriptStruct.
    apply (push_pop_scopes (struct_self symbol)).
    repeat case_match; rewrite ?report_scopes; apply HStruct.
  - intros symbol a. cbn zeta. unfold visitMethod.
    destruct (params symbol) as [ps|].
    + destruct (requiredParams ps 0 _) as [n a3] eqn:E. cbn [snd].
      apply (push_pop_scopes (self symbol)).
      rewrite operatorRules_scopes.
      apply (f_equal snd) in E. cbn [snd] in E. subst a3.
      rewrite requiredParams_scopes. apply HMethod.
    + cbn [snd]. apply (push_pop_scopes (self symbol)).
      rewrite operatorRules_scopes. apply HMethod.
  - intros class_ symbol a. unfold visitReplicationBlock.
    destruct (replicationRefs_spec class_ (symbolRefs symbol)
                (super_visitReplicationBlock symbol
                   (push (Some (class_self class_)) a)))
      as (a3 & added & -> & Hs & _).
    cbn [mbind option_bind]. exists (pop a3). split; [done|].
    apply (push_pop_scopes (class_self class_)). rewrite Hs. apply HBlock.
  - intros class_ symbol a. cbn zeta. unfold visitConst.
    cbn [fmap option_fmap option_map].
    apply (push_pop_scopes (class_self class_)).
    destruct (has_expression symbol); rewrite ?report_scopes; apply HConst.
  - intros symbol a. unfold visitConst. cbn [fmap option_fmap option_map].
    unfold pop. cbn [scopes].
    destruct (has_expression symbol); rewrite ?report_scopes; by rewrite HConst.
Qed.

End Declarations.

Import Samples.

(** A case of X13: the state [Idle], visited inside class [Pawn]. *)
Lemma visits_keep_the_scope_stack_witness :
  scopes (visitState checking "State" no_descent state_Idle in_Pawn) = [1]
  /\ context (visitState checking "State" no_descent state_Idle in_Pawn) = Some 1.
Proof.
  apply (proj1 (visits_keep_the_scope_stack checking "Struct" "State"
                  no_descent no_descent no_descent no_descent no_descent
                  ltac:(done) ltac:(done) ltac:(done) ltac:(done) ltac:(done))
               state_Idle in_Pawn).
Defined.

(** The state [Idle]: [Fire], [Health] and [Missing] are reported,
    [Tick] is not. *)
Example state_Idle_ignores :
  diag_range <$> diagnostics (visitState checking "State" no_descent state_Idle in_Pawn)
  = [at_line 32; at_line 33; at_line 34].
Proof. reflexivity. Qed.

(** The replication block of [Pawn]: [Name], which the parent class
    declares, and [Pawn], which is a class, are reported. *)
Example replication_Pawn_rules :
  (fun a => diag_range <$> diagnostics a)
    <$> visitReplicationBlock (Some class_Pawn) no_descent replication_Pawn in_Pawn
  = Some [at_line 43; at_line 44].
Proof. reflexivity. Qed.

End DeclarationFacts.

(** ** The tree builder: function declarations and object literals *)
Module DeclarationBuilding.
Import Symbols DocumentASTWalker Keywords StoreFacts.

Lemma has_snoc (flag flag' : MethodSpecifier) (l : list MethodSpecifier) :
  has flag (l ++ [flag']) = has flag l || bool_decide (flag = flag').
Proof.
  unfold has. rewrite <- bool_decide_or. apply bool_decide_ext.
  by rewrite elem_of_app, list_elem_of_singleton.
Qed.

Lemma occurs_cons kw node nodes :
  occurs kw (node :: nodes)
  = bool_decide (kw = specifier_type node) || occurs kw nodes.
Proof.
  unfold occurs. cbn [fmap list_fmap]. rewrite <- bool_decide_or.
  apply bool_decide_ext. apply elem_of_cons.
Qed.

(** One specifier sets the flag of its keyword and no other. *)
Lemma functionSpecifier_has flag acc node :
  has flag (specifiers (functionSpecifier acc node))
  = has flag (specifiers acc) || bool_decide (keyword flag = specifier_type node).
Proof.
  unfold functionSpecifier.
  destruct (specifier_type node); cbn [specifiers]; rewrite ?has_snoc;
    destruct flag; cbn [keyword];
    rewrite ?(bool_decide_true (_ = _)) by done;
    rewrite ?(bool_decide_false (_ = _)) by done;
    by rewrite ?orb_false_r.
Qed.

Lemma foldl_functionSpecifier_has flag nodes : forall acc,
  has flag (specifiers (foldl functionSpecifier acc nodes))
  = has flag (specifiers acc) || occurs (keyword flag) nodes.
Proof.
  induction nodes as [|node nodes IH]; intros acc; cbn [foldl].
  - unfold occurs. cbn [fmap list_fmap].
    rewrite (bool_decide_false (_ ∈ [])) by apply not_elem_of_nil.
    by rewrite orb_false_r.
  - by rewrite IH, functionSpecifier_has, occurs_cons, orb_assoc.
Qed.

Lemma occurs_Permutation kw nodes nodes' :
  nodes ≡ₚ nodes' -> occurs kw nodes' = occurs kw nodes.
Proof.
  intros Hp. unfold occurs. apply bool_decide_ext. by rewrite Hp.
Qed.

(** X14: the class that a function declaration is built as, and whether
    the "must be declared as either one of ..." syntax error is pushed,
    depend on which keywords occur among its specifiers and not on their
    order: [function] wins over [event], [event] over [operator], then
    [preoperator], [postoperator] and [delegate]; without any of these
    the symbol is a plain method and the error is pushed. *)
Theorem functionDeclSymbol_by_keywords (nodes : list FunctionSpecifierContext) :
  method_class (functionDeclSymbol nodes).1 = class_by_keywords nodes
  /\ (functionDeclSymbol nodes).2 = names_no_kind nodes
  /\ (names_no_kind nodes = true -> class_by_keywords nodes = MethodSymbol)
  /\ forall nodes',
       nodes ≡ₚ nodes' ->
       class_by_keywords nodes' = class_by_keywords nodes
       /\ names_no_kind nodes' = names_no_kind nodes.
Proof.
  assert (Hhas : forall flag,
            has flag (specifiers (foldl functionSpecifier (mkSpecifiers [] [] None) nodes))
            = occurs (keyword flag) nodes).
  { intros flag. rewrite foldl_functionSpecifier_has. cbn [specifiers].
    unfold has at 1. by rewrite (bool_decide_false (_ ∈ [])) by apply not_elem_of_nil. }
  split; [|split; [|split]].
  - unfold functionDeclSymbol, class_by_keywords. cbn [fst method_class].
    rewrite !Hhas. reflexivity.
  - unfold functionDeclSymbol, names_no_kind, HasKind. cbn [snd forallb].
    by rewrite !Hhas.
  - unfold names_no_kind, class_by_keywords, HasKind. cbn [forallb keyword].
    intros H. repeat (apply andb_prop in H as [?%negb_true_iff H]).
    by repeat case_match.
  - intros nodes' Hp. unfold class_by_keywords, names_no_kind.
    split.
    + by rewrite !(occurs_Permutation _ _ _ Hp).
    + unfold HasKind. cbn [forallb].
      by rewrite !(occurs_Permutation _ _ _ Hp).
Qed.

(** A case of X14: [final operator(16)] and [operator(16) final]. *)
Lemma functionDeclSymbol_by_keywords_witness :
  class_by_keywords [mkSpecifier KW_OPERATOR (Some 16%Z); mkSpecifier KW_FINAL None]
  = class_by_keywords [mkSpecifier KW_FINAL None; mkSpecifier KW_OPERATOR (Some 16%Z)]
  /\ names_no_kind [mkSpecifier KW_OPERATOR (Some 16%Z); mkSpecifier KW_FINAL None]
     = names_no_kind [mkSpecifier KW_FINAL None; mkSpecifier KW_OPERATOR (Some 16%Z)].
Proof.
  apply (proj2 (proj2 (proj2 (functionDeclSymbol_by_keywords
           [mkSpecifier KW_FINAL None; mkSpecifier KW_OPERATOR (Some 16%Z)])))).
  apply perm_swap.
Defined.

(** *** Object literals *)

Lemma alloc_heap o w : heap (alloc o w).2 = <[nextRef w := o]> (heap w).
Proof. reflexivity. Qed.

(** [get(i)]: two objects per identifier; the objects that were there
    stay as they are, and the qualified type that is returned spells the
    identifiers, in every store that holds the new objects. *)
Lemma typeFromIds_get_spec (before : list Identifier) :
  forall (identifier : Identifier) (w : State),
    exists q w',
      typeFromIds_get identifier before w = (q, w')
      /\ nextRef w' = (nextRef w + 2 * S (length before))%nat
      /\ S q = nextRef w'
      /\ same_frame w w'
      /\ (forall r : Ref, (r < nextRef w)%nat -> heap w' !!! r = heap w !!! r)
      /\ forall st' : Store,
           (forall r : Ref, (nextRef w <= r < nextRef w')%nat -> st' !!! r = heap w' !!! r) ->
           Readout.qualifiedIds (S (length before)) st' q
           = Some (rev before ++ [identifier]).
Proof.
  induction before as [|previous before IH]; intros identifier w.
  - cbn [typeFromIds_get alloc].
    eexists _, _. split; [reflexivity|]. cbn [nextRef heap upd_heap length].
    split; [lia|]. split; [done|]. split; [done|]. split.
    + intros r Hr. rewrite lookup_total_insert_ne by lia.
      rewrite assign_ne by lia. by rewrite lookup_total_insert_ne by lia.
    + intros st' Hst'. cbn [Readout.qualifiedIds].
      rewrite (Hst' (S (nextRef w))) by lia. rewrite lookup_total_insert_eq.
      cbn [cls type left new_UCQualifiedTypeSymbol set_left set_type new].
      rewrite bool_decide_true by done.
      rewrite (Hst' (nextRef w)) by lia.
      rewrite lookup_total_insert_ne by lia. rewrite assign_eq.
      by rewrite lookup_total_insert_eq.
  - cbn [typeFromIds_get]. cbn [alloc].
    set (w1 := mkState _ _ _ _ _ _).
    destruct (IH previous w1) as (l & w3 & -> & Hnext & Hl & Hframe3 & Hkeep & Hread).
    cbn [alloc]. eexists _, _. split; [reflexivity|].
    cbn [nextRef heap length]. subst w1. cbn [nextRef heap] in *.
    split; [lia|]. split; [done|]. split; [exact Hframe3|]. split.
    + intros r Hr. rewrite lookup_total_insert_ne by lia.
      rewrite Hkeep by lia. by rewrite lookup_total_insert_ne by lia.
    + intros st' Hst'.
      change (Readout.qualifiedIds (S (S (length before))) st' (nextRef w3))
        with (let s := st' !!! nextRef w3 in
              if bool_decide (cls s = UCQualifiedTypeSymbol)
              then match type s with
                   | Some t =>
                       match left s with
                       | Some l0 =>
                           (fun ids : list Identifier => ids ++ [id (st' !!! t)])
                             <$> Readout.qualifiedIds (S (length before)) st' l0
                       | None => Some [id (st' !!! t)]
                       end
                   | None => None
                   end
              else Some [id s]).
      cbn zeta. rewrite (Hst' (nextRef w3)) by lia.
      rewrite lookup_total_insert_eq.
      cbn [cls type left new_UCQualifiedTypeSymbol set_left set_type new].
      rewrite bool_decide_true by done.
      rewrite Hread.
      * cbn [fmap option_fmap option_map rev].
        rewrite (Hst' (nextRef w)) by lia.
        rewrite lookup_total_insert_ne by lia. rewrite Hkeep by lia.
        by rewrite lookup_total_insert_eq.
      * intros r Hr. rewrite Hst' by lia. by rewrite lookup_total_insert_ne by lia.
Qed.

Lemma typeFromIds_spec (identifiers : list Identifier) (w : State) :
  identifiers <> [] ->
  exists r w',
    typeFromIds identifiers w = (Some r, w')
    /\ Readout.qualifiedIds (length identifiers) (heap w') r = Some identifiers
    /\ same_frame w w'
    /\ forall r0 : Ref, (r0 < nextRef w)%nat -> heap w' !!! r0 = heap w !!! r0.
Proof.
  intros Hne.
  destruct identifiers as [|i1 [|i2 rest]]; [done| |].
  - cbn [typeFromIds alloc]. eexists _, _. split; [reflexivity|].
    cbn [heap nextRef length Readout.qualifiedIds].
    rewrite lookup_total_insert_eq. split; [done|]. split; [done|].
    intros r0 Hr0. by rewrite lookup_total_insert_ne by lia.
  - unfold typeFromIds.
    destruct (rev (i1 :: i2 :: rest)) as [|last_ before] eqn:Hrev.
    { apply (f_equal (@length _)) in Hrev. rewrite length_rev in Hrev. done. }
    destruct (typeFromIds_get_spec before last_ w)
      as (q & w' & -> & _ & _ & Hframe & Hkeep & Hread).
    exists q, w'. split; [done|]. split; [|by split].
    assert (Hids : i1 :: i2 :: rest = rev before ++ [last_]).
    { rewrite <- (rev_involutive (i1 :: i2 :: rest)), Hrev. done. }
    rewrite Hids at 2. rewrite <- (Hread (heap w')) by done.
    f_equal. rewrite Hids, length_app, length_rev. cbn [length]. lia.
Qed.

(** X15: [typeFromIds] builds a type reference that spells the
    identifiers it is given: read from the left, the parts of the
    reference are these identifiers, in their order; the objects that were
    in the store stay as they are.  Without identifiers it builds
    nothing. *)
Theorem typeFromIds_spells_identifiers (identifiers : list Identifier) (w : State) :
  typeFromIds [] w = (None, w)
  /\ (identifiers <> [] ->
      exists r w',
        typeFromIds identifiers w = (Some r, w')
        /\ Readout.qualifiedIds (length identifiers) (heap w') r = Some identifiers
        /\ same_frame w w'
        /\ forall r0 : Ref, (r0 < nextRef w)%nat -> heap w' !!! r0 = heap w !!! r0).
Proof. split; [done | apply typeFromIds_spec]. Qed.

(** A case of X15: the identifiers of [Engine.Pawn.Health]. *)
Lemma typeFromIds_spells_identifiers_witness :
  exists r w',
    typeFromIds [Samples.ident "Engine"; Samples.ident "Pawn"; Samples.ident "Health"]
      Samples.in_class_Foo = (Some r, w')
    /\ Readout.qualifiedIds 3 (heap w') r
       = Some [Samples.ident "Engine"; Samples.ident "Pawn"; Samples.ident "Health"]
    /\ same_frame Samples.in_class_Foo w'
    /\ forall r0 : Ref, (r0 < nextRef Samples.in_class_Foo)%nat ->
         heap w' !!! r0 = heap Samples.in_class_Foo !!! r0.
Proof.
  apply (proj2 (typeFromIds_spells_identifiers
                  [Samples.ident "Engine"; Samples.ident "Pawn"; Samples.ident "Health"]
                  Samples.in_class_Foo)).
  discriminate.
Defined.

Lemma split_nonempty (sep : ascii) (s : string) : Names.split sep s <> [].
Proof.
  destruct s as [|c s]; cbn [Names.split]; [done|].
  destruct (bool_decide (c = sep)); [done|]. by destruct (Names.split sep s).
Qed.

(** Joining the parts with the separator gives the text back. *)
Lemma concat_split (sep : ascii) (s : string) :
  String.concat (String sep EmptyString) (Names.split sep s) = s.
Proof.
  induction s as [|c s IH]; [done|]. cbn [Names.split].
  destruct (bool_decide (c = sep)) eqn:E.
  - apply bool_decide_eq_true in E as ->.
    pose proof (split_nonempty sep s) as Hne.
    destruct (Names.split sep s) as [|p ps]; [done|].
    change (String.concat (String sep "") ("" :: p :: ps))%string
      with (String sep (String.concat (String sep "") (p :: ps)))%string.
    by rewrite IH.
  - pose proof (split_nonempty sep s) as Hne.
    destruct (Names.split sep s) as [|p ps]; [done|].
    destruct ps as [|p' ps].
    + cbn [String.concat] in *. by rewrite IH.
    + change (String.concat (String sep "") (String c p :: p' :: ps))%string
        with (String c (String.concat (String sep "") (p :: p' :: ps)))%string.
      by rewrite IH.
Qed.

Lemma objectIdentifiers_names (l c : nat) (ids : list string) :
  name <$> objectIdentifiers l c ids = ids.
Proof.
  revert c. induction ids as [|i ids IH]; intros c; [done|].
  cbn [objectIdentifiers fmap list_fmap name]. f_equal. apply IH.
Qed.

Lemma objectIdentifiers_length (l c : nat) (ids : list string) :
  length (objectIdentifiers l c ids) = length ids.
Proof. by rewrite <- (objectIdentifiers_names l c ids) at 2; rewrite length_fmap. Qed.

Lemma objectIdentifiers_tiles (l : nat) (ids : list string) : forall c,
  ids <> [] ->
  Readout.tiles l c (objectIdentifiers l c ids)
    (c + String.length (String.concat "." ids)).
Proof.
  induction ids as [|i ids IH]; intros c Hne; [done|].
  destruct ids as [|j ids]; [by split|].
  change (String.concat "." (i :: j :: ids))
    with (i ++ "." ++ String.concat "." (j :: ids))%string.
  rewrite !StringFacts.length_append.
  change (String.length ".") with 1%nat.
  replace (c + (String.length i + (1 + String.length (String.concat "." (j :: ids)))))%nat
    with (c + String.length i + 1 + String.length (String.concat "." (j :: ids)))%nat
    by lia.
  specialize (IH (c + String.length i + 1)%nat ltac:(done)).
  change (objectIdentifiers l c (i :: j :: ids))
    with (mkIdentifier i
            (mkRange (mkPosition l c) (mkPosition l (c + String.length i)))
          :: objectIdentifiers l (c + String.length i + 1) (j :: ids)).
  remember (objectIdentifiers l (c + String.length i + 1) (j :: ids)) as rest_
    eqn:Hrest.
  destruct rest_ as [|first_ rest_]; [done|].
  split; [done | exact IH].
Qed.

(** X16: an object literal [Class'Package.Group.Name'] always gets an
    object reference.  The reference spells one identifier for every part
    of the quoted text between dots (the text taken without quotes and
    white space): joined with dots, the names of the identifiers give
    that text back; their ranges lie on the line of the token, each as
    wide as its name, the first one column after the start of the token
    and each next one a column after the end of the one before, so that
    the last ends where the text ends. *)
Theorem visitObjectLiteral_identifiers (ctx : ObjectLiteralContext) (w : State) :
  exists (r : Ref) (w' : State) (ids : list Identifier),
    visitObjectLiteral ctx w
    = (mkObjectLiteral (rangeFromBounds (literal_ctx ctx)) (nextRef w) (Some r), w')
    /\ Readout.qualifiedIds (length ids) (heap w') r = Some ids
    /\ String.concat "." (name <$> ids)
       = Names.strip_quotes_and_space (NAME_text ctx)
    /\ Readout.tiles (NAME_line ctx - 1) (NAME_charPositionInLine ctx + 1) ids
         (NAME_charPositionInLine ctx + 1
          + String.length (Names.strip_quotes_and_space (NAME_text ctx)))
    /\ same_frame w w'.
Proof.
  unfold visitObjectLiteral. cbn [alloc].
  set (w1 := mkState _ _ _ _ _ _).
  set (text := Names.strip_quotes_and_space (NAME_text ctx)).
  set (ids := objectIdentifiers _ _ _).
  assert (Hne : ids <> []).
  { intros H. apply (f_equal (@length _)) in H. subst ids.
    rewrite objectIdentifiers_length in H.
    pose proof (split_nonempty "."%char text). by destruct (Names.split _ text). }
  destruct (typeFromIds_spec ids w1 Hne) as (r & w' & -> & Hread & Hframe & _).
  exists r, w', ids. split; [done|]. split; [done|].
  subst ids. rewrite objectIdentifiers_names. split; [apply concat_split|].
  split; [|exact Hframe].
  rewrite <- (concat_split "."%char text) at 2.
  apply objectIdentifiers_tiles. apply split_nonempty.
Qed.

End DeclarationBuilding.

(** ** Operators and expression trees *)
Module ExpressionTreeFacts.
Import Symbols UCStructSymbol Diagnostics Document Expressions ExpressionTree.
Import StoreFacts.

Lemma find_app {A} (f : A -> bool) (l1 l2 : list A) :
  List.find f (l1 ++ l2)
  = match List.find f l1 with
    | Some x => Some x
    | None => List.find f l2
    end.
Proof.
  induction l1 as [|x l1 IH]; [done|]. cbn [app List.find].
  by destruct (f x).
Qed.

Section Operators.
Variable test : Store -> Ref -> bool.

(** The nested loops, as one search through the children of the structs
    on the chain. *)
Lemma findInSupers_supers (st : Store) (i : string) (fuel : nat) :
  forall scope chain,
    supers fuel st scope = Some chain ->
    findInSupers test fuel st scope i
    = Some (List.find (is_operator_named test st i)
              (concat ((fun s => children (st !!! s)) <$> chain))).
Proof.
  induction fuel as [|fuel IH]; intros scope chain Hchain; [done|].
  cbn [supers findInSupers] in *.
  destruct scope as [s|]; [|by simplify_eq].
  destruct (instanceof_UCStructSymbol (cls (st !!! s))); [|by simplify_eq].
  destruct (supers fuel st (super (st !!! s))) as [rest|] eqn:Hrest;
    simplify_eq/=.
  rewrite find_app.
  destruct (List.find _ (children (st !!! s))); [done|]. by apply IH.
Qed.

(** X17: an operator is looked for in the class that encloses the
    context (the outer of a method, and of a state) and then up the chain
    of [super] links: the answer is the first method of that name that
    passes the operator test, among the children of these structs taken in
    this order.  A child of that name that is not such a method does not
    end the search, and what is found is always such a method.  (The chain
    of [super] links ends, within the budget given.) *)
Theorem findOperatorLike_first_on_chain (fuel : nat) (st : Store) (i : string)
    (context : option Ref) (chain : list Ref) :
  supers fuel st (operatorScope st context) = Some chain ->
  findOperatorLike test fuel st i context
  = Some (List.find (is_operator_named test st i)
            (concat ((fun s => children (st !!! s)) <$> chain)))
  /\ forall found,
       findOperatorLike test fuel st i context = Some (Some found) ->
       Names.toLowerCase (getName (st !!! found)) = i
       /\ instanceof_UCMethodSymbol (cls (st !!! found)) = true
       /\ test st found = true.
Proof.
  intros Hchain. unfold findOperatorLike.
  rewrite (findInSupers_supers st i fuel _ chain Hchain).
  split; [done|]. intros found [= Hfound].
  apply find_some in Hfound as [_ Hfound]. unfold is_operator_named in Hfound.
  apply andb_prop in Hfound as [Hname Hfound].
  apply andb_prop in Hfound as [Hmethod Htest].
  by apply bool_decide_eq_true in Hname.
Qed.

End Operators.

(** A case of X17: from the method [Run] of class [B extends A], the
    search goes through B and A. *)
Lemma findOperatorLike_first_on_chain_witness :
  findOperatorLike Samples.any_operator 3 Samples.classes_AB_Vec "run" (Some 3)
  = Some (List.find (is_operator_named Samples.any_operator
                       Samples.classes_AB_Vec "run")
            (concat ((fun s => children (Samples.classes_AB_Vec !!! s)) <$> [1; 0])))
  /\ forall found,
       findOperatorLike Samples.any_operator 3 Samples.classes_AB_Vec "run" (Some 3)
       = Some (Some found) ->
       Names.toLowerCase (getName (Samples.classes_AB_Vec !!! found)) = "run"
       /\ instanceof_UCMethodSymbol (cls (Samples.classes_AB_Vec !!! found)) = true
       /\ Samples.any_operator Samples.classes_AB_Vec found = true.
Proof.
  apply (findOperatorLike_first_on_chain Samples.any_operator 3
           Samples.classes_AB_Vec "run" (Some 3) [1; 0]).
  reflexivity.
Defined.

(** *** Induction on expression trees *)
Lemma IExpression_induction (P : IExpression -> Prop) :
  (forall r expression,
     for_part P expression -> P (UCParenthesizedExpression r expression)) ->
  (forall r expression arguments,
     for_part P expression -> for_arguments P arguments ->
     P (UCCallExpression r expression arguments)) ->
  (forall r expression argument,
     for_part P expression -> for_part P argument ->
     P (UCElementAccessExpression r expression argument)) ->
  (forall r left_ member,
     for_part P left_ -> P (UCPropertyAccessExpression r left_ member)) ->
  (forall r condition true_ false_,
     for_part P condition -> for_part P true_ -> for_part P false_ ->
     P (UCConditionalExpression r condition true_ false_)) ->
  (forall r expression operator,
     for_part P expression -> P (UCPostOperatorExpression r expression operator)) ->
  (forall r expression operator,
     for_part P expression -> P (UCPreOperatorExpression r expression operator)) ->
  (forall r left_ operator right_,
     for_part P left_ -> for_part P right_ ->
     P (UCBinaryOperatorExpression r left_ operator right_)) ->
  (forall e, P (UCMember e)) ->
  (forall e, P (UCPredefinedAccessExpression e)) ->
  (forall e, P (UCPredefinedPropertyAccessExpression e)) ->
  (forall c r, P (UCLiteral c r)) ->
  (forall r arguments,
     for_arguments P arguments -> P (UCDefaultStructLiteral r arguments)) ->
  forall e, P e.
Proof.
  intros HParen HCall HElement HProperty HCond HPost HPre HBinary
    HMember HAccess HPropertyAccess HLiteral HStruct.
  fix IH 1. intros e.
  assert (Hargs : forall arguments : option (list (option IExpression)),
            (forall args, arguments = Some args -> Forall (for_part P) args) ->
            for_arguments P arguments).
  { intros [args|] H; [by apply H | exact I]. }
  destruct e as [r expression | r expression arguments | r expression argument
                | r left_ member | r condition true_ false_
                | r expression operator | r expression operator
                | r left_ operator right_ | e | e | e | c r | r arguments].
  - apply HParen. destruct expression as [x|]; [apply IH | exact I].
  - apply HCall.
    + destruct expression as [x|]; [apply IH | exact I].
    + destruct arguments as [args|]; [|exact I].
      revert args. fix IHargs 1. intros [|arg args]; constructor.
      * destruct arg as [x|]; [apply IH | exact I].
      * apply IHargs.
  - apply HElement.
    + destruct expression as [x|]; [apply IH | exact I].
    + destruct argument as [x|]; [apply IH | exact I].
  - apply HProperty. destruct left_ as [x|]; [apply IH | exact I].
  - apply HCond.
    + destruct condition as [x|]; [apply IH | exact I].
    + destruct true_ as [x|]; [apply IH | exact I].
    + destruct false_ as [x|]; [apply IH | exact I].
  - apply HPost. destruct expression as [x|]; [apply IH | exact I].
  - apply HPre. destruct expression as [x|]; [apply IH | exact I].
  - apply HBinary.
    + destruct left_ as [x|]; [apply IH | exact I].
    + destruct right_ as [x|]; [apply IH | exact I].
  - apply HMember.
  - apply HAccess.
  - apply HPropertyAccess.
  - apply HLiteral.
  - apply HStruct. destruct arguments as [args|]; [|exact I].
    revert args. fix IHargs 1. intros [|arg args]; constructor.
    + destruct arg as [x|]; [apply IH | exact I].
    + apply IHargs.
Qed.

Lemma for_part_impl (P Q : IExpression -> Prop) part :
  (forall x, P x -> Q x) -> for_part P part -> for_part Q part.
Proof. intros H. destruct part; [apply H | done]. Qed.

Lemma for_arguments_impl (P Q : IExpression -> Prop) arguments :
  (forall x, P x -> Q x) -> for_arguments P arguments -> for_arguments Q arguments.
Proof.
  intros H. destruct arguments as [args|]; [|done]. cbn [for_arguments].
  intros Hargs. eapply Forall_impl; [exact Hargs|].
  intros part. by apply for_part_impl.
Qed.

Lemma andThen_Returned {A B} (c : Completion A) (f : A -> Completion B) (b : B) :
  andThen c f = Returned b -> exists a, c = Returned a /\ f a = Returned b.
Proof. destruct c as [a| |]; [|done..]. intros H. by exists a. Qed.

(** A method that keeps a relation at every part keeps it on the parts
    and on the arguments. *)
Lemma on_part_frame {S} (R : relation S) `{!Reflexive R}
    (m : IExpression -> S -> Completion S) part s s' :
  for_part (fun x => forall s s', m x s = Returned s' -> R s s') part ->
  on_part m part s = Returned s' -> R s s'.
Proof.
  destruct part as [x|]; cbn [for_part on_part].
  - intros H. apply H.
  - intros _ [= ->]. reflexivity.
Qed.

Lemma on_arguments_frame {S} (R : relation S) `{!PreOrder R}
    (m : IExpression -> S -> Completion S) arguments s s' :
  for_arguments (fun x => forall s s', m x s = Returned s' -> R s s') arguments ->
  on_arguments m arguments s = Returned s' -> R s s'.
Proof.
  destruct arguments as [args|]; cbn [for_arguments on_arguments].
  2: { intros _ [= ->]. reflexivity. }
  intros Hargs. revert s. induction Hargs as [|arg args Harg _ IH]; intros s.
  - intros [= ->]. reflexivity.
  - intros H. apply andThen_Returned in H as (s1 & H1 & H2).
    etrans; [exact (on_part_frame R m arg s s1 Harg H1) | by apply IH].
Qed.

Ltac frame_step :=
  match goal with
  | Hp : for_part _ ?part, Hr : on_part ?m ?part ?s = Returned ?s' |- ?R _ _ =>
      exact (on_part_frame R m part s s' Hp Hr)
  | Ha : for_arguments _ ?args, Hr : on_arguments ?m ?args ?s = Returned ?s'
    |- ?R _ _ =>
      exact (on_arguments_frame R m args s s' Ha Hr)
  end.

#[local] Instance same_graph_preorder : PreOrder same_graph.
Proof.
  split.
  - by intros st r.
  - intros st1 st2 st3 H12 H23 r. by rewrite H23.
Qed.

#[local] Instance index_frame_preorder : PreOrder index_frame.
Proof.
  split.
  - intros s. by repeat split.
  - intros s1 s2 s3 (Hn1 & Hc1 & Hg1) (Hn2 & Hc2 & Hg2).
    split; [congruence|]. split; [congruence|]. by etrans.
Qed.

#[local] Instance analyze_frame_preorder : PreOrder analyze_frame.
Proof.
  split.
  - intros s. repeat split. exists []. by rewrite app_nil_r.
  - intros s1 s2 s3 (Hs1 & Hu1 & Hc1 & a1 & Hn1) (Hs2 & Hu2 & Hc2 & a2 & Hn2).
    split; [congruence|]. split; [congruence|]. split; [congruence|].
    exists (a1 ++ a2). by rewrite Hn2, Hn1, app_assoc.
Qed.

(** Setting what a reference refers to keeps the symbol graph. *)
Lemma assign_reference_graph (r : Ref) (v : option Ref) (st : Store) :
  same_graph st (assign r (set_reference v) st).
Proof.
  intros r'. destruct (decide (r = r')) as [->|Hne].
  - by rewrite assign_eq.
  - by rewrite assign_ne.
Qed.

Lemma refer_frame (symbolRef_ symbol : Ref) (s : Store * UCDocument) :
  index_frame s (refer symbolRef_ symbol s).
Proof.
  destruct s as [st doc]. unfold refer, setReference. cbn [negb].
  repeat split. apply assign_reference_graph.
Qed.

Lemma member_index_frame fuel t e c s s' :
  Expressions.index fuel t e c s = Some s' -> index_frame s s'.
Proof.
  destruct s as [st doc], s' as [st' doc'].
  unfold Expressions.index, setReference.
  intros H.
  repeat (case_match; simplify_eq/=); simplify_option_eq;
    repeat (case_match; simplify_eq/=);
    repeat split; cbn [fst snd]; try done;
    first [ apply assign_reference_graph
          | etrans; apply assign_reference_graph ].
Qed.

Section Tree.
Variable isOperator isPreOperator isPostOperator : Store -> Ref -> bool.
Variable t : Tables.
Variable baseType returnType : Ref -> option Ref.
Variable NativeArray : Ref.

Lemma index_member_frame fuel e context s s' :
  index_member t fuel e context s = Returned s' -> index_frame s s'.
Proof.
  assert (Hwithout : forall st doc,
            s = (st, doc) ->
            (if outer_is_UCCallExpression (shape e)
             then match TypeCastMap t !! getId st e with
                  | Some _ => Threw
                  | None =>
                      match or_else (ClassesTable t !! getId st e)
                              (Expressions.ObjectsTable t !! getId st e) with
                      | Some type_ => Returned (refer (symbolRef e) type_ (st, doc))
                      | None => Threw
                      end
                  end
             else Threw) = Returned s' ->
            index_frame s s').
  { intros st doc ->. repeat case_match; try done.
    intros [= <-]. exact (refer_frame (symbolRef e) _ (st, doc)). }
  unfold index_member. destruct s as [st doc]. cbn [fst].
  destruct context as [c|]; [|by apply Hwithout].
  destruct (instanceof_UCStructSymbol _); [|by apply Hwithout].
  destruct (Expressions.index fuel t e c (st, doc)) as [r|] eqn:E; [|done].
  intros [= <-]. by eapply member_index_frame.
Qed.

Lemma index_operator_frame test fuel operator context s s' :
  index_operator test fuel operator context s = Returned s' -> index_frame s s'.
Proof.
  unfold index_operator. repeat case_match; try done; intros [= <-].
  - apply refer_frame.
  - reflexivity.
  - reflexivity.
Qed.

(** X18: indexing an expression reports nothing and restructures
    nothing.  Whatever the tree of the expression and whatever its
    context, when [index] returns, the diagnostic nodes and the class of
    the document are as before and so is the symbol graph: the only fields
    written are the targets of symbol references (and the uses recorded
    for them). *)
Theorem index_reports_nothing (fuel : nat) (e : IExpression) :
  forall (context : option Ref) (s s' : Store * UCDocument),
    index isOperator isPreOperator isPostOperator t baseType returnType NativeArray
      fuel e context s = Returned s' ->
    nodes s'.2 = nodes s.2
    /\ class s'.2 = class s.2
    /\ same_graph s.1 s'.1.
Proof.
  change (forall context s s',
            index isOperator isPreOperator isPostOperator t baseType returnType
              NativeArray fuel e context s = Returned s' ->
            index_frame s s').
  induction e using IExpression_induction; intros context s s' Hret; cbn [index] in Hret.
  all: repeat match goal with
         | Hp : for_part _ _ |- _ =>
             apply (for_part_impl _ _ _ (fun x Hx => Hx context)) in Hp
         | Ha : for_arguments _ _ |- _ =>
             apply (for_arguments_impl _ _ _ (fun x Hx => Hx context)) in Ha
         end.
  - frame_step.
  - apply andThen_Returned in Hret as (s1 & Hr1 & Hr2).
    etrans; [frame_step | frame_step].
  - apply andThen_Returned in Hret as (s1 & Hr1 & Hr2).
    etrans; frame_step.
  - apply andThen_Returned in Hret as (s1 & Hr1 & Hr2).
    apply andThen_Returned in Hr2 as (memberContext & _ & Hr2).
    etrans; [frame_step|].
    repeat case_match; simplify_eq; try reflexivity.
    by eapply index_member_frame.
  - apply andThen_Returned in Hret as (s1 & Hr1 & Hr2).
    apply andThen_Returned in Hr2 as (s2 & Hr2 & Hr3).
    etrans; [frame_step|]. etrans; frame_step.
  - apply andThen_Returned in Hret as (s1 & Hr1 & Hr2).
    etrans; [frame_step | by eapply index_operator_frame].
  - apply andThen_Returned in Hret as (s1 & Hr1 & Hr2).
    etrans; [frame_step | by eapply index_operator_frame].
  - apply andThen_Returned in Hret as (s1 & Hr1 & Hr2).
    apply andThen_Returned in Hr2 as (s2 & Hr2 & Hr3).
    etrans; [by eapply index_operator_frame|]. etrans; frame_step.
  - by eapply index_member_frame.
  - simplify_eq. repeat split. apply assign_reference_graph.
  - destruct context; simplify_eq; [|reflexivity].
    repeat split. apply assign_reference_graph.
  - simplify_eq. reflexivity.
  - frame_step.
Qed.

Lemma analyze_operator_frame what operator s :
  analyze_frame s (analyze_operator what operator s).
Proof.
  unfold analyze_operator. repeat case_match; try reflexivity.
  repeat split. by eexists [_].
Qed.

Lemma member_analyze_frame e context s :
  analyze_frame s (Expressions.analyze e context s).
Proof.
  destruct s as [st doc]. rewrite ExpressionFacts.analyze_nodes.
  repeat case_match; try reflexivity; repeat split; by eexists [_].
Qed.

(** X19: analysing an expression resolves nothing.  Whatever the tree of
    the expression and whatever its context, when [analyze] returns, the
    store is the one it started with, the recorded uses and the class of
    the document are as before, and the diagnostic nodes that were there
    are still there, in front of those that were added. *)
Theorem analyze_resolves_nothing (e : IExpression) :
  forall (context : option Ref) (s s' : Store * UCDocument),
    analyze baseType returnType NativeArray e context s = Returned s' ->
    s'.1 = s.1
    /\ usages s'.2 = usages s.2
    /\ class s'.2 = class s.2
    /\ exists added, nodes s'.2 = nodes s.2 ++ added.
Proof.
  change (forall context s s',
            analyze baseType returnType NativeArray e context s = Returned s' ->
            analyze_frame s s').
  induction e using IExpression_induction; intros context s s' Hret; cbn [analyze] in Hret.
  all: repeat match goal with
         | Hp : for_part _ _ |- _ =>
             apply (for_part_impl _ _ _ (fun x Hx => Hx context)) in Hp
         | Ha : for_arguments _ _ |- _ =>
             apply (for_arguments_impl _ _ _ (fun x Hx => Hx context)) in Ha
         end.
  - frame_step.
  - apply andThen_Returned in Hret as (s1 & Hr1 & Hr2).
    etrans; [frame_step | frame_step].
  - apply andThen_Returned in Hret as (s1 & Hr1 & Hr2).
    etrans; frame_step.
  - apply andThen_Returned in Hret as (s1 & Hr1 & Hr2).
    apply andThen_Returned in Hr2 as (memberContext & _ & Hr2).
    etrans; [frame_step|].
    destruct member; simplify_eq; [apply member_analyze_frame | reflexivity].
  - apply andThen_Returned in Hret as (s1 & Hr1 & Hr2).
    apply andThen_Returned in Hr2 as (s2 & Hr2 & Hr3).
    etrans; [frame_step|]. etrans; frame_step.
  - apply andThen_Returned in Hret as (s1 & Hr1 & Hr2). simplify_eq.
    etrans; [frame_step | apply analyze_operator_frame].
  - apply andThen_Returned in Hret as (s1 & Hr1 & Hr2). simplify_eq.
    etrans; [frame_step | apply analyze_operator_frame].
  - apply andThen_Returned in Hret as (s1 & Hr1 & Hr2).
    apply andThen_Returned in Hr2 as (s2 & Hr2 & Hr3). simplify_eq.
    etrans; [frame_step|].
    etrans; [frame_step | apply analyze_operator_frame].
  - simplify_eq. apply member_analyze_frame.
  - simplify_eq. apply member_analyze_frame.
  - simplify_eq. apply member_analyze_frame.
  - simplify_eq. reflexivity.
  - frame_step.
Qed.

End Tree.

(** On a cycle of [super] links the lookup of [index] does not end:
    [class A extends A] and the reference [Bar], which A does not
    declare.  Whatever the call stack allows, [index] runs out of it. *)
Example index_member_on_super_cycle (fuel : nat) :
  index_member Samples.no_tables fuel Samples.bar (Some 0)
    (Samples.self_extending_bar, Samples.empty_document)
  = OutOfFuel.
Proof.
  assert (Hnone : Resolution.declares_none Samples.self_extending_bar 0 "bar").
  { intros c Hc. revert Hc. vm_compute. intros Hc.
    apply elem_of_cons in Hc as [->|Hc]; [|by apply elem_of_nil in Hc].
    split; [discriminate | reflexivity]. }
  assert (Hcycle : forall n,
            findSuperSymbol n Samples.self_extending_bar 0 "bar" = None).
  { induction n as [|n IH]; [done|].
    rewrite ResolutionFacts.findSuperSymbol_stages.
    unfold Resolution.struct_stages.
    replace (Names.str_eq "bar"
               (Names.toLowerCase (getName (Samples.self_extending_bar !!! 0))))
      with false by (vm_compute; reflexivity).
    cbn [Resolution.first_match]. destruct n as [|n]; [done|].
    rewrite (NameResolution.findSymbol_declares_none _ _ _ _ Hnone).
    cbn [Resolution.first_match].
    replace (super (Samples.self_extending_bar !!! 0)) with (Some 0)
      by (vm_compute; reflexivity).
    replace (instanceof_UCMethodSymbol (cls (Samples.self_extending_bar !!! 0)))
      with false by (vm_compute; reflexivity).
    by rewrite IH. }
  unfold index_member. cbn [fst].
  replace (instanceof_UCStructSymbol (cls (Samples.self_extending_bar !!! 0)))
    with true by (vm_compute; reflexivity).
  unfold Expressions.index.
  replace (getId Samples.self_extending_bar Samples.bar) with "bar"
    by (vm_compute; reflexivity).
  change (outer_is_UCCallExpression (shape Samples.bar)) with false.
  cbv iota. by rewrite Hcycle.
Qed.

(** A case of X18: the call [(foo)(, 1)] indexed in class [B extends A],
    where [foo] is the property [Foo] of class A. *)
Lemma index_reports_nothing_witness :
  exists s',
    index Samples.any_operator Samples.any_operator Samples.any_operator
      Samples.no_tables Samples.no_type Samples.no_type 9 3 Samples.foo_call
      (Some 1) (Samples.classes_AB_foo, Samples.empty_document) = Returned s'
    /\ (nodes s'.2 = nodes (Samples.classes_AB_foo, Samples.empty_document).2
        /\ class s'.2 = class (Samples.classes_AB_foo, Samples.empty_document).2
        /\ same_graph (Samples.classes_AB_foo, Samples.empty_document).1 s'.1).
Proof.
  eexists. split.
  - vm_compute. reflexivity.
  - apply (index_reports_nothing Samples.any_operator Samples.any_operator
             Samples.any_operator Samples.no_tables Samples.no_type
             Samples.no_type 9 3 Samples.foo_call (Some 1)
             (Samples.classes_AB_foo, Samples.empty_document)).
    vm_compute. reflexivity.
Defined.

(** A case of X19: the same call analysed before it has been indexed. *)
Lemma analyze_resolves_nothing_witness :
  exists s',
    analyze Samples.no_type Samples.no_type 9 Samples.foo_call
      (Some 1) (Samples.classes_AB_foo, Samples.empty_document) = Returned s'
    /\ (s'.1 = (Samples.classes_AB_foo, Samples.empty_document).1
        /\ usages s'.2 = usages (Samples.classes_AB_foo, Samples.empty_document).2
        /\ class s'.2 = class (Samples.classes_AB_foo, Samples.empty_document).2
        /\ exists added,
             nodes s'.2
             = nodes (Samples.classes_AB_foo, Samples.empty_document).2 ++ added).
Proof.
  eexists. split.
  - vm_compute. reflexivity.
  - apply (analyze_resolves_nothing Samples.no_type Samples.no_type 9
             Samples.foo_call (Some 1)
             (Samples.classes_AB_foo, Samples.empty_document)).
    vm_compute. reflexivity.
Defined.

End ExpressionTreeFacts.
